(** * Markup extraction and entity resolution (extractor.py)

    A shallow embedding of the wikitext engine of [src/extractor.py]:
    title and mention normalisation, the page-type classifier, the heading
    normaliser and section finder, the wikitext cleaner with its
    depth-counted scans, the infobox parser and the per-page accept/reject
    decision of [parse_partition].

    Text is a [list ascii].  The case maps, the whitespace class and the
    word class are those of Python's [str] on the ASCII range; a code above
    127 stands for a character outside all of these classes.  Python's
    [re] is embedded as a backtracking matcher with its priorities
    (leftmost match, ordered alternation, greedy and lazy repetition), so
    that [re.search], [re.sub] and [re.finditer] are run, not described. *)

From Stdlib Require Import Ascii String.
From stdpp Require Import base gmap.
From Stdlib Require Import ZArith Lia Bool Arith List.
Import ListNotations.
Open Scope string_scope.
Open Scope list_scope.
Open Scope nat_scope.

Abbreviation str := (list ascii).
Coercion list_ascii_of_string : string >-> list.

(** ** Characters *)

Module Chr.

Definition code (c : ascii) : nat := nat_of_ascii c.

Definition between (lo hi : nat) (c : ascii) : bool :=
  (lo <=? code c) && (code c <=? hi).

Definition is_upper (c : ascii) : bool := between 65 90 c.
Definition is_lower (c : ascii) : bool := between 97 122 c.
Definition is_digit (c : ascii) : bool := between 48 57 c.

(** [str.isspace] and the class [\s]: TAB..CR, FS..US and the space. *)
Definition is_space (c : ascii) : bool :=
  between 9 13 c || between 28 32 c.

(** The class [\w]. *)
Definition is_word (c : ascii) : bool :=
  is_upper c || is_lower c || is_digit c || Ascii.eqb c "_".

(** The line boundaries of [str.splitlines] on the ASCII range. *)
Definition is_linebreak (c : ascii) : bool :=
  between 10 13 c || between 28 30 c.

Definition lower (c : ascii) : ascii :=
  if is_upper c then ascii_of_nat (code c + 32) else c.

Definition upper (c : ascii) : ascii :=
  if is_lower c then ascii_of_nat (code c - 32) else c.

(** every character, in code order *)
Definition all : list ascii := map ascii_of_nat (seq 0 256).

End Chr.

(** ** String primitives of Python's [str] *)

Module Str.

Fixpoint eqb (a b : str) : bool :=
  match a, b with
  | [], [] => true
  | x :: a', y :: b' => Ascii.eqb x y && eqb a' b'
  | _, _ => false
  end.

Definition lower (s : str) : str := map Chr.lower s.
Definition upper (s : str) : str := map Chr.upper s.

(** [s[i:j]] for [0 <= i], [0 <= j]: out-of-range bounds are clipped *)
Definition slice (s : str) (i j : nat) : str := firstn (j - i) (skipn i s).

(** [s[i]], read only where [i < len(s)] *)
Definition at_ (s : str) (i : nat) : ascii := nth i s "000"%char.

(** [c in chars] for a one-character string [c] *)
Definition mem (c : ascii) (chars : str) : bool := existsb (Ascii.eqb c) chars.

Fixpoint lstrip_by (p : ascii -> bool) (s : str) : str :=
  match s with
  | c :: t => if p c then lstrip_by p t else s
  | [] => []
  end.

Definition rstrip_by (p : ascii -> bool) (s : str) : str :=
  rev (lstrip_by p (rev s)).

Definition strip_by (p : ascii -> bool) (s : str) : str :=
  rstrip_by p (lstrip_by p s).

(** [s.strip()] *)
Definition strip (s : str) : str := strip_by Chr.is_space s.

(** [s.strip(chars)] *)
Definition strip_chars (chars s : str) : str := strip_by (fun c => mem c chars) s.

Fixpoint startswith (s p : str) : bool :=
  match p, s with
  | [], _ => true
  | x :: p', y :: s' => Ascii.eqb x y && startswith s' p'
  | _ :: _, [] => false
  end.

Definition endswith (s p : str) : bool := startswith (rev s) (rev p).

(** [s.find(p)]: the lowest index where [p] occurs, [None] for Python's -1 *)
Fixpoint find_from (s p : str) (i : nat) : option nat :=
  if startswith s p then Some i
  else match s with
       | _ :: t => find_from t p (S i)
       | [] => None
       end.

Definition find (s p : str) : option nat := find_from s p 0.

(** [p in s] *)
Definition contains (s p : str) : bool :=
  match find s p with Some _ => true | None => false end.

(** [s.split(sep, 1)] for a one-character [sep] that occurs in [s] *)
Fixpoint split1 (sep : ascii) (s : str) : str * str :=
  match s with
  | [] => ([], [])
  | c :: t => if Ascii.eqb c sep then ([], t)
              else let (a, b) := split1 sep t in (c :: a, b)
  end.

(** [s.split(sep)] for a one-character [sep] *)
Fixpoint split (sep : ascii) (s : str) : list str :=
  match s with
  | [] => [[]]
  | c :: t =>
      if Ascii.eqb c sep then [] :: split sep t
      else match split sep t with
           | w :: ws => (c :: w) :: ws
           | [] => [[c]]
           end
  end.

(** [sep.join(parts)] *)
Fixpoint join (sep : str) (parts : list str) : str :=
  match parts with
  | [] => []
  | [p] => p
  | p :: ps => p ++ sep ++ join sep ps
  end.

(** [s.replace(old, new)] for a non-empty [old]: occurrences are replaced
    from the left and do not overlap.  [skip] counts the characters of an
    occurrence still to be dropped. *)
Fixpoint replace_go (old new : str) (skip : nat) (s : str) : str :=
  match s with
  | [] => []
  | c :: t =>
      match skip with
      | S k => replace_go old new k t
      | O => if startswith s old
             then new ++ replace_go old new (length old - 1) t
             else c :: replace_go old new 0 t
      end
  end.

Definition replace (old new s : str) : str := replace_go old new 0 s.

(** [s.splitlines()]: a line ends at a line boundary, CR LF counts as one,
    and no empty line is reported after the last boundary. *)
Fixpoint splitlines_go (cur : str) (s : str) : list str :=
  match s with
  | [] => match cur with [] => [] | _ => [rev cur] end
  | c :: t =>
      if Chr.is_linebreak c then
        match t with
        | d :: t' =>
            if Ascii.eqb c "013" && Ascii.eqb d "010"
            then rev cur :: splitlines_go [] t'
            else rev cur :: splitlines_go [] t
        | [] => [rev cur]
        end
      else splitlines_go (c :: cur) t
  end.

Definition splitlines (s : str) : list str := splitlines_go [] s.

End Str.

(** ** Python's [re]: patterns and the backtracking matcher *)

Module Re.

(** The patterns of the source quantify single characters and character
    classes only, so repetition is a constructor over a class. *)
Inductive re : Type :=
| Eps
| One (cls : ascii -> bool)
    (* one character of a class *)
| Rep (cls : ascii -> bool) (lo : nat) (hi : option nat) (greedy : bool)
    (* between [lo] and [hi] characters of a class *)
| Seq (r1 r2 : re)
| Alt (r1 r2 : re)
| Grp (n : nat) (r : re)
    (* capturing group number [n] *)
| Bref (n : nat)
    (* backreference to group [n] *)
| Bol (multiline : bool)
| Eol (multiline : bool)
| Wordb
| NotBehind (cls : ascii -> bool).
    (* negative lookbehind of one character *)

(** *** Writing patterns *)

Definition chr (c : ascii) : ascii -> bool := Ascii.eqb c.
Definition ichr (c : ascii) : ascii -> bool :=
  fun x => Ascii.eqb (Chr.lower x) (Chr.lower c).
Definition any : ascii -> bool := fun _ => true.
Definition oneof (chars : str) : ascii -> bool := fun x => Str.mem x chars.
Definition noneof (chars : str) : ascii -> bool := fun x => negb (Str.mem x chars).
Definition NL : ascii := "010"%char.

Definition seqs (rs : list re) : re := fold_right Seq Eps rs.

Fixpoint alts (rs : list re) : re :=
  match rs with
  | [] => Eps
  | [r] => r
  | r :: rs' => Alt r (alts rs')
  end.

(** a literal, case-sensitive and under [re.IGNORECASE] *)
Definition lit (s : str) : re := seqs (map (fun c => One (chr c)) s).
Definition ilit (s : str) : re := seqs (map (fun c => One (ichr c)) s).

Definition star cls := Rep cls 0 None true.
Definition plus cls := Rep cls 1 None true.
Definition opt cls := Rep cls 0 (Some 1) true.
Definition lazy_star cls := Rep cls 0 None false.
Definition lazy_plus cls := Rep cls 1 None false.

(** *** Matching *)

(** the groups captured so far *)
Definition caps := list (nat * str).

Fixpoint group (n : nat) (g : caps) : option str :=
  match g with
  | [] => None
  | (k, v) :: g' => if Nat.eqb k n then Some v else group n g'
  end.

(** A position is the reversed text before it and the text after it; a
    continuation receives the position reached and the groups. *)
Definition cont (A : Type) := str -> str -> caps -> option A.

Definition hi_allows (hi : option nat) : bool :=
  match hi with Some O => false | _ => true end.
Definition hi_pred (hi : option nat) : option nat :=
  match hi with Some n => Some (Nat.pred n) | None => None end.

(** greedy repetition: take a character while allowed, give back on failure *)
Fixpoint rep_greedy {A} (cls : ascii -> bool) (lo : nat) (hi : option nat)
    (pre rest : str) (g : caps) (k : cont A) {struct rest} : option A :=
  let stop := match lo with O => k pre rest g | S _ => None end in
  match rest with
  | c :: t =>
      if cls c && hi_allows hi then
        match rep_greedy cls (Nat.pred lo) (hi_pred hi) (c :: pre) t g k with
        | Some x => Some x
        | None => stop
        end
      else stop
  | [] => stop
  end.

(** lazy repetition: stop as soon as allowed, take a character on failure *)
Fixpoint rep_lazy {A} (cls : ascii -> bool) (lo : nat) (hi : option nat)
    (pre rest : str) (g : caps) (k : cont A) {struct rest} : option A :=
  let more :=
    match rest with
    | c :: t =>
        if cls c && hi_allows hi
        then rep_lazy cls (Nat.pred lo) (hi_pred hi) (c :: pre) t g k
        else None
    | [] => None
    end in
  match lo with
  | O => match k pre rest g with Some x => Some x | None => more end
  | S _ => more
  end.

Definition at_bol (multiline : bool) (pre : str) : bool :=
  match pre with
  | [] => true
  | c :: _ => multiline && Ascii.eqb c NL
  end.

(** [$]: at the end, or before a newline that ends the text; under
    [re.MULTILINE] before every newline *)
Definition at_eol (multiline : bool) (rest : str) : bool :=
  match rest with
  | [] => true
  | c :: t =>
      Ascii.eqb c NL
      && (multiline || match t with [] => true | _ => false end)
  end.

Definition word_before (pre : str) : bool :=
  match pre with c :: _ => Chr.is_word c | [] => false end.

Definition at_wordb (pre rest : str) : bool :=
  negb (Bool.eqb (word_before pre) (word_before rest)).

(** the text between an earlier position [pre] and a later one [pre'] *)
Definition consumed (pre pre' : str) : str :=
  rev (firstn (length pre' - length pre) pre').

Fixpoint run {A} (r : re) (pre rest : str) (g : caps) (k : cont A) : option A :=
  match r with
  | Eps => k pre rest g
  | One cls =>
      match rest with
      | c :: t => if cls c then k (c :: pre) t g else None
      | [] => None
      end
  | Rep cls lo hi greedy =>
      if greedy then rep_greedy cls lo hi pre rest g k
      else rep_lazy cls lo hi pre rest g k
  | Seq r1 r2 => run r1 pre rest g (fun p s g' => run r2 p s g' k)
  | Alt r1 r2 =>
      match run r1 pre rest g k with
      | Some x => Some x
      | None => run r2 pre rest g k
      end
  | Grp n r1 =>
      run r1 pre rest g (fun p s g' => k p s ((n, consumed pre p) :: g'))
  | Bref n =>
      match group n g with
      | Some v =>
          if Str.startswith rest v
          then k (rev v ++ pre) (skipn (length v) rest) g
          else None
      | None => None
      end
  | Bol ml => if at_bol ml pre then k pre rest g else None
  | Eol ml => if at_eol ml rest then k pre rest g else None
  | Wordb => if at_wordb pre rest then k pre rest g else None
  | NotBehind cls =>
      match pre with
      | c :: _ => if cls c then None else k pre rest g
      | [] => k pre rest g
      end
  end.

(** A match object: [m.start()], [m.end()], the groups, and group 0. *)
Record match_obj : Type := MatchObj
  { m_start : nat; m_end : nat; m_groups : caps; m_text : str }.

Definition m_group (n : nat) (m : match_obj) : str :=
  match group n (m_groups m) with Some v => v | None => [] end.

(** the match that starts at the position [(pre, rest)], if any *)
Definition match_here (r : re) (pre rest : str) : option match_obj :=
  run r pre rest []
    (fun p _ g => Some (MatchObj (length pre) (length p) g (consumed pre p))).

(** [re.search]: the leftmost match *)
Fixpoint search_from (r : re) (pre rest : str) : option match_obj :=
  match match_here r pre rest with
  | Some m => Some m
  | None =>
      match rest with
      | c :: t => search_from r (c :: pre) t
      | [] => None
      end
  end.

Definition search (r : re) (s : str) : option match_obj := search_from r [] s.

Definition found (r : re) (s : str) : bool :=
  match search r s with Some _ => true | None => false end.

(** [re.sub] with a replacement function, and [re.finditer]: the matches
    are taken from the left and do not overlap; [skip] counts the
    characters of the current match still to be passed over.  After an
    empty match the scan moves on by one character. *)
Fixpoint sub_go (r : re) (repl : match_obj -> str) (skip : nat)
    (pre rest : str) : str :=
  let step (out : ascii -> str) (n : nat) :=
    match rest with
    | c :: t => out c ++ sub_go r repl n (c :: pre) t
    | [] => []
    end in
  match skip with
  | S n => step (fun _ => []) n
  | O =>
      match match_here r pre rest with
      | Some m =>
          match m_end m - m_start m with
          | O => repl m ++ step (fun c => [c]) 0
          | S n => repl m ++ step (fun _ => []) n
          end
      | None => step (fun c => [c]) 0
      end
  end.

Definition sub_fn (r : re) (repl : match_obj -> str) (s : str) : str :=
  sub_go r repl 0 [] s.

Definition sub (r : re) (repl : str) (s : str) : str :=
  sub_fn r (fun _ => repl) s.

Fixpoint finditer_go (r : re) (skip : nat) (pre rest : str) : list match_obj :=
  let step (n : nat) :=
    match rest with
    | c :: t => finditer_go r n (c :: pre) t
    | [] => []
    end in
  match skip with
  | S n => step n
  | O =>
      match match_here r pre rest with
      | Some m => m :: step (Nat.pred (m_end m - m_start m))
      | None => step 0
      end
  end.

Definition finditer (r : re) (s : str) : list match_obj := finditer_go r 0 [] s.

End Re.

Import Re.

(** ** Entity normalisation *)

(** The entity categories, which the source writes as the strings
    ["country"], ["city"], ["venue"] and ["artist"]. *)
Inductive etype : Type := Country | City | Venue | Artist.

Definition etype_eqb (a b : etype) : bool :=
  match a, b with
  | Country, Country | City, City | Venue, Venue | Artist, Artist => true
  | _, _ => false
  end.

Definition US_STATE_CODES : list (str * str) :=
  [ ("AL" : str, "Alabama" : str); ("AK" : str, "Alaska" : str);
    ("AZ" : str, "Arizona" : str); ("AR" : str, "Arkansas" : str);
    ("CA" : str, "California" : str); ("CO" : str, "Colorado" : str);
    ("CT" : str, "Connecticut" : str); ("DE" : str, "Delaware" : str);
    ("FL" : str, "Florida" : str); ("GA" : str, "Georgia" : str);
    ("HI" : str, "Hawaii" : str); ("ID" : str, "Idaho" : str);
    ("IL" : str, "Illinois" : str); ("IN" : str, "Indiana" : str);
    ("IA" : str, "Iowa" : str); ("KS" : str, "Kansas" : str);
    ("KY" : str, "Kentucky" : str); ("LA" : str, "Louisiana" : str);
    ("ME" : str, "Maine" : str); ("MD" : str, "Maryland" : str);
    ("MA" : str, "Massachusetts" : str); ("MI" : str, "Michigan" : str);
    ("MN" : str, "Minnesota" : str); ("MS" : str, "Mississippi" : str);
    ("MO" : str, "Missouri" : str); ("MT" : str, "Montana" : str);
    ("NE" : str, "Nebraska" : str); ("NV" : str, "Nevada" : str);
    ("NH" : str, "New Hampshire" : str); ("NJ" : str, "New Jersey" : str);
    ("NM" : str, "New Mexico" : str); ("NY" : str, "New York" : str);
    ("NC" : str, "North Carolina" : str); ("ND" : str, "North Dakota" : str);
    ("OH" : str, "Ohio" : str); ("OK" : str, "Oklahoma" : str);
    ("OR" : str, "Oregon" : str); ("PA" : str, "Pennsylvania" : str);
    ("RI" : str, "Rhode Island" : str); ("SC" : str, "South Carolina" : str);
    ("SD" : str, "South Dakota" : str); ("TN" : str, "Tennessee" : str);
    ("TX" : str, "Texas" : str); ("UT" : str, "Utah" : str);
    ("VT" : str, "Vermont" : str); ("VA" : str, "Virginia" : str);
    ("WA" : str, "Washington" : str); ("WV" : str, "West Virginia" : str);
    ("WI" : str, "Wisconsin" : str); ("WY" : str, "Wyoming" : str);
    ("DC" : str, "Washington, D.C." : str) ].

(** [d[key]] on a table written as its items: [None] when [key not in d] *)
Fixpoint dict_get {V} (d : list (str * V)) (key : str) : option V :=
  match d with
  | [] => None
  | (k, v) :: d' => if Str.eqb k key then Some v else dict_get d' key
  end.

(** [\s+] *)
Definition re_spaces : re := plus Chr.is_space.

Definition normalize_title (s : str) : str :=
  let s := Str.strip s in
  let s := sub re_spaces " " s in
  Str.lower s.

(** [\s*\([^)]+\)\s*$] *)
Definition re_clarifier : re :=
  seqs [star Chr.is_space; lit "("; plus (noneof ")"); lit ")";
        star Chr.is_space; Eol false].

Definition normalize_title_variants (s : str) : list str :=
  let norm_full := normalize_title s in
  let variants := [norm_full] in
  let without_clarifier := sub re_clarifier "" s in
  if negb (Str.eqb without_clarifier s) then
    let norm_without := normalize_title without_clarifier in
    if negb (Str.eqb norm_without norm_full)
    then variants ++ [norm_without]
    else variants
  else variants.

(** [country] is [None] where the caller leaves the default. *)
Definition normalize_entity (entity_value : str) (ty : etype)
    (country : option str) : str :=
  if etype_eqb ty Country && Str.eqb (Str.upper entity_value) "USA"
  then normalize_title "United States"
  else
    let default := normalize_title entity_value in
    match ty, country with
    | City, Some ((_ :: _) as c) =>
        if Str.eqb (Str.upper c) "USA" then
          let state_code := Str.upper (Str.strip entity_value) in
          match dict_get US_STATE_CODES state_code with
          | Some name => normalize_title name
          | None => default
          end
        else default
    | _, _ => default
    end.

(** ** Page-type classifier *)

(** [\[\[Category:[^\]]*\b(w1|w2|...)\b] under [re.IGNORECASE] *)
Definition category_signal (words : list str) : re :=
  seqs [ilit "[[Category:"; star (noneof "]"); Wordb;
        Grp 1 (alts (map ilit words)); Wordb].

(** [{{Infobox\s+(n1|n2|...)] under [re.IGNORECASE] *)
Definition infobox_signal (names : list str) : re :=
  seqs [ilit "{{Infobox"; plus Chr.is_space; Grp 1 (alts (map ilit names))].

Definition artist_patterns : list re :=
  [ category_signal ["musicians" : str; "singers" : str; "bands" : str;
                     "rappers" : str; "musical groups" : str;
                     "music artists" : str];
    infobox_signal ["musical artist" : str; "band" : str; "musician" : str;
                    "singer" : str];
    category_signal ["rock bands" : str; "pop singers" : str; "hip hop" : str;
                     "jazz" : str; "classical music" : str] ].

Definition venue_patterns : list re :=
  [ category_signal ["music venues" : str; "concert halls" : str;
                     "stadiums" : str; "arenas" : str; "amphitheatres" : str];
    infobox_signal ["venue" : str; "stadium" : str; "arena" : str];
    category_signal ["buildings and structures" : str;
                     "entertainment venues" : str] ].

Definition city_patterns : list re :=
  [ category_signal ["cities" : str; "towns" : str; "municipalities" : str;
                     "populated places" : str];
    infobox_signal ["settlement" : str; "city" : str; "town" : str];
    category_signal ["capitals" : str; "county seats" : str] ].

(** the second pattern is [{{Infobox\s+country], without a group *)
Definition country_patterns : list re :=
  [ category_signal ["countries" : str; "sovereign states" : str;
                     "member states" : str];
    seqs [ilit "{{Infobox"; plus Chr.is_space; ilit "country"] ].

(** one [for pattern in ...: if re.search(...): scores[t] += 1] loop *)
Definition tally (patterns : list re) (page_text : str) : nat :=
  fold_left (fun n p => if found p page_text then n + 1 else n) patterns 0.

(** the [scores] dict after the four loops, in insertion order *)
Definition scores (page_text : str) : list (etype * nat) :=
  [ (Country, tally country_patterns page_text);
    (City, tally city_patterns page_text);
    (Venue, tally venue_patterns page_text);
    (Artist, tally artist_patterns page_text) ].

(** [scores.get] *)
Fixpoint scores_get (d : list (etype * nat)) (t : etype) : nat :=
  match d with
  | [] => 0
  | (k, v) :: d' => if etype_eqb k t then v else scores_get d' t
  end.

(** Python's [max(xs, key=f)] on a non-empty sequence [x :: xs]: a later
    element replaces the running maximum only when it is strictly greater. *)
Definition max_by {A} (f : A -> nat) (x : A) (xs : list A) : A :=
  fold_left (fun best y => if f best <? f y then y else best) xs x.

Definition detect_page_type (page_text : str) : option etype :=
  let d := scores page_text in
  let max_score :=
    match map snd d with
    | v :: vs => max_by (fun v => v) v vs
    | [] => 0
    end in
  if 0 <? max_score then
    match map fst d with
    | k :: ks => Some (max_by (scores_get d) k ks)
    | [] => None
    end
  else None.

(** ** Headings and sections *)

Definition nl : str := [NL].

(** [={2,6}] *)
Definition re_equals : re := Rep (chr "=") 2 (Some 6) true.

(** [[^=\n]] *)
Definition title_char : ascii -> bool := noneof ("=" ++ nl).

(** [(?<!\n)(={2,6}[^=\n]+={2,6})] *)
Definition re_heading_inline : re :=
  seqs [NotBehind (chr NL);
        Grp 1 (seqs [re_equals; plus title_char; re_equals])].

(** the replacement is [\n\1] *)
Definition normalize_headings (wikitext : str) : str :=
  sub_fn re_heading_inline (fun m => nl ++ m_group 1 m) wikitext.

(** [(?:^|\n)(={2,6})\s*(?P<title>[^=\n]+?)\s*\1] under [re.MULTILINE];
    the group [title] is group 2 *)
Definition SECTION_RE : re :=
  seqs [Alt (Bol true) (One (chr NL)); Grp 1 re_equals; star Chr.is_space;
        Grp 2 (lazy_plus title_char); star Chr.is_space; Bref 1].

(** the [for m2 in matches[i + 1:]] loop: where the section ends *)
Fixpoint section_end (level : nat) (end_ : nat) (later : list match_obj) : nat :=
  match later with
  | [] => end_
  | m2 :: later' =>
      if length (m_group 1 m2) <=? level then m_start m2
      else section_end level end_ later'
  end.

(** the [for i, m in enumerate(matches)] loop *)
Fixpoint find_section_in (wt target : str) (matches : list match_obj)
  : option str :=
  match matches with
  | [] => None
  | m :: later =>
      let title := m_group 2 m in
      let title_clean :=
        Str.lower (Str.strip_chars (" '" ++ ["034"%char]) (Str.strip title)) in
      if Str.eqb title_clean target then
        let level := length (m_group 1 m) in
        let start := m_end m in
        let end_ := section_end level (length wt) later in
        Some (Str.strip (Str.slice wt start end_))
      else find_section_in wt target later
  end.

Definition find_section_block (wikitext section_name : str) : option str :=
  let wt := normalize_headings wikitext in
  let matches := finditer SECTION_RE wt in
  let target := Str.lower (Str.strip section_name) in
  find_section_in wt target matches.

(** ** Loops *)

(** A [while cond: body] loop on an explicit state.  The fuel bounds the
    number of iterations; [None] is a loop that was cut short. *)
Fixpoint while {S : Type} (fuel : nat) (cond : S -> bool)
    (body : S -> option S) (s : S) : option S :=
  match fuel with
  | O => None
  | Datatypes.S fuel' =>
      if cond s then
        match body s with
        | Some s' => while fuel' cond body s'
        | None => None
        end
      else Some s
  end.

(** [text[i:i+2] == tok] *)
Definition tok_at (text : str) (i : nat) (tok : str) : bool :=
  Str.eqb (Str.slice text i (i + 2)) tok.

(** ** The depth-counted scans of the cleaner

    A [result] list that the source joins at the end is kept as the text
    joined so far.  An index test [i < len(text) - 1] is written
    [i + 1 <? length text]. *)

Section Scans.

Variable text : str.

(** *** [remove_tables] *)

Definition tables_inner_cond (s : nat * Z) : bool :=
  let '(i, depth) := s in (i + 1 <? length text) && (0 <? depth)%Z.

Definition tables_inner_body (s : nat * Z) : option (nat * Z) :=
  let '(i, depth) := s in
  if tok_at text i "{|" then Some (i + 2, (depth + 1)%Z)
  else if tok_at text i "|}" then Some (i + 2, (depth - 1)%Z)
  else Some (i + 1, depth).

Definition tables_cond (s : nat * str) : bool :=
  let '(i, _) := s in i <? length text.

Definition tables_body (s : nat * str) : option (nat * str) :=
  let '(i, result) := s in
  if (i + 1 <? length text) && tok_at text i "{|" then
    match while (S (length text)) tables_inner_cond tables_inner_body
                (i + 2, 1%Z) with
    | Some (i', _) => Some (i', result)
    | None => None
    end
  else Some (i + 1, result ++ [Str.at_ text i]).

Definition remove_tables_loop : option (nat * str) :=
  while (S (length text)) tables_cond tables_body (0, []).

(** *** [remove_templates] *)

Definition templates_inner_cond (s : nat * Z) : bool :=
  let '(i, depth) := s in (i + 1 <? length text) && (0 <? depth)%Z.

Definition templates_inner_body (s : nat * Z) : option (nat * Z) :=
  let '(i, depth) := s in
  if tok_at text i "{{" then Some (i + 2, (depth + 1)%Z)
  else if tok_at text i "}}" then Some (i + 2, (depth - 1)%Z)
  else Some (i + 1, depth).

Definition templates_body (s : nat * str) : option (nat * str) :=
  let '(i, result) := s in
  if (i + 1 <? length text) && tok_at text i "{{" then
    match while (S (length text)) templates_inner_cond templates_inner_body
                (i + 2, 1%Z) with
    | Some (i', depth) =>
        if (0 <? depth)%Z then Some (i' + 1, result) else Some (i', result)
    | None => None
    end
  else Some (i + 1, result ++ [Str.at_ text i]).

Definition remove_templates_loop : option (nat * str) :=
  while (S (length text)) tables_cond templates_body (0, []).

(** *** [extract_list_content] *)

Definition list_templates : list str :=
  [ "plainlist" : str; "flatlist" : str; "hlist" : str; "ubl" : str;
    "nowrap" : str; "url" : str; "official url" : str;
    "official website" : str; "start date" : str;
    "start date and age" : str; "end date" : str;
    "end date and age" : str ].

(** [while template_name_end < len(text) and
          text[template_name_end] not in "|}\n"] *)
Definition name_end_cond (e : nat) : bool :=
  (e <? length text) && negb (Str.mem (Str.at_ text e) ("|}" ++ nl)).

Definition name_end_body (e : nat) : option nat := Some (e + 1).

(** the state of the content loop: [i], [depth], [result], and whether
    [break] was reached *)
Definition content_cond (s : nat * Z * str * bool) : bool :=
  let '(i, depth, _, broke) := s in
  negb broke && (i + 1 <? length text) && (0 <? depth)%Z.

Definition content_body (content_start : nat) (s : nat * Z * str * bool)
  : option (nat * Z * str * bool) :=
  let '(i, depth, result, _) := s in
  if tok_at text i "{{" then Some (i + 2, (depth + 1)%Z, result, false)
  else if tok_at text i "}}" then
    let depth := (depth - 1)%Z in
    if (depth =? 0)%Z
    then Some (i + 2, depth, result ++ Str.slice text content_start i, true)
    else Some (i + 2, depth, result, false)
  else Some (i + 1, depth, result, false).

Definition list_body (s : nat * str) : option (nat * str) :=
  let '(i, result) := s in
  if (i + 1 <? length text) && tok_at text i "{{" then
    let match_start := i in
    let i := i + 2 in
    match while (S (length text)) name_end_cond name_end_body i with
    | None => None
    | Some template_name_end =>
        let template_name :=
          Str.lower (Str.strip (Str.slice text i template_name_end)) in
        if existsb (Str.eqb template_name) list_templates then
          let i := template_name_end in
          if (i <? length text) && Ascii.eqb (Str.at_ text i) "|" then
            let i := i + 1 in
            match while (S (length text)) content_cond (content_body i)
                        (i, 1%Z, result, false) with
            | Some (i', _, result', _) => Some (i', result')
            | None => None
            end
          else Some (i, result ++ Str.slice text match_start i)
        else Some (i, result ++ Str.slice text match_start i)
    end
  else Some (i + 1, result ++ [Str.at_ text i]).

Definition extract_list_content_loop : option (nat * str) :=
  while (S (length text)) tables_cond list_body (0, []).

End Scans.

(** The value a scan returns: the joined [result] when its loop has ended.
    That the loops do end within their fuel is proved below. *)
Definition joined (r : option (nat * str)) : str :=
  match r with Some (_, result) => result | None => [] end.

Definition remove_tables (text : str) : str := joined (remove_tables_loop text).
Definition remove_templates (text : str) : str :=
  joined (remove_templates_loop text).
Definition extract_list_content (text : str) : str :=
  joined (extract_list_content_loop text).

(** ** [html.unescape]

    A function of Python's standard library.  Its fast path is kept as it
    is: a text without ['&'] is returned unchanged.  On other texts the
    character references are decoded as the library does, with the part of
    its tables that stays inside the text model: a numeric reference to an
    ASCII code, and the named references [amp], [lt], [gt], [quot] and
    [apos].  Any other reference is left in place. *)

Module Html.

Definition is_hex (c : ascii) : bool :=
  Chr.is_digit c || Chr.between 65 70 c || Chr.between 97 102 c.

Definition hex_val (c : ascii) : nat :=
  if Chr.is_digit c then Chr.code c - 48
  else if Chr.between 65 70 c then Chr.code c - 55
  else Chr.code c - 87.

Definition int_of (base : nat) (digits : str) : nat :=
  fold_left (fun n c => n * base + hex_val c) digits 0.

(** [&(#[0-9]+;?|#[xX][0-9a-fA-F]+;?|[^\t\n\f <&#;]{1,32};?)] *)
Definition charref : re :=
  seqs [lit "&";
        Grp 1 (alts
          [ seqs [lit "#"; plus Chr.is_digit; opt (chr ";")];
            seqs [lit "#"; One (oneof "xX"); plus is_hex; opt (chr ";")];
            seqs [Rep (noneof ["009"; "010"; "012"; " "; "<"; "&"; "#"; ";"]%char)
                      1 (Some 32) true;
                  opt (chr ";")] ])].

Definition html5 : list (str * str) :=
  [ ("amp;" : str, "&" : str); ("amp" : str, "&" : str);
    ("AMP;" : str, "&" : str); ("AMP" : str, "&" : str);
    ("lt;" : str, "<" : str); ("lt" : str, "<" : str);
    ("LT;" : str, "<" : str); ("LT" : str, "<" : str);
    ("gt;" : str, ">" : str); ("gt" : str, ">" : str);
    ("GT;" : str, ">" : str); ("GT" : str, ">" : str);
    ("quot;" : str, ["034"%char]); ("quot" : str, ["034"%char]);
    ("QUOT;" : str, ["034"%char]); ("QUOT" : str, ["034"%char]);
    ("apos;" : str, "'" : str) ].

(** the code points the library drops, on the ASCII range *)
Definition invalid_codepoint (n : nat) : bool :=
  ((1 <=? n) && (n <=? 8)) || (n =? 11) || ((14 <=? n) && (n <=? 31))
  || (n =? 127).

(** [for x in range(len(s)-1, 1, -1): if s[:x] in _html5: ...] *)
Fixpoint longest_name (s : str) (x : nat) : option str :=
  match x with
  | O | 1 => None
  | S x' =>
      match dict_get html5 (firstn x s) with
      | Some v => Some (v ++ skipn x s)
      | None => longest_name s x'
      end
  end.

Definition replace_charref (m : match_obj) : str :=
  let s := m_group 1 m in
  match s with
  | "#"%char :: d =>
      let digits := Str.rstrip_by (Ascii.eqb ";") in
      let num :=
        match d with
        | c :: d' => if Str.mem c "xX" then int_of 16 (digits d')
                     else int_of 10 (digits d)
        | [] => 0
        end in
      if (num =? 0) || (128 <=? num) then "&" ++ s
      else if invalid_codepoint num then []
      else [ascii_of_nat num]
  | _ =>
      match dict_get html5 s with
      | Some v => v
      | None =>
          match longest_name s (length s - 1) with
          | Some v => v
          | None => "&" ++ s
          end
      end
  end.

Definition unescape (s : str) : str :=
  if negb (Str.contains s "&") then s
  else sub_fn charref replace_charref s.

End Html.

(** ** The wikitext cleaner *)

Definition quote : ascii -> bool := oneof ["034"; "'"]%char.
Definition sp : ascii -> bool := Chr.is_space.

(** the heading pattern of the cleaner is [SECTION_RE] with the title as
    group 2; its replacement is ["\n" + m.group(2).strip() + "\n"] *)
Definition heading_repl (m : match_obj) : str :=
  nl ++ Str.strip (m_group 2 m) ++ nl.

(** [<ref[^>]*>.*?</ref>] under [re.DOTALL | re.IGNORECASE] *)
Definition re_ref : re :=
  seqs [ilit "<ref"; star (noneof ">"); lit ">"; lazy_star any; ilit "</ref>"].
(** [<ref[^/>]*/>] under [re.IGNORECASE] *)
Definition re_ref_self : re := seqs [ilit "<ref"; star (noneof "/>"); lit "/>"].
(** [<!--.*?-->] under [re.DOTALL] *)
Definition re_comment : re := seqs [lit "<!--"; lazy_star any; lit "-->"].
(** [\[\[(?:File|Image):[^]]+\]\]] under [re.IGNORECASE] *)
Definition re_file : re :=
  seqs [lit "[["; Alt (ilit "File") (ilit "Image"); lit ":";
        plus (noneof "]"); lit "]]"].
(** [\[\[([^]]+)\]\]] *)
Definition re_link : re := seqs [lit "[["; Grp 1 (plus (noneof "]")); lit "]]"].
(** [^\s*[^:]*:\s*] *)
Definition re_link_prefix : re :=
  seqs [Bol false; star sp; star (noneof ":"); lit ":"; star sp].

Definition link_repl (m : match_obj) : str :=
  let inner := m_group 1 m in
  let parts := Str.split "|" inner in
  let last := List.last parts [] in
  sub re_link_prefix "" last.

(** [</?[^>]+>] *)
Definition re_tag : re := seqs [lit "<"; opt (chr "/"); plus (noneof ">"); lit ">"].
(** [\n{3,}] *)
Definition re_blank_lines : re := Rep (chr NL) 3 None true.
(** [[ \t]{2,}] *)
Definition re_blanks : re := Rep (oneof [" "; "009"]%char) 2 None true.
(** [(?:^|\n)\s*\*\s+], without [re.MULTILINE] *)
Definition re_bullet : re :=
  seqs [Alt (Bol false) (One (chr NL)); star sp; lit "*"; plus sp].
(** [\*\s+] *)
Definition re_star : re := seqs [lit "*"; plus sp].
(** [!\s*scope\s*=\s*Q?\w+Q?] under [re.IGNORECASE], where [Q] is the
    class of the two quote characters *)
Definition re_scope : re :=
  seqs [lit "!"; star sp; ilit "scope"; star sp; lit "="; star sp;
        opt quote; plus Chr.is_word; opt quote].
(** [rowspan\s*=\s*Q?\d+Q?] and the same for [colspan] *)
Definition re_span (name : str) : re :=
  seqs [ilit name; star sp; lit "="; star sp; opt quote; plus Chr.is_digit;
        opt quote].
(** [class\s*=\s*Q[^Q]*Q] and the same for [style] *)
Definition re_quoted_attr (name : str) : re :=
  seqs [ilit name; star sp; lit "="; star sp; One quote;
        star (fun c => negb (quote c)); One quote].
(** [width\s*=\s*Q?[^Q\s]+Q?] *)
Definition re_width : re :=
  seqs [ilit "width"; star sp; lit "="; star sp; opt quote;
        plus (fun c => negb (quote c) && negb (sp c)); opt quote].
(** [[!+\-]{1,3}\s*] *)
Definition re_punct : re := seqs [Rep (oneof "!+-") 1 (Some 3) true; star sp].
(** [\|+], [,\s*,+], [^\s*,\s*] and [,\s*$] *)
Definition re_pipes : re := plus (chr "|").
Definition re_commas : re := seqs [lit ","; star sp; plus (chr ",")].
Definition re_lead_comma : re := seqs [Bol false; star sp; lit ","; star sp].
Definition re_trail_comma : re := seqs [lit ","; star sp; Eol false].

(** The passes of [clean_wikitext], in the order of the source.  The one
    function of the source is cut in three here: the passes that decode
    and remove markup, up to the bold and italic quotes; the removal of
    the remaining tags with the whitespace passes; and the passes on
    bullets, table leftovers, brackets, pipes and commas. *)
Definition clean_markup (text : str) : str :=
  let text := Html.unescape text in
  let text := sub_fn SECTION_RE heading_repl text in
  let text := sub re_ref "" text in
  let text := sub re_ref_self "" text in
  let text := sub re_comment "" text in
  let text := remove_tables text in
  let text := sub re_file "" text in
  let text := sub_fn re_link link_repl text in
  let text := extract_list_content text in
  let text := remove_templates text in
  Str.replace "''" "" (Str.replace "'''" "" text).

Definition clean_whitespace (text : str) : str :=
  let text := sub re_tag "" text in
  let text := sub re_blank_lines (nl ++ nl) text in
  let text := Str.join nl (map Str.strip (Str.splitlines text)) in
  sub re_blanks " " text.

Definition clean_leftovers (text : str) : str :=
  let text := sub re_bullet nl text in
  let text := sub re_star ", " text in
  let text := sub re_scope "" text in
  let text := sub (re_span "rowspan") "" text in
  let text := sub (re_span "colspan") "" text in
  let text := sub (re_quoted_attr "class") "" text in
  let text := sub (re_quoted_attr "style") "" text in
  let text := sub re_width "" text in
  let text := sub re_punct " " text in
  let text := sub (lit "[[") "" text in
  let text := sub (lit "]]") "" text in
  let text := sub re_pipes ", " text in
  let text := sub re_commas "," text in
  let text := sub re_lead_comma "" text in
  let text := sub re_trail_comma "" text in
  Str.strip text.

Definition clean_wikitext (text : str) : str :=
  match text with
  | [] => []
  | _ => clean_leftovers (clean_whitespace (clean_markup text))
  end.

(** ** The infobox parser *)

(** the state of the scan: [i], [depth], and the value of a [return]
    reached inside the loop *)
Definition infobox_cond (wikitext : str) (s : nat * Z * option str) : bool :=
  let '(i, _, ret) := s in
  (i + 1 <? length wikitext) && match ret with None => true | Some _ => false end.

Definition infobox_body (wikitext : str) (idx : nat) (s : nat * Z * option str)
  : option (nat * Z * option str) :=
  let '(i, depth, _) := s in
  if tok_at wikitext i "{{" then Some (i + 2, (depth + 1)%Z, None)
  else if tok_at wikitext i "}}" then
    let depth := (depth - 1)%Z in
    let i := i + 2 in
    if (depth =? 0)%Z then Some (i, depth, Some (Str.slice wikitext idx i))
    else Some (i, depth, None)
  else Some (i + 1, depth, None).

(** [None] is a loop cut short; [Some None] is the source's [return None] *)
Definition extract_infobox_block_loop (wikitext template_prefix : str)
  : option (option str) :=
  match Str.find wikitext ("{{" ++ template_prefix) with
  | None => Some None
  | Some idx =>
      match while (S (length wikitext)) (infobox_cond wikitext)
                  (infobox_body wikitext idx) (idx, 0%Z, None) with
      | Some (_, _, ret) => Some ret
      | None => None
      end
  end.

Definition extract_infobox_block (wikitext template_prefix : str) : option str :=
  match extract_infobox_block_loop wikitext template_prefix with
  | Some ret => ret
  | None => None
  end.

(** [fields[key] = value] on a dict written as its items in insertion
    order: a key that is present keeps its place and takes the new value *)
Fixpoint dict_set {V} (d : list (str * V)) (key : str) (value : V)
  : list (str * V) :=
  match d with
  | [] => [(key, value)]
  | (k, v) :: d' =>
      if Str.eqb k key then (k, value) :: d'
      else (k, v) :: dict_set d' key value
  end.

(** the state of the splitting loop: [i], [depth], [current], [parts] *)
Definition split_cond (rest : str) (s : nat * Z * str * list str) : bool :=
  let '(i, _, _, _) := s in i <? length rest.

Definition split_body (rest : str) (s : nat * Z * str * list str)
  : option (nat * Z * str * list str) :=
  let '(i, depth, current, parts) := s in
  if tok_at rest i "{{" then
    Some (i + 2, (depth + 1)%Z, current ++ Str.slice rest i (i + 2), parts)
  else if tok_at rest i "}}" then
    Some (i + 2, (depth - 1)%Z, current ++ Str.slice rest i (i + 2), parts)
  else if Ascii.eqb (Str.at_ rest i) "|" && (depth =? 0)%Z then
    Some (i + 1, depth, [], parts ++ [current])
  else Some (i + 1, depth, current ++ [Str.at_ rest i], parts).

Definition split_parts (rest : str) : list str :=
  match while (S (length rest)) (split_cond rest) (split_body rest)
              (0, 0%Z, [], []) with
  | Some (_, _, current, parts) =>
      match current with
      | [] => parts
      | _ => parts ++ [current]
      end
  | None => []
  end.

(** the [for part in parts] loop *)
Definition add_field (fields : list (str * str)) (part : str) : list (str * str) :=
  if negb (Str.contains part "=") then fields
  else
    let (key, value) := Str.split1 "=" part in
    let key := Str.strip key in
    let value := Str.strip value in
    match key with
    | [] => fields
    | _ => dict_set fields key value
    end.

(** the parameters of the template: the text after the template name,
    split at the pipes outside nested templates *)
Definition infobox_params (infobox_text : str) : list str :=
  match infobox_text with
  | [] => []
  | _ =>
      let inner := Str.strip infobox_text in
      let inner := if Str.startswith inner "{{" then skipn 2 inner else inner in
      let inner :=
        if Str.endswith inner "}}" then firstn (length inner - 2) inner
        else inner in
      let inner := Str.strip inner in
      if Str.contains inner "|" then
        let (_template_name, rest) := Str.split1 "|" inner in
        split_parts rest
      else []
  end.

Definition parse_infobox_fields (infobox_text : str) : list (str * str) :=
  fold_left add_field (infobox_params infobox_text) [].

Definition clean_infobox_value (value : str) : str := clean_wikitext value.

(** the [for k, v in fields.items()] loop *)
Fixpoint lookup_field (fields : list (str * str)) (target : str) : option str :=
  match fields with
  | [] => None
  | (k, v) :: fields' =>
      if Str.eqb (Str.lower (Str.strip k)) target
      then Some (clean_infobox_value v)
      else lookup_field fields' target
  end.

(** [extract_infobox_field_clean], from the wikitext of the page on *)
Definition extract_infobox_field_clean (wikitext field_name : str) : option str :=
  match extract_infobox_block wikitext "Infobox" with
  | None => None
  | Some ib =>
      let fields := parse_infobox_fields ib in
      let target := Str.lower (Str.strip field_name) in
      lookup_field fields target
  end.

(** ** The per-page decision of [parse_partition] *)

(** the four broadcast sets of normalised mentions *)
Record mention_sets : Type := MentionSets
  { bc_countries : gset str;
    bc_cities : gset str;
    bc_artists : gset str;
    bc_venues : gset str }.

Record Row : Type := MkRow
  { title : str; title_norm : str; page_text : str; entity_type : etype }.

Definition type_in (t : etype) (ts : list etype) : bool :=
  existsb (etype_eqb t) ts.

(** the four membership tests made for one title variant *)
Definition requested_for (sets : mention_sets) (variant : str) : list etype :=
  (if bool_decide (variant ∈ bc_countries sets) then [Country] else [])
  ++ (if bool_decide (variant ∈ bc_cities sets) then [City] else [])
  ++ (if bool_decide (variant ∈ bc_artists sets) then [Artist] else [])
  ++ (if bool_decide (variant ∈ bc_venues sets) then [Venue] else []).

(** [list(dict.fromkeys(xs))]: the first occurrence of each element *)
Definition fromkeys (xs : list etype) : list etype :=
  fold_left (fun acc x => if type_in x acc then acc else acc ++ [x]) xs [].

Definition requested_types (sets : mention_sets) (title_variants : list str)
  : list etype :=
  fromkeys (flat_map (requested_for sets) title_variants).

(** the fallback taken when [detect_page_type] returns [None] *)
Definition with_fallback (detected : option etype) (requested : list etype)
  : option etype :=
  match detected with
  | Some t => Some t
  | None =>
      if type_in City requested then Some City
      else if type_in Country requested then Some Country
      else None
  end.

(** The block run at the line that closes a page: the row it yields, if
    any.  [title] and [namespace] are [None] while no such line was seen. *)
Definition page_row (sets : mention_sets) (title : option str)
    (is_redirect : bool) (namespace : option nat) (page_text : str)
  : option Row :=
  match title, namespace with
  | Some ((_ :: _) as title), Some O =>
      if is_redirect then None
      else if Str.contains (Str.lower title) "(disambiguation)" then None
      else
        let title_variants := normalize_title_variants title in
        let requested := requested_types sets title_variants in
        match requested with
        | [] => None
        | _ :: _ =>
            match with_fallback (detect_page_type page_text) requested with
            | Some detected_type =>
                if type_in detected_type requested then
                  let title_norm :=
                    List.last title_variants (normalize_title title) in
                  Some (MkRow title title_norm page_text detected_type)
                else None
            | None => None
            end
        end
  | _, _ => None
  end.

(** [<title>(.*?)</title>] and [<ns>(\d+)</ns>] *)
Definition title_re : re :=
  seqs [lit "<title>"; Grp 1 (lazy_star (noneof nl)); lit "</title>"].
Definition ns_re : re :=
  seqs [lit "<ns>"; Grp 1 (plus Chr.is_digit); lit "</ns>"].

Record scan_state : Type := ScanState
  { in_page : bool;
    buffer : list str;
    cur_title : option str;
    is_redirect : bool;
    namespace : option nat }.

Definition scan_init : scan_state := ScanState false [] None false None.

(** one turn of [for line in lines_iter]: the next state and the row
    yielded, if any *)
Definition scan_line (sets : mention_sets) (st : scan_state) (line : str)
  : scan_state * option Row :=
  if Str.contains line "<page>" then
    (ScanState true [line] None false None, None)
  else if in_page st then
    let buffer := buffer st ++ [line] in
    let title :=
      if Str.contains line "<title>" && Str.contains line "</title>" then
        match search title_re line with
        | Some m => Some (m_group 1 m)
        | None => cur_title st
        end
      else cur_title st in
    let is_redirect := is_redirect st || Str.contains line "<redirect" in
    let namespace :=
      if Str.contains line "<ns>" && Str.contains line "</ns>" then
        match search ns_re line with
        | Some m => Some (Html.int_of 10 (m_group 1 m))
        | None => namespace st
        end
      else namespace st in
    if Str.contains line "</page>" then
      let page_text := concat buffer in
      let disambiguation :=
        match title, namespace with
        | Some ((_ :: _) as t), Some O =>
            negb is_redirect
            && Str.contains (Str.lower t) "(disambiguation)"
        | _, _ => false
        end in
      if disambiguation
      then (ScanState false [] None is_redirect namespace, None)
      else (scan_init, page_row sets title is_redirect namespace page_text)
    else (ScanState true buffer title is_redirect namespace, None)
  else (st, None).

Fixpoint parse_lines (sets : mention_sets) (st : scan_state)
    (lines : list str) : list Row :=
  match lines with
  | [] => []
  | line :: lines' =>
      let (st', row) := scan_line sets st line in
      match row with
      | Some r => r :: parse_lines sets st' lines'
      | None => parse_lines sets st' lines'
      end
  end.

Definition parse_partition (sets : mention_sets) (lines : list str) : list Row :=
  parse_lines sets scan_init lines.

(** * Further functions of the file *)

(** ** [split_venue_city_country]

    The argument is [None] where the source is handed [None]. *)
Definition split_venue_city_country (s : option str)
  : option str * option str * option str :=
  match s with
  | None | Some [] => (None, None, None)
  | Some s =>
      let parts := map Str.strip (Str.split "," s) in
      if 3 <=? length parts then
        (Some (nth 0 parts []), Some (nth (length parts - 2) parts []),
         Some (nth (length parts - 1) parts []))
      else if length parts =? 2 then
        (Some (nth 0 parts []), Some (nth 1 parts []), None)
      else (Some s, None, None)
  end.

(** ** [normalize_for_wiki], the helper of the join stage

    A value or a country that is [None] or empty is falsy in the source. *)
Definition normalize_for_wiki (value country : option str) : option str :=
  match value with
  | None | Some [] => None
  | Some value =>
      let value_upper := Str.upper (Str.strip value) in
      if Str.eqb value_upper "USA" then Some ("united states" : str)
      else
        let default := Some (Str.lower (Str.strip value)) in
        match country with
        | Some ((_ :: _) as country) =>
            if Str.eqb (Str.upper (Str.strip country)) "USA" then
              match dict_get US_STATE_CODES value_upper with
              | Some name => Some (Str.lower name)
              | None => default
              end
            else default
        | _ => default
        end
  end.

(** ** [extract_section_clean] and [process_wiki_page]

    [get_wikitext_from_page] reads the text element of the page with the
    XML parser of Python's standard library; it is a parameter here.  It
    raises on a page that is not well-formed XML and on a page without a
    text element, and the exception passes through every caller: a call
    that can raise returns an [exc]. *)

(** the outcome of a call that can raise *)
Inductive exc (A : Type) : Type :=
| Ok (a : A)
| Raised.

Arguments Ok {A} a.
Arguments Raised {A}.

Definition exc_bind {A B : Type} (m : exc A) (f : A -> exc B) : exc B :=
  match m with
  | Ok a => f a
  | Raised => Raised
  end.

Notation "x <- m ;; k" := (exc_bind m (fun x => k))
  (at level 100, m at next level, right associativity).

Record wiki_page : Type := WikiPage
  { wp_title : str;
    wp_title_norm : str;
    (** [None] stands for the type ["unknown"] *)
    wp_entity_type : option etype;
    wp_sections : list (str * str);
    wp_infobox_fields : list (str * str) }.

(** the section names read for the biography of a type *)
Definition bio_sections (t : etype) : list str :=
  match t with
  | Artist =>
      [ "History" : str; "Background" : str; "History and background" : str;
        "Career" : str; "Early life" : str; "Early life and career" : str;
        "Formation" : str; "Formation and early years" : str ]
  | Venue => [ "History" : str; "Background" : str; "Overview" : str ]
  | City => [ "History" : str; "Overview" : str; "Geography" : str ]
  | Country => [ "History" : str; "Overview" : str ]
  end.

(** the key under which the biography of a type is stored *)
Definition bio_key (t : etype) : str :=
  match t with
  | Artist => "artist_bio"
  | Venue => "venue_bio"
  | City => "city_bio"
  | Country => "country_bio"
  end.

(** the [infobox_fields] list of a type *)
Definition infobox_field_names (t : etype) : list str :=
  match t with
  | Artist =>
      [ "current_members" : str; "years_active" : str; "genre" : str;
        "origin" : str; "birth_name" : str; "website" : str ]
  | Venue => [ "capacity" : str; "location" : str; "opened" : str ]
  | City => [ "area" : str; "population" : str ]
  | Country => [ "capital" : str; "population" : str; "area" : str ]
  end.

Section WikiPage.

(** [None] where the parser raises *)
Variable get_wikitext_from_page : str -> option str.

Definition wikitext_of (page_xml : str) : exc str :=
  match get_wikitext_from_page page_xml with
  | Some wikitext => Ok wikitext
  | None => Raised
  end.

Definition extract_section_clean (page_xml section_name : str)
  : exc (option str) :=
  wikitext <- wikitext_of page_xml ;;
  match find_section_block wikitext section_name with
  | None => Ok None
  | Some raw => Ok (Some (clean_wikitext raw))
  end.

(** [extract_infobox_field_clean] of the source, which starts from the
    page as well *)
Definition extract_infobox_field_of_page (page_xml field_name : str)
  : exc (option str) :=
  wikitext <- wikitext_of page_xml ;;
  Ok (extract_infobox_field_clean wikitext field_name).

(** the texts of a loop [for name in ...: txt = f(page, name);
    if txt: parts.append(txt)] *)
Fixpoint found_texts (f : str -> exc (option str)) (names : list str)
  : exc (list str) :=
  match names with
  | [] => Ok []
  | name :: names' =>
      txt <- f name ;;
      parts <- found_texts f names' ;;
      match txt with
      | Some ((_ :: _) as txt) => Ok (txt :: parts)
      | _ => Ok parts
      end
  end.

(** the sections stored for a type *)
Definition sections_of (page_text : str) (t : etype)
  : exc (list (str * str)) :=
  bio_parts <- found_texts (extract_section_clean page_text) (bio_sections t) ;;
  let sections :=
    match Str.join (nl ++ nl) bio_parts with
    | [] => []
    | bio => dict_set [] (bio_key t) bio
    end in
  match t with
  | Artist =>
      discography <- extract_section_clean page_text "Discography" ;;
      match discography with
      | Some ((_ :: _) as discography) =>
          Ok (dict_set sections "discography" discography)
      | _ => Ok sections
      end
  | _ => Ok sections
  end.

(** the [for field in infobox_fields] loop *)
Fixpoint fields_loop (page_text : str) (names : list str)
    (fields : list (str * str)) : exc (list (str * str)) :=
  match names with
  | [] => Ok fields
  | field :: names' =>
      value <- extract_infobox_field_of_page page_text field ;;
      fields_loop page_text names'
        match value with
        | Some ((_ :: _) as value) => dict_set fields field value
        | _ => fields
        end
  end.

Definition fields_of (page_text : str) (t : etype) : exc (list (str * str)) :=
  fields_loop page_text (infobox_field_names t) [].

Definition process_wiki_page (row : Row) : exc wiki_page :=
  let title := title row in
  let page_text := page_text row in
  let entity_type := entity_type row in
  let unknown :=
    WikiPage title (Str.strip (Str.lower title)) None [] [] in
  if Str.contains (Str.lower page_text) "may refer to"
     || Str.contains (Str.lower page_text) "{{disambiguation"
  then Ok unknown
  else if Str.startswith (Str.lower page_text) "#redirect" then Ok unknown
  else
    sections <- sections_of page_text entity_type ;;
    fields <- fields_of page_text entity_type ;;
    Ok (WikiPage title (Str.strip (Str.lower title)) (Some entity_type)
          sections fields).

End WikiPage.

(** ** [extract_artist_and_venue]

    The five patterns of the function, in the order of the source.  In the
    comments Q stands for the double quote of the pattern. *)

Definition dq : str := ["034"%char].

(** [<div class=QsetlistHeadlineQ>.*?<span><a href=Q[^Q]*setlists/[^Q]+\.htmlQ[^>]*><span>([^<]+)</span></a></span>\s*Setlist] *)
Definition artist_re : re :=
  seqs [lit ("<div class=" ++ dq ++ "setlistHeadline" ++ dq ++ ">");
        lazy_star (noneof nl);
        lit ("<span><a href=" ++ dq); star (noneof dq); lit "setlists/";
        plus (noneof dq); lit (".html" ++ dq); star (noneof ">");
        lit "><span>"; Grp 1 (plus (noneof "<")); lit "</span></a></span>";
        star Chr.is_space; lit "Setlist"].

(** [<span>at\s+<span><a href=Q[^Q]*venue/[^Q]+\.htmlQ[^>]*><span>([^<]+)</span></a></span></span>] *)
Definition venue_re : re :=
  seqs [lit "<span>at"; plus Chr.is_space;
        lit ("<span><a href=" ++ dq); star (noneof dq); lit "venue/";
        plus (noneof dq); lit (".html" ++ dq); star (noneof ">");
        lit "><span>"; Grp 1 (plus (noneof "<"));
        lit "</span></a></span></span>"].

(** [<span class=QmonthQ>([^<]+)</span>\s*<span class=QdayQ>([^<]+)</span>\s*<span class=QyearQ>([^<]+)</span>] *)
Definition date_re : re :=
  seqs [lit ("<span class=" ++ dq ++ "month" ++ dq ++ ">");
        Grp 1 (plus (noneof "<")); lit "</span>"; star Chr.is_space;
        lit ("<span class=" ++ dq ++ "day" ++ dq ++ ">");
        Grp 2 (plus (noneof "<")); lit "</span>"; star Chr.is_space;
        lit ("<span class=" ++ dq ++ "year" ++ dq ++ ">");
        Grp 3 (plus (noneof "<")); lit "</span>"].

(** [<span>Tour:</span>\s*<span><a href=Q[^Q]*Q[^>]*><span>([^<]+)</span></a></span>] *)
Definition tour_re : re :=
  seqs [lit "<span>Tour:</span>"; star Chr.is_space;
        lit ("<span><a href=" ++ dq); star (noneof dq); lit dq;
        star (noneof ">"); lit "><span>"; Grp 1 (plus (noneof "<"));
        lit "</span></a></span>"].

(** [<a class=QsongLabelQ href=Q[^Q]*Q[^>]*>([^<]+)</a>] *)
Definition song_re : re :=
  seqs [lit ("<a class=" ++ dq ++ "songLabel" ++ dq ++ " href=" ++ dq);
        star (noneof dq); lit dq; star (noneof ">"); lit ">";
        Grp 1 (plus (noneof "<")); lit "</a>"].

(** the dict that the function returns *)
Record setlist : Type := Setlist
  { sl_url : option str;
    sl_artist : option str;
    sl_date : option str;
    sl_tour : option str;
    sl_venue : option str;
    sl_city : option str;
    sl_country : option str;
    sl_songs_count : nat;
    sl_songs : list str }.

(** [html.unescape(m.group(1).strip()) if m else None] *)
Definition unescaped_group (r : re) (s : str) : option str :=
  match search r s with
  | Some m => Some (Html.unescape (Str.strip (m_group 1 m)))
  | None => None
  end.

Definition extract_artist_and_venue (html_content : str) (url : option str)
  : setlist :=
  let html_clean := Str.replace nl " " html_content in
  let artist := unescaped_group artist_re html_clean in
  let venue_full := unescaped_group venue_re html_clean in
  let '(venue, city, country) := split_venue_city_country venue_full in
  let date :=
    match search date_re html_clean with
    | Some m =>
        let month := Str.strip (m_group 1 m) in
        let day := Str.strip (m_group 2 m) in
        let year := Str.strip (m_group 3 m) in
        Some (month ++ " " ++ day ++ ", " ++ year)
    | None => None
    end in
  let tour := unescaped_group tour_re html_clean in
  let songs :=
    map (fun m => Html.unescape (Str.strip (m_group 1 m)))
      (finditer song_re html_clean) in
  Setlist url artist date tour venue city country (length songs) songs.

(** * Vocabulary of the statements *)

(** ** Of the classifier *)

(** the patterns of a type *)
Definition patterns_of (t : etype) : list re :=
  match t with
  | Country => country_patterns
  | City => city_patterns
  | Venue => venue_patterns
  | Artist => artist_patterns
  end.

(** the score of a type: its entry in the [scores] dict *)
Definition score (page_text : str) (t : etype) : nat :=
  scores_get (scores page_text) t.

(** the place of a type in the insertion order of [scores] *)
Definition rank (t : etype) : nat :=
  match t with Country => 0 | City => 1 | Venue => 2 | Artist => 3 end.

(** [detect_page_type] as a function of the four scores *)
Definition pick (a b c d : nat) : option etype :=
  let m1 := if a <? b then b else a in
  let m2 := if m1 <? c then c else m1 in
  let m3 := if m2 <? d then d else m2 in
  if 0 <? m3 then
    let k1 := if a <? b then City else Country in
    let v1 := if a <? b then b else a in
    let k2 := if v1 <? c then Venue else k1 in
    let v2 := if v1 <? c then c else v1 in
    Some (if v2 <? d then Artist else k2)
  else None.

(** ** Of the normalisers and the page decision *)

(** the keys of [US_STATE_CODES] are two capital letters *)
Definition state_code_shape (k : str) : bool :=
  match k with
  | [a; b] => Chr.is_upper a && Chr.is_upper b
  | _ => false
  end.

(** the mention set of a category *)
Definition mentions (sets : mention_sets) (t : etype) : gset str :=
  match t with
  | Country => bc_countries sets
  | City => bc_cities sets
  | Venue => bc_venues sets
  | Artist => bc_artists sets
  end.

(** ** The texts of the examples *)

Definition sticky_title : str := "Sticky Fingers (band)".

(** the markup of the heading-boundary example *)
Definition outline : str :=
  "==A==" ++ nl ++ "text1" ++ nl ++ "===B===" ++ nl ++ "text2" ++ nl
  ++ "==C==" ++ nl ++ "text3".

Definition nested_table : str :=
  "before{|" ++ nl ++ "row{|" ++ nl ++ "inner|}" ++ nl ++ "|}after".

Definition nested_template : str := "x {{a|{{b|c}}|d}} y".

(** ** Of the infobox and of texts where a pattern finds nothing *)

(** what a parameter contributes: its name and its value, both trimmed *)
Definition field_of (part : str) : str * str :=
  (Str.strip (fst (Str.split1 "=" part)), Str.strip (snd (Str.split1 "=" part))).

Definition band_infobox : str := "{{Infobox band|name=Foo|genre=Rock|origin=USA}}".
Definition mixed_case_infobox : str := "{{Infobox band|Name=[[Foo]]}}".

(** every character of the class [cls] is in [P] *)
Definition class_within (cls P : ascii -> bool) : bool :=
  forallb (fun c => implb (cls c) (P c)) Chr.all.

(** every match of [r] takes at least one character of [P] *)
Fixpoint needs (P : ascii -> bool) (r : re) : bool :=
  match r with
  | One cls => class_within cls P
  | Rep cls lo _ _ => (0 <? lo) && class_within cls P
  | Seq r1 r2 => needs P r1 || needs P r2
  | Alt r1 r2 => needs P r1 && needs P r2
  | Grp _ r1 => needs P r1
  | _ => false
  end.

(** [s] is what is left of [rest] after some characters *)
Definition suffix_of (s rest : str) : Prop := exists l, rest = l ++ s.

(** a text free of [P] *)
Definition free_of (P : ascii -> bool) (s : str) : Prop :=
  Forall (fun c => P c = false) s.

(** the length of the run of [cls] that a text starts with *)
Fixpoint run_len (cls : ascii -> bool) (s : str) : nat :=
  match s with
  | c :: t => if cls c then S (run_len cls t) else 0
  | [] => 0
  end.

(** whether a text starts in the class *)
Definition hd_in (cls : ascii -> bool) (s : str) : bool :=
  match s with c :: _ => cls c | [] => false end.

(** whether a text ends in the class *)
Fixpoint last_in (cls : ascii -> bool) (s : str) : bool :=
  match s with
  | [] => false
  | [c] => cls c
  | _ :: t => last_in cls t
  end.

(** no two neighbours both in the class *)
Definition no_adj (cls : ascii -> bool) (s : str) : Prop :=
  forall l1 a b l2, s = l1 ++ a :: b :: l2 -> cls a && cls b = false.

(** a normalised text: no capital letter, no whitespace at either end, and
    no whitespace but single spaces inside *)
Definition normalised (s : str) : Prop :=
  Forall (fun c => Chr.is_upper c = false) s
  /\ hd_in Chr.is_space s = false
  /\ last_in Chr.is_space s = false
  /\ no_adj Chr.is_space s
  /\ Forall (fun c => Chr.is_space c = true -> c = " "%char) s.







(** ** Of the further properties *)

(** the parameter [part] sets the field [key]: it holds an equals sign and
    its name, trimmed, is the non-empty [key] *)
Definition names (part key : str) : bool :=
  Str.contains part "="
  && match fst (field_of part) with
     | [] => false
     | k => Str.eqb k key
     end.

(** the state of the line scan after some lines *)
Definition scan_state_after (sets : mention_sets) (st : scan_state)
    (lines : list str) : scan_state :=
  fold_left (fun st line => fst (scan_line sets st line)) lines st.

(** a text with line breaks put in *)
Inductive adds_newlines : str -> str -> Prop :=
| adds_nil : adds_newlines [] []
| adds_keep (c : ascii) (s t : str) :
    adds_newlines s t -> adds_newlines (c :: s) (c :: t)
| adds_break (s t : str) :
    adds_newlines s t -> adds_newlines s (NL :: t).

(** the characters of a text that are not whitespace *)
Definition nonspace (s : str) : str :=
  filter (fun c => negb (Chr.is_space c)) s.

(** the characters that [find_section_block] trims off a heading title *)
Definition title_edge (c : ascii) : bool :=
  Chr.is_space c || Str.mem c (" '" ++ ["034"%char]).

(** a page with one heading of level two on a line of its own *)
Definition one_section (intro name body : str) : str :=
  intro ++ nl ++ "==" ++ name ++ "==" ++ nl ++ body.

(** the state of the line scan holds the lines of the page that is open *)
Definition buffer_of (processed : list str) (st : scan_state) : Prop :=
  in_page st = true ->
  exists before first middle,
    processed = before ++ first :: middle
    /\ Str.contains first "<page>" = true
    /\ Forall (fun l => Str.contains l "<page>" = false
                        /\ Str.contains l "</page>" = false) middle
    /\ buffer st = first :: middle.

(** the cleaned text of a section, where it is found and not empty *)
Definition cleaned_section (wikitext section_name : str) : option str :=
  match find_section_block wikitext section_name with
  | Some raw =>
      match clean_wikitext raw with
      | [] => None
      | txt => Some txt
      end
  | None => None
  end.

(** the cleaned value of an infobox field, where it is found and not
    empty *)
Definition cleaned_field (wikitext field_name : str) : option str :=
  match extract_infobox_field_clean wikitext field_name with
  | Some ((_ :: _) as value) => Some value
  | _ => None
  end.

(** one turn of the loop over the infobox fields on a page that parses *)
Definition store_field (wikitext : str) (fields : list (str * str))
    (field : str) : list (str * str) :=
  match cleaned_field wikitext field with
  | Some value => dict_set fields field value
  | None => fields
  end.

(** the record of a page that is a disambiguation page or a redirect *)
Definition unknown_page (row : Row) : wiki_page :=
  WikiPage (title row) (Str.strip (Str.lower (title row))) None [] [].

(** * Properties *)

(** ** Basic facts about the primitives *)

Lemma str_eqb_eq (a b : str) : Str.eqb a b = true <-> a = b.
Proof.
  revert b; induction a as [|x a IH]; intros [|y b]; simpl; split;
    try congruence; try reflexivity.
  - intros H. apply andb_prop in H as [Hx Hab].
    apply Ascii.eqb_eq in Hx. apply IH in Hab. congruence.
  - intros H. injection H as -> ->.
    rewrite Ascii.eqb_refl. simpl. now apply IH.
Qed.

Lemma str_eqb_refl (a : str) : Str.eqb a a = true.
Proof. now apply str_eqb_eq. Qed.

Lemma str_eqb_neq (a b : str) : Str.eqb a b = false <-> a <> b.
Proof.
  split.
  - intros H E. apply str_eqb_eq in E. congruence.
  - intros H. destruct (Str.eqb a b) eqn:E; [|reflexivity].
    apply str_eqb_eq in E. contradiction.
Qed.

Lemma etype_eqb_eq (a b : etype) : etype_eqb a b = true <-> a = b.
Proof. destruct a, b; simpl; split; congruence. Qed.

Lemma type_in_In (t : etype) (ts : list etype) : type_in t ts = true <-> In t ts.
Proof.
  unfold type_in. rewrite existsb_exists. split.
  - intros (x & Hx & E). apply etype_eqb_eq in E. now subst.
  - intros H. exists t. split; [assumption | now apply etype_eqb_eq].
Qed.

(** ** The classifier *)

Lemma tally_from (ps : list re) (text : str) (n : nat) :
  fold_left (fun n p => if found p text then n + 1 else n) ps n
  = n + length (filter (fun p => found p text) ps).
Proof.
  revert n; induction ps as [|p ps IH]; intros n; simpl; [lia|].
  rewrite IH. destruct (found p text); simpl; lia.
Qed.

Lemma tally_count (ps : list re) (text : str) :
  tally ps text = length (filter (fun p => found p text) ps).
Proof. unfold tally. now rewrite tally_from. Qed.

Lemma score_count (text : str) (t : etype) :
  score text t = length (filter (fun p => found p text) (patterns_of t)).
Proof. destruct t; unfold score, scores; simpl; apply tally_count. Qed.

Lemma count_zero {A} (f : A -> bool) (l : list A) :
  length (filter f l) = 0 <-> forall x, In x l -> f x = false.
Proof.
  induction l as [|a l IH]; simpl.
  - split; [intros _ x [] | reflexivity].
  - destruct (f a) eqn:E; simpl; split.
    + discriminate.
    + intros H. specialize (H a (or_introl eq_refl)). congruence.
    + intros H x [<-|Hx]; [assumption | now apply IH].
    + intros H. apply IH. intros x Hx. apply H. now right.
Qed.

Lemma detect_page_type_pick (text : str) :
  detect_page_type text
  = pick (score text Country) (score text City) (score text Venue)
         (score text Artist).
Proof.
  unfold detect_page_type, pick, score, scores, max_by. simpl.
  set (a := tally country_patterns text).
  set (b := tally city_patterns text).
  set (c := tally venue_patterns text).
  set (d := tally artist_patterns text).
  destruct (a <? b) eqn:Hab; simpl; rewrite ?Hab; simpl.
  - destruct (b <? c) eqn:Hbc; simpl; rewrite ?Hbc; simpl;
      destruct (_ <? d) eqn:Hd; simpl; rewrite ?Hd; reflexivity.
  - destruct (a <? c) eqn:Hac; simpl; rewrite ?Hac; simpl;
      destruct (_ <? d) eqn:Hd; simpl; rewrite ?Hd; reflexivity.
Qed.

Ltac ltb_cases :=
  repeat match goal with
  | |- context [?x <? ?y] =>
      let H := fresh "H" in
      destruct (x <? y) eqn:H;
      [apply Nat.ltb_lt in H | apply Nat.ltb_ge in H]
  | H : context [?x <? ?y] |- _ =>
      let H' := fresh "H" in
      destruct (x <? y) eqn:H';
      [apply Nat.ltb_lt in H' | apply Nat.ltb_ge in H']
  end.

(** what [pick] returns, with ties going to the earlier type *)
Lemma pick_spec (f : etype -> nat) (t : etype) :
  pick (f Country) (f City) (f Venue) (f Artist) = Some t
  <-> 0 < f t
      /\ (forall t', f t' <= f t)
      /\ (forall t', rank t' < rank t -> f t' < f t).
Proof.
  unfold pick. split.
  - intros H. ltb_cases; inversion H; subst;
      (split; [lia | split; intros t'; destruct t'; simpl; lia]).
  - intros (Hpos & Hmax & Hfirst).
    pose proof (Hmax Country). pose proof (Hmax City).
    pose proof (Hmax Venue). pose proof (Hmax Artist).
    pose proof (Hfirst Country). pose proof (Hfirst City).
    pose proof (Hfirst Venue). pose proof (Hfirst Artist).
    destruct t; simpl in *; ltb_cases; try reflexivity; exfalso; lia.
Qed.

Lemma pick_none (a b c d : nat) :
  pick a b c d = None <-> a = 0 /\ b = 0 /\ c = 0 /\ d = 0.
Proof.
  unfold pick. split.
  - intros H. ltb_cases; try discriminate; lia.
  - intros (-> & -> & -> & ->). reflexivity.
Qed.

Lemma tally_permutation (text : str) (ps ps' : list re) :
  Permutation ps ps' -> tally ps text = tally ps' text.
Proof.
  rewrite !tally_count.
  induction 1 as [|p l l' _ IH|p q l|l l' l'' _ IH1 _ IH2]; simpl.
  - reflexivity.
  - destruct (found p text); simpl; congruence.
  - destruct (found p text), (found q text); reflexivity.
  - congruence.
Qed.

Lemma scores_all_zero (text : str) :
  (forall t, score text t = 0)
  <-> (forall t p, In p (patterns_of t) -> found p text = false).
Proof.
  split.
  - intros H t. apply count_zero. rewrite <- score_count. apply H.
  - intros H t. rewrite score_count. apply count_zero. apply H.
Qed.

(** C8: every pattern that matches adds one point to the score of its type,
    whatever the order of the patterns; [detect_page_type] returns a type
    whose score is positive and greatest, it returns the type whose score
    is strictly greater than every other score when there is one, and it
    returns [None] exactly when every score is zero, that is, when no
    pattern of any type matches the page text. *)
Theorem classify_greatest_score (text : str) :
  (forall t, score text t
             = length (filter (fun p => found p text) (patterns_of t)))
  /\ (forall ps ps', Permutation ps ps' -> tally ps text = tally ps' text)
  /\ (forall t, (forall t', t' <> t -> score text t' < score text t) ->
                detect_page_type text = Some t)
  /\ (forall t, detect_page_type text = Some t ->
                0 < score text t /\ forall t', score text t' <= score text t)
  /\ (detect_page_type text = None <-> forall t, score text t = 0)
  /\ ((forall t, score text t = 0)
      <-> forall t p, In p (patterns_of t) -> found p text = false).
Proof.
  split; [apply score_count|].
  split; [apply tally_permutation|].
  rewrite detect_page_type_pick.
  split; [|split; [|split; [|apply scores_all_zero]]].
  - intros t Hgt. apply (pick_spec (score text)).
    assert (Hpos : 0 < score text t).
    { destruct t;
        [ pose proof (Hgt City ltac:(discriminate))
        | pose proof (Hgt Country ltac:(discriminate))
        | pose proof (Hgt Country ltac:(discriminate))
        | pose proof (Hgt Country ltac:(discriminate)) ]; lia. }
    split; [exact Hpos|]. split.
    + intros t'. destruct (etype_eqb t' t) eqn:E.
      * apply etype_eqb_eq in E. subst. lia.
      * assert (t' <> t) as Hne
          by (intros ->; destruct t; discriminate).
        specialize (Hgt t' Hne). lia.
    + intros t' Hr. apply Hgt. intros ->. lia.
  - intros t H. apply (pick_spec (score text)) in H. tauto.
  - rewrite pick_none. split.
    + intros (? & ? & ? & ?) t. destruct t; assumption.
    + intros H. repeat split; apply H.
Qed.

(** at a page with two artist signals and no other *)
Lemma classify_greatest_score_witness :
  detect_page_type "[[Category:Rock bands]]" = Some Artist.
Proof.
  apply (proj1 (proj2 (proj2 (classify_greatest_score _)))).
  intros t' Hne. destruct t'; try congruence; vm_compute; lia.
Defined.

(** C10: [detect_page_type] returns the type [t] exactly when the score of
    [t] is positive and greatest and every type before [t] in the order
    country, city, venue, artist has a strictly smaller score, so among
    tied types the first in that order wins; and two page texts on which
    the same patterns match are classified alike. *)
Theorem classify_tie_break (text : str) :
  (forall t, detect_page_type text = Some t
             <-> 0 < score text t
                 /\ (forall t', score text t' <= score text t)
                 /\ (forall t', rank t' < rank t ->
                                score text t' < score text t))
  /\ (forall text',
        (forall t p, In p (patterns_of t) -> found p text = found p text') ->
        detect_page_type text = detect_page_type text').
Proof.
  split.
  - intros t. rewrite detect_page_type_pick. apply (pick_spec (score text)).
  - intros text' H. rewrite !detect_page_type_pick.
    assert (E : forall t, score text t = score text' t).
    { intros t. rewrite !score_count. specialize (H t).
      induction (patterns_of t) as [|p ps IH]; simpl; [reflexivity|].
      rewrite (H p (or_introl eq_refl)).
      destruct (found p text'); simpl; rewrite IH; auto;
        intros q Hq; apply H; now right. }
    now rewrite !E.
Qed.

(** a country signal and a city signal tie at one point each *)
Lemma classify_tie_break_witness :
  detect_page_type "[[Category:Countries]] [[Category:Cities]]" = Some Country.
Proof.
  apply (proj1 (classify_tie_break _)).
  split; [vm_compute; lia|]. split.
  - intros t'; destruct t'; vm_compute; lia.
  - intros t'; destruct t'; simpl; intros Hr; try lia.
Defined.

(** ** The per-page decision *)

Lemma fromkeys_from (xs acc : list etype) (t : etype) :
  In t (fold_left (fun acc x => if type_in x acc then acc else acc ++ [x])
                  xs acc)
  <-> In t acc \/ In t xs.
Proof.
  revert acc; induction xs as [|x xs IH]; intros acc; simpl; [tauto|].
  rewrite IH. destruct (type_in x acc) eqn:E.
  - apply type_in_In in E. split; [tauto|].
    intros [H|[<-|H]]; tauto.
  - rewrite in_app_iff. simpl. tauto.
Qed.

Lemma fromkeys_In (xs : list etype) (t : etype) :
  In t (fromkeys xs) <-> In t xs.
Proof. unfold fromkeys. rewrite fromkeys_from. simpl. tauto. Qed.

Lemma requested_for_In (sets : mention_sets) (variant : str) (t : etype) :
  In t (requested_for sets variant) <-> variant ∈ mentions sets t.
Proof.
  unfold requested_for. rewrite !in_app_iff.
  repeat case_bool_decide; destruct t; simpl;
    intuition (try discriminate; auto).
Qed.

(** a type is requested when its mention set holds a variant of the title *)
Lemma requested_types_In (sets : mention_sets) (variants : list str) (t : etype) :
  In t (requested_types sets variants)
  <-> exists v, In v variants /\ v ∈ mentions sets t.
Proof.
  unfold requested_types. rewrite fromkeys_In, in_flat_map.
  split; intros (v & Hv & H); exists v; split; try assumption;
    now apply requested_for_In.
Qed.

(** a page text on which an artist pattern matches and no pattern of
    another type is classified as artist *)
Lemma detect_artist_signal (text : str) :
  (exists p, In p artist_patterns /\ found p text = true) ->
  (forall t p, t <> Artist -> In p (patterns_of t) -> found p text = false) ->
  detect_page_type text = Some Artist.
Proof.
  intros (p & Hp & Hfound) Hothers.
  rewrite detect_page_type_pick. apply (pick_spec (score text)).
  assert (Hpos : 0 < score text Artist).
  { rewrite score_count.
    assert (Hin : In p (filter (fun q => found q text) (patterns_of Artist)))
      by (apply filter_In; now split).
    destruct (filter _ _); [destruct Hin | simpl; lia]. }
  assert (Hzero : forall t, t <> Artist -> score text t = 0).
  { intros t Ht. rewrite score_count. apply count_zero.
    intros q Hq. now apply (Hothers t). }
  split; [exact Hpos|]. split.
  - intros t'. destruct t'; try (rewrite Hzero by discriminate; lia). lia.
  - intros t' Hr. destruct t'; try (rewrite Hzero by discriminate; lia).
    simpl in Hr. lia.
Qed.

Lemma sticky_variants :
  normalize_title_variants sticky_title
  = ["sticky fingers (band)" : str; "sticky fingers" : str].
Proof. vm_compute. reflexivity. Qed.

(** the classifier says artist exactly when the artist patterns that
    match outnumber the matching patterns of every other type *)
Lemma detect_artist_scores (text : str) :
  detect_page_type text = Some Artist
  <-> 0 < score text Artist
      /\ forall t, t <> Artist -> score text t < score text Artist.
Proof.
  rewrite detect_page_type_pick, (pick_spec (score text)). split.
  - intros (Hpos & _ & Hfirst). split; [exact Hpos|].
    intros t Ht. apply Hfirst. destruct t; cbn; try lia. congruence.
  - intros [Hpos Hothers]. split; [exact Hpos|]. split.
    + intros t'. destruct t'; try (apply Nat.lt_le_incl, Hothers; discriminate).
      lia.
    + intros t' Hr. apply Hothers. intros ->. cbn in Hr. lia.
Qed.

(** C1 as stated fails: the page titled "Sticky Fingers (band)" whose body
    holds an artist category and a city category is classified as city,
    which is not requested, and is rejected, although "sticky fingers" is
    an artist mention and the body holds an artist-category signal. *)
Lemma page_row_rejects_mixed_signals :
  let sets := MentionSets ∅ ∅ {[ "sticky fingers" : str ]} ∅ in
  let body : str := "[[Category:Bands]] [[Category:Cities]]" in
  (exists p, In p artist_patterns /\ found p body = true)
  /\ detect_page_type body = Some City
  /\ page_row sets (Some sticky_title) false (Some 0) body = None
  /\ parse_partition sets
       ["<page>" : str; "<title>Sticky Fingers (band)</title>" : str;
        "<ns>0</ns>" : str;
        "<text>[[Category:Bands]] [[Category:Cities]]</text>" : str;
        "</page>" : str]
     = [].
Proof.
  cbn zeta. split.
  - eexists. split; [left; reflexivity | vm_compute; reflexivity].
  - repeat split; vm_compute; reflexivity.
Qed.

(** C1, amended: a page that [page_row] accepts has a non-redirect title
    in namespace 0, and its entity type, which is the detected type or
    else the geography fallback, is one of the requested types, that is,
    a type whose mention set holds a variant of the title; the page titled
    "Sticky Fingers (band)" is accepted as artist, when "sticky fingers"
    is an artist mention, exactly when its text is classified as artist,
    which is when the artist patterns that match outnumber the matching
    patterns of every other type; the row then has the entity type artist
    and the last title variant "sticky fingers" as its normalised
    title. *)
Theorem page_row_accepts (sets : mention_sets) :
  (forall ttl redirect ns text row,
     page_row sets ttl redirect ns text = Some row ->
     let variants := normalize_title_variants (title row) in
     let requested := requested_types sets variants in
     ttl = Some (title row) /\ redirect = false /\ ns = Some 0
     /\ page_text row = text
     /\ with_fallback (detect_page_type text) requested
        = Some (entity_type row)
     /\ In (entity_type row) requested
     /\ (exists v, In v variants /\ v ∈ mentions sets (entity_type row))
     /\ title_norm row = List.last variants (normalize_title (title row)))
  /\ (forall text,
        ("sticky fingers" : str) ∈ bc_artists sets ->
        (page_row sets (Some sticky_title) false (Some 0) text
         = Some (MkRow sticky_title "sticky fingers" text Artist)
         <-> detect_page_type text = Some Artist)
        /\ (forall row,
              page_row sets (Some sticky_title) false (Some 0) text
              = Some row ->
              entity_type row = Artist ->
              row = MkRow sticky_title "sticky fingers" text Artist))
  /\ (forall text,
        detect_page_type text = Some Artist
        <-> 0 < score text Artist
            /\ forall t, t <> Artist -> score text t < score text Artist).
Proof.
  assert (Hsticky : forall text,
            ("sticky fingers" : str) ∈ bc_artists sets ->
            detect_page_type text = Some Artist ->
            page_row sets (Some sticky_title) false (Some 0) text
            = Some (MkRow sticky_title "sticky fingers" text Artist)).
  { intros text Hartist Hdetect.
    assert (Hin : In Artist (requested_types sets
                               (normalize_title_variants sticky_title))).
    { apply requested_types_In. exists ("sticky fingers" : str).
      rewrite sticky_variants. split; [right; left; reflexivity | exact Hartist]. }
    unfold page_row.
    change (Str.contains (Str.lower sticky_title) "(disambiguation)") with false.
    cbv iota beta.
    destruct (requested_types sets (normalize_title_variants sticky_title))
      as [|r rs] eqn:Hreq; [destruct Hin|].
    rewrite Hdetect. cbn [with_fallback].
    apply type_in_In in Hin. rewrite Hin.
    rewrite sticky_variants. reflexivity. }
  assert (Hrow : forall ttl redirect ns text row,
            page_row sets ttl redirect ns text = Some row ->
            ttl = Some (title row) /\ redirect = false /\ ns = Some 0
            /\ page_text row = text
            /\ with_fallback (detect_page_type text)
                 (requested_types sets (normalize_title_variants (title row)))
               = Some (entity_type row)
            /\ In (entity_type row)
                 (requested_types sets (normalize_title_variants (title row)))
            /\ (exists v, In v (normalize_title_variants (title row))
                          /\ v ∈ mentions sets (entity_type row))
            /\ title_norm row
               = List.last (normalize_title_variants (title row))
                   (normalize_title (title row))).
  { intros ttl redirect ns text row H. unfold page_row in H.
    destruct ttl as [[|c t]|]; try discriminate.
    destruct ns as [[|n]|]; try discriminate.
    destruct redirect; try discriminate.
    destruct (Str.contains _ _); try discriminate.
    destruct (requested_types sets (normalize_title_variants (c :: t)))
      as [|r rs] eqn:Hreq; try discriminate.
    destruct (with_fallback _ _) as [d|] eqn:Hd; try discriminate.
    destruct (type_in d (r :: rs)) eqn:Hin; try discriminate.
    injection H as <-. simpl. rewrite Hreq.
    apply type_in_In in Hin.
    repeat split; try assumption.
    apply (requested_types_In sets). now rewrite Hreq. }
  assert (Hartist : forall text row,
            page_row sets (Some sticky_title) false (Some 0) text = Some row ->
            entity_type row = Artist ->
            detect_page_type text = Some Artist
            /\ row = MkRow sticky_title "sticky fingers" text Artist).
  { intros text row H Ht.
    destruct (Hrow _ _ _ _ _ H) as (Httl & _ & _ & Htext & Hfb & _ & _ & Hnorm).
    injection Httl as Httl. rewrite <- Httl, sticky_variants in Hnorm.
    cbn [List.last] in Hnorm. rewrite Ht in Hfb.
    assert (Hd : detect_page_type text = Some Artist).
    { destruct (detect_page_type text) as [d|]; [exact Hfb|].
      cbn [with_fallback] in Hfb.
      destruct (type_in City _); [discriminate|].
      destruct (type_in Country _); discriminate. }
    split; [exact Hd|]. destruct row as [ttl nrm txt ty]. cbn in *. congruence. }
  split; [exact Hrow|]. split; [|exact detect_artist_scores].
  intros text Hmention. split.
  - split; [|now apply Hsticky].
    intros H. now apply (Hartist text _ H).
  - intros row H Ht. now apply (Hartist text row H).
Qed.

(** the page of the band, with only the artist mention known *)
Lemma page_row_accepts_witness :
  page_row (MentionSets ∅ ∅ {[ "sticky fingers" : str ]} ∅)
    (Some sticky_title) false (Some 0) "[[Category:Australian rock bands]]"
  = Some (MkRow sticky_title "sticky fingers"
            "[[Category:Australian rock bands]]" Artist).
Proof.
  apply (proj1 (proj2 (page_row_accepts _))).
  - vm_compute. reflexivity.
  - vm_compute. reflexivity.
Defined.

(** ** Sections *)

(** C2, at the heading-boundary example: [normalize_headings] finds its
    pattern inside the level-3 heading, from its second [=] on, and puts a
    line break there; the rest of that heading then reads as a level-2
    heading and ends section A, so [find_section_block] returns "text1"
    followed by a line holding a single [=], not the text up to heading C. *)
Theorem find_section_block_outline :
  normalize_headings outline
  = nl ++ "==A==" ++ nl ++ "text1" ++ nl ++ "=" ++ nl ++ "==B===" ++ nl
    ++ "text2" ++ nl ++ "==C==" ++ nl ++ "text3"
  /\ find_section_block outline "A" = Some ("text1" ++ nl ++ "=")
  /\ find_section_block outline "A"
     <> Some ("text1" ++ nl ++ "===B===" ++ nl ++ "text2").
Proof.
  split; [|split]; [vm_compute; reflexivity | vm_compute; reflexivity |].
  vm_compute. discriminate.
Qed.

(** ** The cleaner on the examples *)

(** C3, at a table that is never closed: the balanced example is cleaned
    to "beforeafter", but on the text made of the table opener and one
    more character the inner loop of [remove_tables] stops one position
    short of the end, and the outer loop copies that last character, which
    [remove_templates] avoids by stepping once more. *)
Theorem remove_tables_unclosed :
  clean_wikitext nested_table = "beforeafter"
  /\ remove_tables "{|a" = "a"
  /\ clean_wikitext "{|a" = "a"
  /\ remove_tables "a{|bc" = "ac"
  /\ remove_templates "{{a" = []
  /\ remove_templates "a{{bc" = "a".
Proof. repeat split; vm_compute; reflexivity. Qed.

(** C4 as stated fails: the cleaned text has one space, not two. *)
Lemma clean_nested_template_not_two_spaces :
  clean_wikitext nested_template <> "x  y".
Proof. vm_compute. discriminate. Qed.

(** C4, amended: [remove_templates] removes the nested template as one
    unit and leaves the text around it, both spaces included; the
    whitespace pass of the cleaner then collapses the two spaces, so the
    cleaned text is "x y". *)
Theorem clean_nested_template :
  remove_templates nested_template = "x  y"
  /\ clean_markup nested_template = "x  y"
  /\ clean_whitespace "x  y" = "x y"
  /\ clean_wikitext nested_template = "x y".
Proof. repeat split; vm_compute; reflexivity. Qed.

(** ** Termination of the depth-counted scans *)

(** A loop whose body keeps an invariant and lowers a measure ends within
    any fuel above the measure, in a state where its condition fails. *)
Lemma while_total {S : Type} (I : S -> Prop) (mu : S -> nat)
    (cond : S -> bool) (body : S -> option S) :
  (forall s, I s -> cond s = true ->
             exists s', body s = Some s' /\ I s' /\ mu s' < mu s) ->
  forall fuel s, I s -> mu s < fuel ->
  exists s', while fuel cond body s = Some s' /\ I s' /\ cond s' = false.
Proof.
  intros Hstep fuel. induction fuel as [|fuel IH]; intros s Hs Hmu; [lia|].
  simpl. destruct (cond s) eqn:Hc.
  - destruct (Hstep s Hs Hc) as (s' & -> & Hs' & Hlt).
    apply IH; [assumption | lia].
  - exists s. auto.
Qed.

Ltac split_ifs :=
  repeat match goal with
  | |- context [if ?b then _ else _] => destruct b
  end.

Section ScanTermination.

Variable text : str.

(** the index of a state of an inner loop never falls below its start *)
Lemma tables_inner_total (i0 : nat) :
  exists i d,
    while (S (length text)) (tables_inner_cond text) (tables_inner_body text)
          (i0, 1%Z)
    = Some (i, d) /\ i0 <= i.
Proof.
  destruct (while_total (fun s => i0 <= fst s) (fun s => length text - fst s)
              (tables_inner_cond text) (tables_inner_body text))
    with (fuel := S (length text)) (s := (i0, 1%Z)) as ([i d] & H & Hi & _).
  - intros [i d] Hi Hc. simpl in *.
    apply andb_prop in Hc as [Hc _]. apply Nat.ltb_lt in Hc.
    unfold tables_inner_body.
    split_ifs; eexists; (split; [reflexivity|]); simpl; lia.
  - simpl. lia.
  - simpl. lia.
  - exists i, d. auto.
Qed.

Lemma templates_inner_total (i0 : nat) :
  exists i d,
    while (S (length text)) (templates_inner_cond text) (templates_inner_body text)
          (i0, 1%Z)
    = Some (i, d) /\ i0 <= i.
Proof.
  destruct (while_total (fun s => i0 <= fst s) (fun s => length text - fst s)
              (templates_inner_cond text) (templates_inner_body text))
    with (fuel := S (length text)) (s := (i0, 1%Z)) as ([i d] & H & Hi & _).
  - intros [i d] Hi Hc. simpl in *.
    apply andb_prop in Hc as [Hc _]. apply Nat.ltb_lt in Hc.
    unfold templates_inner_body.
    split_ifs; eexists; (split; [reflexivity|]); simpl; lia.
  - simpl. lia.
  - simpl. lia.
  - exists i, d. auto.
Qed.

Lemma name_end_total (i0 : nat) :
  exists e,
    while (S (length text)) (name_end_cond text) name_end_body i0 = Some e
    /\ i0 <= e.
Proof.
  destruct (while_total (fun e => i0 <= e) (fun e => length text - e)
              (name_end_cond text) name_end_body)
    with (fuel := S (length text)) (s := i0) as (e & H & He & _).
  - intros e He Hc. apply andb_prop in Hc as [Hc _]. apply Nat.ltb_lt in Hc.
    eexists. split; [reflexivity|]. lia.
  - lia.
  - lia.
  - exists e. auto.
Qed.

Lemma content_total (start : nat) (result : str) :
  exists i d r b,
    while (S (length text)) (content_cond text) (content_body text start)
          (start, 1%Z, result, false)
    = Some (i, d, r, b) /\ start <= i.
Proof.
  destruct (while_total (fun s => start <= fst (fst (fst s)))
              (fun s => length text - fst (fst (fst s)))
              (content_cond text) (content_body text start))
    with (fuel := S (length text)) (s := (start, 1%Z, result, false))
    as ([[[i d] r] b] & H & Hi & _).
  - intros [[[i d] r] b] Hi Hc. simpl in *.
    apply andb_prop in Hc as [Hc _]. apply andb_prop in Hc as [_ Hc].
    apply Nat.ltb_lt in Hc. unfold content_body.
    split_ifs; eexists; (split; [reflexivity|]); simpl; lia.
  - simpl. lia.
  - simpl. lia.
  - exists i, d, r, b. auto.
Qed.

Lemma remove_tables_total : exists s, remove_tables_loop text = Some s.
Proof.
  destruct (while_total (fun _ => True) (fun s => length text - fst s)
              (tables_cond text) (tables_body text))
    with (fuel := S (length text)) (s := (0, @nil ascii)) as (s & H & _).
  - intros [i r] _ Hc. simpl in Hc. apply Nat.ltb_lt in Hc.
    unfold tables_body.
    destruct ((i + 1 <? length text) && tok_at text i "{|").
    + destruct (tables_inner_total (i + 2)) as (i' & d & -> & Hi').
      eexists. split; [reflexivity|]. simpl. split; [exact I | lia].
    + eexists. split; [reflexivity|]. simpl. split; [exact I | lia].
  - exact I.
  - simpl. lia.
  - exists s. exact H.
Qed.

Lemma remove_templates_total : exists s, remove_templates_loop text = Some s.
Proof.
  destruct (while_total (fun _ => True) (fun s => length text - fst s)
              (tables_cond text) (templates_body text))
    with (fuel := S (length text)) (s := (0, @nil ascii)) as (s & H & _).
  - intros [i r] _ Hc. simpl in Hc. apply Nat.ltb_lt in Hc.
    unfold templates_body.
    destruct ((i + 1 <? length text) && tok_at text i "{{").
    + destruct (templates_inner_total (i + 2)) as (i' & d & -> & Hi').
      destruct (0 <? d)%Z; eexists; (split; [reflexivity|]); simpl;
        (split; [exact I | lia]).
    + eexists. split; [reflexivity|]. simpl. split; [exact I | lia].
  - exact I.
  - simpl. lia.
  - exists s. exact H.
Qed.

Lemma extract_list_content_total :
  exists s, extract_list_content_loop text = Some s.
Proof.
  destruct (while_total (fun _ => True) (fun s => length text - fst s)
              (tables_cond text) (list_body text))
    with (fuel := S (length text)) (s := (0, @nil ascii)) as (s & H & _).
  - intros [i r] _ Hc. simpl in Hc. apply Nat.ltb_lt in Hc.
    unfold list_body.
    destruct ((i + 1 <? length text) && tok_at text i "{{").
    + destruct (name_end_total (i + 2)) as (e & -> & He).
      destruct (existsb _ list_templates).
      * destruct ((e <? length text) && Ascii.eqb (Str.at_ text e) "|").
        -- destruct (content_total (e + 1) r) as (i' & d & r' & b & -> & Hi').
           eexists. split; [reflexivity|]. simpl.
           split; [exact I | lia].
        -- eexists. split; [reflexivity|]. simpl.
           split; [exact I | lia].
      * eexists. split; [reflexivity|]. simpl.
        split; [exact I | lia].
    + eexists. split; [reflexivity|]. simpl. split; [exact I | lia].
  - exact I.
  - simpl. lia.
  - exists s. exact H.
Qed.

Lemma extract_infobox_block_total (template_prefix : str) :
  exists ret, extract_infobox_block_loop text template_prefix = Some ret.
Proof.
  unfold extract_infobox_block_loop.
  destruct (Str.find text _) as [idx|]; [|eexists; reflexivity].
  destruct (while_total (fun _ => True) (fun s => length text - fst (fst s))
              (infobox_cond text) (infobox_body text idx))
    with (fuel := S (length text)) (s := (idx, 0%Z, @None str))
    as ([[i d] ret] & H & _).
  - intros [[i d] ret] _ Hc. simpl in Hc.
    apply andb_prop in Hc as [Hc _]. apply Nat.ltb_lt in Hc.
    unfold infobox_body.
    split_ifs; eexists; (split; [reflexivity|]); simpl;
      (split; [exact I | lia]).
  - exact I.
  - simpl. lia.
  - rewrite H. eexists. reflexivity.
Qed.

End ScanTermination.

(** C9: on every text each of the four depth-counted scans ends: run with
    one unit of fuel more than the length of the text, the loop of the
    table removal, of the list-template inlining, of the template removal
    and of the infobox block extraction returns its final state, whatever
    the nesting or balance of the markers. *)
Theorem scans_terminate (text : str) :
  (exists s, remove_tables_loop text = Some s)
  /\ (exists s, extract_list_content_loop text = Some s)
  /\ (exists s, remove_templates_loop text = Some s)
  /\ (forall template_prefix,
        exists ret, extract_infobox_block_loop text template_prefix = Some ret).
Proof.
  split; [apply remove_tables_total|].
  split; [apply extract_list_content_total|].
  split; [apply remove_templates_total|].
  apply extract_infobox_block_total.
Qed.

(** ** The infobox fields *)

Lemma dict_set_In {V} (d : list (str * V)) (key : str) (value : V) k v :
  In (k, v) (dict_set d key value) -> In (k, v) d \/ (k = key /\ v = value).
Proof.
  induction d as [|[k' v'] d IH]; simpl.
  - intros [[= <- <-]|[]]. now right.
  - destruct (Str.eqb k' key) eqn:E; simpl.
    + apply str_eqb_eq in E. intros [[= <- <-]|H]; [now right | left; now right].
    + intros [H|H]; [left; now left|].
      destruct (IH H) as [H'|H']; [left; now right | now right].
Qed.

(** the splitting loop ends within its fuel *)
Lemma split_loop_total (rest : str) :
  exists st,
    while (S (length rest)) (split_cond rest) (split_body rest)
          (0, 0%Z, [], [])
    = Some st.
Proof.
  destruct (while_total (fun _ => True)
              (fun st => length rest - fst (fst (fst st)))
              (split_cond rest) (split_body rest))
    with (fuel := S (length rest)) (s := (0, 0%Z, @nil ascii, @nil str))
    as (st & H & _).
  - intros [[[i d] cur] parts] _ Hc. simpl in Hc. apply Nat.ltb_lt in Hc.
    unfold split_body.
    split_ifs; eexists; (split; [reflexivity|]); simpl;
      (split; [exact I | lia]).
  - exact I.
  - simpl. lia.
  - exists st. exact H.
Qed.

Lemma add_field_In (fields : list (str * str)) (part : str) k v :
  In (k, v) (add_field fields part) ->
  In (k, v) fields
  \/ (Str.contains part "=" = true /\ (k, v) = field_of part /\ k <> []).
Proof.
  unfold add_field, field_of.
  destruct (Str.contains part "=") eqn:Hc; cbn [negb]; [|now left].
  destruct (Str.split1 "=" part) as [key value]. cbn [fst snd].
  destruct (Str.strip key) as [|c key'] eqn:Hk; [now left|].
  intros H. apply dict_set_In in H as [H|[-> ->]]; [now left|].
  right. repeat split; congruence.
Qed.

Lemma add_field_no_equals (fields : list (str * str)) (part : str) :
  Str.contains part "=" = false -> add_field fields part = fields.
Proof. intros H. unfold add_field. now rewrite H. Qed.

Lemma fold_add_field_In (parts : list str) (fields : list (str * str)) k v :
  In (k, v) (fold_left add_field parts fields) ->
  In (k, v) fields
  \/ exists part, In part parts /\ Str.contains part "=" = true
                  /\ (k, v) = field_of part /\ k <> [].
Proof.
  revert fields; induction parts as [|p parts IH]; intros fields; simpl;
    [now left|].
  intros H. apply IH in H as [H|(part & Hin & H)].
  - apply add_field_In in H as [H|H]; [now left|].
    right. exists p. split; [now left | exact H].
  - right. exists part. split; [now right | exact H].
Qed.

Lemma lookup_field_Some (fields : list (str * str)) (target out : str) :
  lookup_field fields target = Some out ->
  exists k v, In (k, v) fields /\ Str.lower (Str.strip k) = target
              /\ out = clean_wikitext v.
Proof.
  induction fields as [|[k v] fields IH]; simpl; [discriminate|].
  destruct (Str.eqb _ target) eqn:E.
  - apply str_eqb_eq in E. intros [= <-]. exists k, v.
    split; [now left | now split].
  - intros H. destruct (IH H) as (k' & v' & Hin & ?).
    exists k', v'. split; [now right | assumption].
Qed.

(** C6 as stated fails: the mapping holds the name as it is written and the
    value with its markup, not the lowercased name and the cleaned value. *)
Lemma infobox_fields_not_lowercase_cleaned :
  extract_infobox_block mixed_case_infobox "Infobox" = Some mixed_case_infobox
  /\ parse_infobox_fields mixed_case_infobox
     = [("Name" : str, "[[Foo]]" : str)]
  /\ parse_infobox_fields mixed_case_infobox
     <> [(Str.lower (Str.strip "Name"), clean_wikitext "[[Foo]]")].
Proof.
  split; [vm_compute; reflexivity|]. split; [vm_compute; reflexivity|].
  vm_compute. discriminate.
Qed.

Lemma dict_get_set {V} (d : list (str * V)) (k k' : str) (v : V) :
  dict_get (dict_set d k v) k'
  = if Str.eqb k k' then Some v else dict_get d k'.
Proof.
  induction d as [|[k0 v0] d IH]; cbn [dict_set dict_get]; [reflexivity|].
  destruct (Str.eqb k0 k) eqn:E0; cbn [dict_get].
  - apply str_eqb_eq in E0. subst k0.
    destruct (Str.eqb k k'); reflexivity.
  - rewrite IH. destruct (Str.eqb k0 k') eqn:E1; [|reflexivity].
    apply str_eqb_eq in E1. subst k'. now rewrite (proj2 (str_eqb_neq k k0))
      by (intros ->; now rewrite str_eqb_refl in E0).
Qed.

Lemma dict_set_keys {V} (d : list (str * V)) (k : str) (v : V) (x : str) :
  In x (map fst (dict_set d k v)) <-> x = k \/ In x (map fst d).
Proof.
  induction d as [|[k0 v0] d IH]; cbn [dict_set map fst In].
  - intuition.
  - destruct (Str.eqb k0 k) eqn:E0; cbn [map fst In].
    + apply str_eqb_eq in E0. subst k0. intuition.
    + rewrite IH. intuition.
Qed.

Lemma dict_set_NoDup {V} (d : list (str * V)) (k : str) (v : V) :
  NoDup (map fst d) -> NoDup (map fst (dict_set d k v)).
Proof.
  induction d as [|[k0 v0] d IH]; cbn [dict_set map fst]; intros H.
  - constructor; [intros [] | constructor].
  - inversion H as [|? ? Hnotin Hd]; subst.
    destruct (Str.eqb k0 k) eqn:E0; cbn [map fst].
    + now constructor.
    + constructor; [|now apply IH].
      rewrite dict_set_keys. intros [->|Hin]; [|contradiction].
      now rewrite str_eqb_refl in E0.
Qed.

Lemma add_field_get (fields : list (str * str)) (part key : str) :
  dict_get (add_field fields part) key
  = if names part key then Some (snd (field_of part))
    else dict_get fields key.
Proof.
  unfold add_field, names, field_of.
  destruct (Str.contains part "="); cbn [negb andb]; [|reflexivity].
  destruct (Str.split1 "=" part) as [k v]. cbn [fst snd].
  destruct (Str.strip k) as [|c k']; [reflexivity|].
  apply dict_get_set.
Qed.

Lemma add_field_NoDup (fields : list (str * str)) (part : str) :
  NoDup (map fst fields) -> NoDup (map fst (add_field fields part)).
Proof.
  intros H. unfold add_field.
  destruct (negb (Str.contains part "=")); [assumption|].
  destruct (Str.split1 "=" part) as [k v].
  destruct (Str.strip k); [assumption | now apply dict_set_NoDup].
Qed.

Lemma fold_add_field_NoDup (parts : list str) (fields : list (str * str)) :
  NoDup (map fst fields) ->
  NoDup (map fst (fold_left add_field parts fields)).
Proof.
  revert fields; induction parts as [|p parts IH]; intros fields H;
    [assumption|].
  simpl. now apply IH, add_field_NoDup.
Qed.

Lemma fold_add_field_unset (parts : list str) (key : str) :
  (forall q, In q parts -> names q key = false) ->
  forall fields,
    dict_get (fold_left add_field parts fields) key = dict_get fields key.
Proof.
  induction parts as [|p parts IH]; intros H fields; [reflexivity|].
  simpl. rewrite IH by (intros q Hq; apply H; now right).
  rewrite add_field_get. now rewrite (H p (or_introl eq_refl)).
Qed.

Lemma dict_get_In {V} (d : list (str * V)) (key : str) (v : V) :
  dict_get d key = Some v -> In (key, v) d.
Proof.
  induction d as [|[k w] d IH]; simpl; [discriminate|].
  destruct (Str.eqb k key) eqn:E.
  - apply str_eqb_eq in E. intros [= ->]. left. now subst.
  - intros H. right. now apply IH.
Qed.

Lemma dict_get_NoDup {V} (d : list (str * V)) (key : str) (v : V) :
  NoDup (map fst d) -> In (key, v) d -> dict_get d key = Some v.
Proof.
  induction d as [|[k w] d IH]; cbn [map fst In dict_get]; [intros _ []|].
  intros Hnd H. inversion Hnd as [|? ? Hnotin Hd]; subst.
  destruct H as [[= -> ->]|H]; [now rewrite str_eqb_refl|].
  destruct (Str.eqb k key) eqn:E; [|now apply IH].
  apply str_eqb_eq in E. subst k. destruct Hnotin.
  change key with (fst (key, v)). now apply in_map.
Qed.

(** the loop of the lookup takes the first entry whose name fits *)
Lemma lookup_field_find (fields : list (str * str)) (target : str) :
  lookup_field fields target
  = option_map (fun kv => clean_wikitext (snd kv))
      (List.find (fun kv => Str.eqb (Str.lower (Str.strip (fst kv))) target)
         fields).
Proof.
  induction fields as [|[k v] fields IH]; [reflexivity|].
  cbn [lookup_field List.find fst snd].
  destruct (Str.eqb (Str.lower (Str.strip k)) target); [reflexivity | exact IH].
Qed.

(** C6, amended: every entry of the mapping that [parse_infobox_fields]
    returns comes from a parameter that holds an equals sign and has a
    name, and is that name trimmed, in its own case, with the raw value
    trimmed; a parameter without an equals sign adds nothing; the lookup
    of [extract_infobox_field_clean] takes an entry whose name, trimmed and
    lowercased, is the requested name trimmed and lowercased, and passes
    its value through the cleaner then; on the band example the fields are
    name Foo, genre Rock and origin USA, stored and looked up alike.
    Nothing else is in the mapping and nothing is left out: the names are
    pairwise different, an entry is what the mapping gives for its name,
    the last parameter with an equals sign and a given name gives the
    value stored under this name, a name that no such parameter has is
    absent, and the lookup returns the cleaned value of the first entry
    whose name fits, or nothing when there is no infobox or no such
    entry. *)
Theorem infobox_fields_spec :
  (forall ib k v,
     In (k, v) (parse_infobox_fields ib) ->
     exists part, In part (infobox_params ib)
                  /\ Str.contains part "=" = true
                  /\ (k, v) = field_of part /\ k <> [])
  /\ (forall fields part,
        Str.contains part "=" = false -> add_field fields part = fields)
  /\ (forall wikitext field_name out,
        extract_infobox_field_clean wikitext field_name = Some out ->
        exists ib k v,
          extract_infobox_block wikitext "Infobox" = Some ib
          /\ In (k, v) (parse_infobox_fields ib)
          /\ Str.lower (Str.strip k) = Str.lower (Str.strip field_name)
          /\ out = clean_wikitext v)
  /\ extract_infobox_block band_infobox "Infobox" = Some band_infobox
  /\ parse_infobox_fields band_infobox
     = [("name" : str, "Foo" : str); ("genre" : str, "Rock" : str);
        ("origin" : str, "USA" : str)]
  /\ extract_infobox_field_clean band_infobox "name" = Some ("Foo" : str)
  /\ extract_infobox_field_clean band_infobox "genre" = Some ("Rock" : str)
  /\ extract_infobox_field_clean band_infobox "origin" = Some ("USA" : str)
  /\ (forall ib, NoDup (map fst (parse_infobox_fields ib)))
  /\ (forall ib k v,
        In (k, v) (parse_infobox_fields ib)
        <-> dict_get (parse_infobox_fields ib) k = Some v)
  /\ (forall ib before part after key,
        infobox_params ib = before ++ part :: after ->
        names part key = true ->
        (forall q, In q after -> names q key = false) ->
        dict_get (parse_infobox_fields ib) key = Some (snd (field_of part)))
  /\ (forall ib key,
        (forall q, In q (infobox_params ib) -> names q key = false) ->
        dict_get (parse_infobox_fields ib) key = None)
  /\ (forall wikitext field_name,
        extract_infobox_field_clean wikitext field_name
        = match extract_infobox_block wikitext "Infobox" with
          | None => None
          | Some ib =>
              option_map (fun kv => clean_wikitext (snd kv))
                (List.find
                   (fun kv => Str.eqb (Str.lower (Str.strip (fst kv)))
                                (Str.lower (Str.strip field_name)))
                   (parse_infobox_fields ib))
          end).
Proof.
  assert (Hnd : forall ib, NoDup (map fst (parse_infobox_fields ib))).
  { intros ib. unfold parse_infobox_fields.
    apply fold_add_field_NoDup. constructor. }
  split; [|split; [|split]].
  - intros ib k v H. unfold parse_infobox_fields in H.
    apply fold_add_field_In in H as [[]|H]. exact H.
  - apply add_field_no_equals.
  - intros wikitext field_name out H. unfold extract_infobox_field_clean in H.
    destruct (extract_infobox_block wikitext "Infobox") as [ib|];
      [|discriminate].
    apply lookup_field_Some in H as (k & v & Hin & Hk & Hout).
    exists ib, k, v. auto.
  - do 5 (split; [vm_compute; reflexivity|]).
    split; [exact Hnd|]. split; [|split; [|split]].
    + intros ib k v. split; [now apply dict_get_NoDup | apply dict_get_In].
    + intros ib before part after key E Hpart Hafter.
      unfold parse_infobox_fields. rewrite E, fold_left_app. cbn [fold_left].
      rewrite fold_add_field_unset by assumption.
      now rewrite add_field_get, Hpart.
    + intros ib key H. unfold parse_infobox_fields.
      now rewrite fold_add_field_unset.
    + intros wikitext field_name. unfold extract_infobox_field_clean.
      destruct (extract_infobox_block wikitext "Infobox") as [ib|];
        [apply lookup_field_find | reflexivity].
Qed.

(** the lookup of the name, asked for in capitals, in the mixed-case infobox *)
Lemma infobox_fields_spec_witness :
  exists ib k v,
    extract_infobox_block mixed_case_infobox "Infobox" = Some ib
    /\ In (k, v) (parse_infobox_fields ib)
    /\ Str.lower (Str.strip k) = Str.lower (Str.strip " NAME ")
    /\ ("Foo" : str) = clean_wikitext v.
Proof.
  apply (proj1 (proj2 (proj2 infobox_fields_spec)) mixed_case_infobox " NAME ").
  vm_compute. reflexivity.
Defined.

(** ** Patterns that cannot match

    A pattern that needs a character of a class [P] finds nothing in a
    text without such characters, and [re.sub] then returns the text. *)

Lemma chr_all_In (c : ascii) : In c Chr.all.
Proof.
  unfold Chr.all. rewrite <- (ascii_nat_embedding c).
  apply in_map, in_seq. pose proof (nat_ascii_bounded c). lia.
Qed.

Lemma class_within_spec (cls P : ascii -> bool) :
  class_within cls P = true -> forall c, cls c = true -> P c = true.
Proof.
  unfold class_within. rewrite forallb_forall. intros H c Hc.
  specialize (H c (chr_all_In c)). now rewrite Hc in H.
Qed.

Lemma suffix_of_refl (s : str) : suffix_of s s.
Proof. now exists []. Qed.

Lemma suffix_of_cons (c : ascii) (s rest : str) :
  suffix_of s rest -> suffix_of s (c :: rest).
Proof. intros [l ->]. now exists (c :: l). Qed.

Lemma suffix_of_trans (a b c : str) :
  suffix_of a b -> suffix_of b c -> suffix_of a c.
Proof. intros [l ->] [l' ->]. exists (l' ++ l). now rewrite app_assoc. Qed.

Lemma suffix_of_tail (c : ascii) (t : str) : suffix_of t (c :: t).
Proof. now exists [c]. Qed.

Section NoMatch.

Context {A : Type}.

Lemma rep_greedy_none cls (rest : str) :
  forall lo hi pre g (k : cont A),
    (forall p s g', suffix_of s rest -> k p s g' = None) ->
    rep_greedy cls lo hi pre rest g k = None.
Proof.
  induction rest as [|c t IH]; intros lo hi pre g k Hk; simpl.
  - destruct lo; [apply Hk, suffix_of_refl | reflexivity].
  - assert (Hstop : match lo with 0 => k pre (c :: t) g | S _ => None end = None)
      by (destruct lo; [apply Hk, suffix_of_refl | reflexivity]).
    destruct (cls c && hi_allows hi); [|exact Hstop].
    rewrite IH; [exact Hstop|].
    intros p s g' Hs. apply Hk. now apply suffix_of_cons.
Qed.

Lemma rep_lazy_none cls (rest : str) :
  forall lo hi pre g (k : cont A),
    (forall p s g', suffix_of s rest -> k p s g' = None) ->
    rep_lazy cls lo hi pre rest g k = None.
Proof.
  induction rest as [|c t IH]; intros lo hi pre g k Hk; simpl.
  - destruct lo; [rewrite Hk by apply suffix_of_refl|]; reflexivity.
  - assert (Hmore : (if cls c && hi_allows hi
                     then rep_lazy cls (Nat.pred lo) (hi_pred hi) (c :: pre) t g k
                     else None) = None).
    { destruct (cls c && hi_allows hi); [|reflexivity].
      apply IH. intros p s g' Hs. apply Hk. now apply suffix_of_cons. }
    destruct lo; [rewrite Hk by apply suffix_of_refl|]; exact Hmore.
Qed.

End NoMatch.

(** the matcher calls its continuation on suffixes of the text only *)
Lemma run_none_suffix (r : re) :
  forall A pre rest g (k : cont A),
    (forall p s g', suffix_of s rest -> k p s g' = None) ->
    run r pre rest g k = None.
Proof.
  induction r as [|cls|cls lo hi greedy|r1 IH1 r2 IH2|r1 IH1 r2 IH2|n r1 IH1
                 |n|ml|ml| |cls];
    intros A pre rest g k Hk; simpl.
  - apply Hk, suffix_of_refl.
  - destruct rest as [|c t]; [reflexivity|].
    destruct (cls c); [apply Hk, suffix_of_tail | reflexivity].
  - destruct greedy; [now apply rep_greedy_none | now apply rep_lazy_none].
  - apply IH1. intros p s g' Hs. apply IH2.
    intros p' s' g'' Hs'. apply Hk. now apply suffix_of_trans with s.
  - rewrite IH1 by assumption. now apply IH2.
  - apply IH1. intros p s g' Hs. now apply Hk.
  - destruct (group n g) as [v|]; [|reflexivity].
    destruct (Str.startswith rest v); [|reflexivity].
    apply Hk. exists (firstn (length v) rest). now rewrite firstn_skipn.
  - destruct (at_bol ml pre); [apply Hk, suffix_of_refl | reflexivity].
  - destruct (at_eol ml rest); [apply Hk, suffix_of_refl | reflexivity].
  - destruct (at_wordb pre rest); [apply Hk, suffix_of_refl | reflexivity].
  - destruct pre as [|c pre']; [apply Hk, suffix_of_refl|].
    destruct (cls c); [reflexivity | apply Hk, suffix_of_refl].
Qed.

Lemma free_of_suffix P (s rest : str) :
  suffix_of s rest -> free_of P rest -> free_of P s.
Proof. intros [l ->] H. apply Forall_app in H. tauto. Qed.

Lemma needs_none (P : ascii -> bool) (r : re) :
  needs P r = true ->
  forall A pre rest g (k : cont A),
    free_of P rest -> run r pre rest g k = None.
Proof.
  induction r as [|cls|cls lo hi greedy|r1 IH1 r2 IH2|r1 IH1 r2 IH2|n r1 IH1
                 |n|ml|ml| |cls];
    simpl; intros Hn A pre rest g k Hfree; try discriminate.
  - destruct rest as [|c t]; [reflexivity|].
    destruct (cls c) eqn:Hc; [|reflexivity].
    apply (class_within_spec _ _ Hn) in Hc.
    inversion Hfree; subst. congruence.
  - apply andb_prop in Hn as [Hlo Hn]. apply Nat.ltb_lt in Hlo.
    assert (Hhd : match rest with c :: _ => cls c = false | [] => True end).
    { destruct rest as [|c t]; [exact I|].
      destruct (cls c) eqn:Hc; [|reflexivity].
      apply (class_within_spec _ _ Hn) in Hc.
      inversion Hfree; subst. congruence. }
    destruct lo as [|lo]; [lia|].
    destruct greedy, rest as [|c t]; simpl; try reflexivity; now rewrite Hhd.
  - apply orb_prop in Hn as [Hn|Hn].
    + now apply IH1.
    + apply run_none_suffix. intros p s g' Hs.
      apply IH2; [assumption | now apply free_of_suffix with rest].
  - apply andb_prop in Hn as [Hn1 Hn2].
    rewrite IH1 by assumption. now apply IH2.
  - now apply IH1.
Qed.




Lemma free_of_chr_In (c : ascii) (s : str) : free_of (chr c) s <-> ~ In c s.
Proof.
  unfold free_of, chr. rewrite Forall_forall. split.
  - intros H Hin. specialize (H c Hin). now rewrite Ascii.eqb_refl in H.
  - intros H x Hx. destruct (Ascii.eqb c x) eqn:E; [|reflexivity].
    apply Ascii.eqb_eq in E. now subst.
Qed.

(** ** Scans and replacements that find nothing *)

Lemma firstn_snoc (s : str) (i : nat) :
  i < length s -> firstn i s ++ [Str.at_ s i] = firstn (S i) s.
Proof.
  revert i; induction s as [|c s IH]; intros i Hi; simpl in Hi; [lia|].
  destruct i as [|i]; [reflexivity|].
  cbn [firstn app]. unfold Str.at_ in *. cbn [nth]. f_equal. apply IH. lia.
Qed.

Lemma skipn_at (s : str) (i : nat) :
  i < length s -> skipn i s = Str.at_ s i :: skipn (S i) s.
Proof.
  revert i; induction s as [|c s IH]; intros i Hi; simpl in Hi; [lia|].
  destruct i as [|i]; [reflexivity|].
  cbn [skipn]. unfold Str.at_ in *. cbn [nth]. apply IH. lia.
Qed.

Lemma at_In (s : str) (i : nat) : i < length s -> In (Str.at_ s i) s.
Proof. intros H. unfold Str.at_. now apply nth_In. Qed.

(** no token that starts with [c] stands in a text without [c] *)
Lemma tok_at_free (c : ascii) (tok text : str) (i : nat) :
  free_of (chr c) text -> tok_at text i (c :: tok) = false.
Proof.
  intros Hfree. unfold tok_at, Str.slice.
  replace (i + 2 - i) with 2 by lia.
  destruct (Nat.lt_ge_cases i (length text)) as [Hi|Hi].
  - rewrite (skipn_at _ _ Hi). cbn [firstn Str.eqb].
    apply free_of_chr_In in Hfree.
    destruct (Ascii.eqb (Str.at_ text i) c) eqn:E; [|reflexivity].
    apply Ascii.eqb_eq in E. subst c. exfalso. apply Hfree. now apply at_In.
  - rewrite skipn_all2 by assumption. reflexivity.
Qed.

(** a loop that copies one character a turn returns the text *)
Lemma copy_loop (text : str) (body : nat * str -> option (nat * str)) :
  (forall i result,
     i < length text ->
     body (i, result) = Some (i + 1, result ++ [Str.at_ text i])) ->
  while (S (length text)) (tables_cond text) body (0, [])
  = Some (length text, text).
Proof.
  intros Hbody.
  enough (H : forall fuel i,
             i <= length text -> length text - i < fuel ->
             while fuel (tables_cond text) body (i, firstn i text)
             = Some (length text, text))
    by (apply (H (S (length text)) 0); lia).
  induction fuel as [|fuel IH]; intros i Hi Hfuel; [lia|].
  simpl. destruct (i <? length text) eqn:E.
  - apply Nat.ltb_lt in E. rewrite Hbody by assumption.
    rewrite firstn_snoc by assumption.
    replace (i + 1) with (S i) by lia. apply IH; lia.
  - apply Nat.ltb_ge in E. replace i with (length text) by lia.
    now rewrite firstn_all.
Qed.

Section NoBrace.

Variable text : str.
Hypothesis no_brace : free_of (chr "{") text.

Lemma remove_tables_no_brace : remove_tables text = text.
Proof using no_brace.
  unfold remove_tables, remove_tables_loop. rewrite copy_loop; [reflexivity|].
  intros i result _. unfold tables_body.
  change ("{|" : str) with ("{"%char :: ("|" : str)).
  now rewrite tok_at_free, andb_false_r.
Qed.

Lemma remove_templates_no_brace : remove_templates text = text.
Proof using no_brace.
  unfold remove_templates, remove_templates_loop.
  rewrite copy_loop; [reflexivity|].
  intros i result _. unfold templates_body.
  change ("{{" : str) with ("{"%char :: ("{" : str)).
  now rewrite tok_at_free, andb_false_r.
Qed.

Lemma extract_list_content_no_brace : extract_list_content text = text.
Proof using no_brace.
  unfold extract_list_content, extract_list_content_loop.
  rewrite copy_loop; [reflexivity|].
  intros i result _. unfold list_body.
  change ("{{" : str) with ("{"%char :: ("{" : str)).
  now rewrite tok_at_free, andb_false_r.
Qed.

End NoBrace.

Lemma replace_free (c : ascii) (old new s : str) :
  free_of (chr c) s -> Str.replace (c :: old) new s = s.
Proof.
  unfold Str.replace. induction s as [|x s IH]; intros H; [reflexivity|].
  inversion H as [|? ? Hx Hs]; subst. unfold chr in Hx.
  cbn [Str.replace_go Str.startswith]. rewrite Hx. cbn [andb].
  f_equal. now apply IH.
Qed.



(** ** Replacing the runs of a class

    [re.sub] with a pattern [cls{lo,}] and a constant replacement. *)

Lemma run_len_le (cls : ascii -> bool) (s : str) : run_len cls s <= length s.
Proof. induction s as [|c s IH]; simpl; [lia|]. destruct (cls c); simpl; lia. Qed.

Lemma run_len_skipn (cls : ascii -> bool) (s : str) :
  hd_in cls (skipn (run_len cls s) s) = false.
Proof.
  induction s as [|c s IH]; simpl; [reflexivity|].
  destruct (cls c) eqn:E; simpl; [exact IH | exact E].
Qed.

Lemma run_len_zero (cls : ascii -> bool) (s : str) :
  run_len cls s = 0 <-> hd_in cls s = false.
Proof.
  destruct s as [|c s]; simpl; [tauto|].
  destruct (cls c); split; congruence.
Qed.

(** the greedy repetition followed by nothing takes the whole run *)
Lemma rep_greedy_final (cls : ascii -> bool) (start : nat) (pre0 : str)
    (rest : str) :
  forall lo pre,
    rep_greedy cls lo None pre rest []
      (fun p _ g => Some (MatchObj start (length p) g (consumed pre0 p)))
    = if lo <=? run_len cls rest
      then Some (MatchObj start (length pre + run_len cls rest) []
                   (consumed pre0
                      (rev (firstn (run_len cls rest) rest) ++ pre)))
      else None.
Proof.
  induction rest as [|c t IH]; intros lo pre; simpl.
  - destruct lo; simpl; [|reflexivity]. now rewrite Nat.add_0_r.
  - destruct (cls c) eqn:Hc; simpl.
    + rewrite IH. simpl.
      replace (length pre + S (run_len cls t))
        with (S (length pre + run_len cls t)) by lia.
      rewrite <- app_assoc. simpl.
      destruct lo as [|lo]; simpl; [reflexivity|].
      destruct (lo <=? run_len cls t); reflexivity.
    + destruct lo; simpl; [|reflexivity]. now rewrite Nat.add_0_r.
Qed.

Lemma match_here_rep (cls : ascii -> bool) (lo : nat) (pre rest : str) :
  match match_here (Rep cls lo None true) pre rest with
  | Some m => lo <= run_len cls rest
              /\ m_end m - m_start m = run_len cls rest
  | None => run_len cls rest < lo
  end.
Proof.
  unfold match_here. cbn [run]. rewrite rep_greedy_final.
  destruct (lo <=? run_len cls rest) eqn:E.
  - apply Nat.leb_le in E. simpl. split; [assumption | lia].
  - now apply Nat.leb_gt in E.
Qed.

(** passing over the rest of a match *)
Lemma sub_go_skip (r : re) (repl : match_obj -> str) (k : nat) :
  forall pre rest,
    k <= length rest ->
    sub_go r repl k pre rest
    = sub_go r repl 0 (rev (firstn k rest) ++ pre) (skipn k rest).
Proof.
  induction k as [|k IH]; intros pre rest Hk; [reflexivity|].
  destruct rest as [|c t]; simpl in Hk; [lia|].
  cbn [sub_go firstn skipn rev app]. rewrite IH by lia.
  now rewrite <- app_assoc.
Qed.

Lemma last_in_cons (cls : ascii -> bool) (c : ascii) (t : str) :
  t <> [] -> last_in cls (c :: t) = last_in cls t.
Proof. destruct t; [congruence | reflexivity]. Qed.

Lemma hd_in_app (cls : ascii -> bool) (a b : str) :
  a <> [] -> hd_in cls (a ++ b) = hd_in cls a.
Proof. destruct a; [congruence | reflexivity]. Qed.

Lemma last_in_rev (cls : ascii -> bool) (s : str) :
  last_in cls s = hd_in cls (rev s).
Proof.
  induction s as [|c t IH]; [reflexivity|].
  destruct t as [|d t]; [reflexivity|].
  rewrite last_in_cons by discriminate. rewrite IH.
  change (rev (c :: d :: t)) with (rev (d :: t) ++ [c]).
  rewrite hd_in_app; [reflexivity|].
  simpl. intros E. now apply app_eq_nil in E as [_ [=]].
Qed.

Lemma last_in_skipn (cls : ascii -> bool) (k : nat) :
  forall s, skipn k s <> [] -> last_in cls (skipn k s) = last_in cls s.
Proof.
  induction k as [|k IH]; intros s H; [reflexivity|].
  destruct s as [|c t]; [reflexivity|]. cbn [skipn] in *.
  rewrite IH by assumption. symmetry. apply last_in_cons.
  intros ->. now rewrite skipn_nil in H.
Qed.

(** a text that is one run of the class ends in the class *)
Lemma run_all_last (cls : ascii -> bool) (s : str) :
  s <> [] -> skipn (run_len cls s) s = [] -> last_in cls s = true.
Proof.
  induction s as [|c t IH]; intros Hne H; [congruence|].
  simpl in H. destruct (cls c) eqn:Hc; [|discriminate].
  cbn [skipn] in H. destruct t as [|d t]; [exact Hc|].
  rewrite last_in_cons by discriminate. apply IH; [discriminate | exact H].
Qed.

Section Squeeze.

Variable cls : ascii -> bool.
Variable lo : nat.
Variable sp : ascii.

Let r : re := Rep cls lo None true.
Let repl : match_obj -> str := fun _ => [sp].

(** one step of the replacement at a non-empty text *)
Lemma squeeze_cons (pre : str) (c : ascii) (t : str) :
  1 <= lo ->
  sub_go r repl 0 pre (c :: t)
  = if lo <=? run_len cls (c :: t)
    then sp :: sub_go r repl 0
                 (rev (firstn (run_len cls (c :: t)) (c :: t)) ++ pre)
                 (skipn (run_len cls (c :: t)) (c :: t))
    else c :: sub_go r repl 0 (c :: pre) t.
Proof.
  intros Hlo. cbn [sub_go].
  pose proof (match_here_rep cls lo pre (c :: t)) as Hm. fold r in Hm.
  destruct (match_here r pre (c :: t)) as [m|].
  - destruct Hm as [Hle Hlen]. rewrite Hlen.
    apply Nat.leb_le in Hle as Hle'. rewrite Hle'.
    pose proof (run_len_le cls (c :: t)) as Hbound.
    destruct (run_len cls (c :: t)) as [|n] eqn:En; [lia|].
    simpl in Hbound. unfold repl. simpl. f_equal.
    rewrite sub_go_skip by lia. now rewrite <- app_assoc.
  - apply Nat.leb_gt in Hm. rewrite Hm. reflexivity.
Qed.


Lemma no_adj_nil : no_adj cls [].
Proof. intros [|x l1] a b l2 H; discriminate. Qed.

Lemma no_adj_cons (a : ascii) (s : str) :
  cls a && hd_in cls s = false -> no_adj cls s -> no_adj cls (a :: s).
Proof.
  intros Ha Hs [|x l1] u v l2 H; simpl in H.
  - injection H as -> ->. exact Ha.
  - injection H as -> ->. now apply (Hs l1 u v l2).
Qed.

Lemma no_adj_factor (l s l' : str) : no_adj cls (l ++ s ++ l') -> no_adj cls s.
Proof.
  intros H l1 a b l2 ->. apply (H (l ++ l1) a b (l2 ++ l')).
  now rewrite <- !app_assoc.
Qed.



Hypothesis lo_range : 1 <= lo <= 2.

(** after the replacement no two neighbours are in the class, and the
    result starts in the class only where the text did *)
Lemma squeeze_no_adj (n : nat) :
  forall pre rest,
    length rest <= n ->
    no_adj cls (sub_go r repl 0 pre rest)
    /\ (hd_in cls (sub_go r repl 0 pre rest) = true -> hd_in cls rest = true).
Proof using lo_range.
  induction n as [|n IH]; intros pre rest Hn.
  - destruct rest; simpl in Hn; [|lia]. simpl.
    pose proof (match_here_rep cls lo pre []) as Hm. fold r in Hm.
    destruct (match_here r pre []); simpl in Hm; [lia|].
    split; [apply no_adj_nil | discriminate].
  - destruct rest as [|c t].
    { apply IH. simpl. lia. }
    simpl in Hn. rewrite squeeze_cons by lia.
    destruct (lo <=? run_len cls (c :: t)) eqn:E.
    + apply Nat.leb_le in E.
      pose proof (run_len_skipn cls (c :: t)) as Hhd.
      set (rest2 := skipn (run_len cls (c :: t)) (c :: t)) in *.
      assert (Hlen2 : length rest2 <= n).
      { unfold rest2. rewrite length_skipn. simpl length. lia. }
      destruct (IH (rev (firstn (run_len cls (c :: t)) (c :: t)) ++ pre)
                  rest2 Hlen2) as [Hna Hh].
      split.
      * apply no_adj_cons; [|exact Hna].
        destruct (hd_in cls (sub_go r repl 0 _ rest2)) eqn:E2;
          [|apply andb_false_r].
        specialize (Hh eq_refl). congruence.
      * intros _. simpl. simpl in E. destruct (cls c); [reflexivity | lia].
    + apply Nat.leb_gt in E.
      destruct (IH (c :: pre) t ltac:(lia)) as [Hna Hh].
      split.
      * apply no_adj_cons; [|exact Hna].
        destruct (cls c) eqn:Hc; [|reflexivity]. simpl.
        destruct (hd_in cls (sub_go r repl 0 (c :: pre) t)) eqn:E2;
          [|reflexivity].
        specialize (Hh eq_refl). simpl in E. rewrite Hc in E.
        assert (run_len cls t = 0) as Hz by lia.
        apply run_len_zero in Hz. congruence.
      * simpl. tauto.
Qed.

Lemma squeeze_nil (pre : str) : sub_go r repl 0 pre [] = [].
Proof using lo_range.
  simpl. pose proof (match_here_rep cls lo pre []) as Hm. fold r in Hm.
  destruct (match_here r pre []); simpl in Hm; [lia | reflexivity].
Qed.

Lemma squeeze_nonempty (pre : str) (c : ascii) (t : str) :
  sub_go r repl 0 pre (c :: t) <> [].
Proof using lo_range.
  rewrite squeeze_cons by lia.
  destruct (lo <=? run_len cls (c :: t)); discriminate.
Qed.

(** the result ends in the class only where the text did *)
Lemma squeeze_last (n : nat) :
  forall pre rest,
    length rest <= n ->
    last_in cls (sub_go r repl 0 pre rest) = true -> last_in cls rest = true.
Proof using lo_range.
  induction n as [|n IH]; intros pre rest Hn.
  - destruct rest; simpl in Hn; [|lia]. now rewrite squeeze_nil.
  - destruct rest as [|c t]; [now rewrite squeeze_nil|].
    simpl in Hn. rewrite squeeze_cons by lia.
    destruct (lo <=? run_len cls (c :: t)) eqn:E.
    + apply Nat.leb_le in E.
      set (k := run_len cls (c :: t)) in *.
      destruct (skipn k (c :: t)) as [|d rest2] eqn:E2.
      * intros _. apply run_all_last; [discriminate | exact E2].
      * rewrite last_in_cons by apply squeeze_nonempty.
        intros H. apply IH in H.
        -- rewrite <- E2 in H. rewrite last_in_skipn in H; [exact H|].
           rewrite E2. discriminate.
        -- assert (length (skipn k (c :: t)) <= n)
             by (rewrite length_skipn; simpl length; lia).
           now rewrite E2 in *.
    + destruct t as [|d t]; [rewrite squeeze_nil; exact (fun H => H)|].
      rewrite last_in_cons by apply squeeze_nonempty.
      intros H. apply IH in H; [|simpl in *; lia].
      now rewrite last_in_cons by discriminate.
Qed.

(** with [cls+] every character of the class in the result is the
    replacement *)
Lemma squeeze_only_sp (n : nat) :
  lo = 1 ->
  forall pre rest,
    length rest <= n ->
    Forall (fun c => cls c = true -> c = sp) (sub_go r repl 0 pre rest).
Proof using lo_range.
  intros Hlo. induction n as [|n IH]; intros pre rest Hn.
  - destruct rest; simpl in Hn; [|lia]. rewrite squeeze_nil. constructor.
  - destruct rest as [|c t]; [rewrite squeeze_nil; constructor|].
    simpl in Hn. rewrite squeeze_cons by lia.
    destruct (lo <=? run_len cls (c :: t)) eqn:E.
    + apply Nat.leb_le in E. constructor; [reflexivity|]. apply IH.
      rewrite length_skipn. simpl length. lia.
    + apply Nat.leb_gt in E. constructor; [|apply IH; lia].
      intros Hc. simpl in E. rewrite Hc in E. lia.
Qed.

End Squeeze.

(** the result of [re.sub] is made of kept characters and replacements *)
Lemma sub_go_free (P : ascii -> bool) (r : re) (repl : match_obj -> str)
    (rest : str) :
  (forall m, free_of P (repl m)) ->
  forall skip pre, free_of P rest -> free_of P (sub_go r repl skip pre rest).
Proof.
  intros Hrepl. induction rest as [|c t IH]; intros skip pre Hfree.
  - destruct skip; simpl; [|constructor].
    destruct (match_here r pre []) as [m|]; [|constructor].
    destruct (m_end m - m_start m); rewrite app_nil_r; apply Hrepl.
  - inversion Hfree as [|? ? Hc Ht]; subst.
    destruct skip; cbn [sub_go]; [|now apply IH].
    destruct (match_here r pre (c :: t)) as [m|].
    + destruct (m_end m - m_start m); apply Forall_app; split;
        try apply Hrepl; simpl; [constructor; [assumption|]|]; now apply IH.
    + simpl. constructor; [assumption | now apply IH].
Qed.

(** ** Trimming *)

Section Strip.

Variable p : ascii -> bool.

Lemma lstrip_suffix (s : str) : suffix_of (Str.lstrip_by p s) s.
Proof.
  induction s as [|c s IH]; simpl; [apply suffix_of_refl|].
  destruct (p c); [now apply suffix_of_cons | apply suffix_of_refl].
Qed.

Lemma lstrip_hd (s : str) : hd_in p (Str.lstrip_by p s) = false.
Proof.
  induction s as [|c s IH]; simpl; [reflexivity|].
  destruct (p c) eqn:E; [exact IH | exact E].
Qed.

Lemma lstrip_id (s : str) : hd_in p s = false -> Str.lstrip_by p s = s.
Proof. destruct s as [|c s]; simpl; [reflexivity|]. now intros ->. Qed.

(** the trimmed text, with what was cut on each side *)
Lemma strip_factor (s : str) :
  exists l l', s = l ++ Str.strip_by p s ++ l'.
Proof.
  unfold Str.strip_by, Str.rstrip_by.
  destruct (lstrip_suffix s) as [l Hl].
  destruct (lstrip_suffix (rev (Str.lstrip_by p s))) as [l' Hl'].
  exists l, (rev l'). rewrite <- rev_app_distr, <- Hl', rev_involutive.
  exact Hl.
Qed.

Lemma hd_in_prefix (a b : str) :
  hd_in p (a ++ b) = false -> hd_in p a = false.
Proof. destruct a; simpl; auto. Qed.

Lemma strip_hd (s : str) : hd_in p (Str.strip_by p s) = false.
Proof.
  set (t := Str.lstrip_by p s).
  destruct (lstrip_suffix (rev t)) as [l Hl].
  assert (E : t = Str.strip_by p s ++ rev l).
  { unfold Str.strip_by, Str.rstrip_by. fold t.
    rewrite <- rev_app_distr, <- Hl. now rewrite rev_involutive. }
  apply hd_in_prefix with (rev l). rewrite <- E. apply lstrip_hd.
Qed.

Lemma strip_last (s : str) : last_in p (Str.strip_by p s) = false.
Proof.
  rewrite last_in_rev. unfold Str.strip_by, Str.rstrip_by.
  rewrite rev_involutive. apply lstrip_hd.
Qed.

Lemma strip_idempotent (s : str) :
  Str.strip_by p (Str.strip_by p s) = Str.strip_by p s.
Proof.
  pose proof (strip_hd s) as Hhd. pose proof (strip_last s) as Hlast.
  rewrite last_in_rev in Hlast.
  set (u := Str.strip_by p s) in *.
  unfold Str.strip_by at 1, Str.rstrip_by.
  rewrite (lstrip_id u Hhd), (lstrip_id (rev u) Hlast).
  apply rev_involutive.
Qed.

End Strip.

Lemma free_of_factor (P : ascii -> bool) (l s l' : str) :
  free_of P (l ++ s ++ l') -> free_of P s.
Proof.
  intros H. apply Forall_app in H as [_ H]. apply Forall_app in H. tauto.
Qed.

Lemma strip_free (P p : ascii -> bool) (s : str) :
  free_of P s -> free_of P (Str.strip_by p s).
Proof.
  intros H. destruct (strip_factor p s) as (l & l' & E).
  rewrite E in H. now apply free_of_factor in H.
Qed.

Lemma find_from_free (c : ascii) (pat s : str) (i : nat) :
  free_of (chr c) s -> Str.find_from s (c :: pat) i = None.
Proof.
  revert i; induction s as [|x s IH]; intros i H; [reflexivity|].
  inversion H as [|? ? Hx Hs]; subst. unfold chr in Hx.
  cbn [Str.find_from Str.startswith]. rewrite Hx. cbn [andb].
  now apply IH.
Qed.

Lemma contains_free (c : ascii) (pat s : str) :
  free_of (chr c) s -> Str.contains s (c :: pat) = false.
Proof.
  intros H. unfold Str.contains, Str.find. now rewrite find_from_free.
Qed.

(** ** Mention normalisation *)

Lemma upper_letter_not_space (a : ascii) :
  Chr.is_upper (Chr.upper a) = true -> Chr.is_space a = false.
Proof. destruct a as [[] [] [] [] [] [] [] []]; vm_compute; congruence. Qed.

Lemma state_codes_shape :
  forallb (fun kv => state_code_shape (fst kv)) US_STATE_CODES = true.
Proof. vm_compute. reflexivity. Qed.

(** a value that is a state code once uppercased has no space to trim *)
Lemma state_code_strip (v name : str) :
  dict_get US_STATE_CODES (Str.upper v) = Some name -> Str.strip v = v.
Proof.
  intros H. apply dict_get_In in H.
  pose proof state_codes_shape as Hall. rewrite forallb_forall in Hall.
  specialize (Hall _ H). simpl in Hall.
  destruct v as [|a [|b [|c v]]]; simpl in Hall; try discriminate.
  apply andb_prop in Hall as [Ha Hb].
  apply upper_letter_not_space in Ha, Hb.
  unfold Str.strip, Str.strip_by, Str.rstrip_by. simpl.
  rewrite Ha. simpl. now rewrite Hb.
Qed.

Lemma lower_not_upper (c : ascii) : Chr.is_upper (Chr.lower c) = false.
Proof. destruct c as [[] [] [] [] [] [] [] []]; vm_compute; reflexivity. Qed.

Lemma lower_space (c : ascii) : Chr.is_space (Chr.lower c) = Chr.is_space c.
Proof. destruct c as [[] [] [] [] [] [] [] []]; vm_compute; reflexivity. Qed.

Section MapClass.

Variable cls : ascii -> bool.
Variable f : ascii -> ascii.
Hypothesis f_cls : forall c, cls (f c) = cls c.

Lemma hd_in_map (s : str) : hd_in cls (map f s) = hd_in cls s.
Proof using f_cls. destruct s; simpl; auto. Qed.

Lemma last_in_map (s : str) : last_in cls (map f s) = last_in cls s.
Proof using f_cls.
  induction s as [|c t IH]; [reflexivity|].
  destruct t as [|d t]; [apply f_cls|].
  change (map f (c :: d :: t)) with (f c :: map f (d :: t)).
  rewrite (last_in_cons cls (f c) (map f (d :: t))) by discriminate.
  rewrite (last_in_cons cls c (d :: t)) by discriminate.
  exact IH.
Qed.

Lemma no_adj_map (s : str) : no_adj cls s -> no_adj cls (map f s).
Proof using f_cls.
  intros H l1 a b l2 E.
  apply map_eq_app in E as (s1 & s2 & -> & <- & E).
  apply map_eq_cons in E as (a' & s3 & -> & <- & E).
  apply map_eq_cons in E as (b' & s4 & -> & <- & _).
  rewrite !f_cls. now apply (H s1 a' b' s4).
Qed.

End MapClass.

(** [normalize_title] lowercases, trims and collapses the whitespace *)
Lemma normalize_title_normalised (s : str) : normalised (normalize_title s).
Proof.
  unfold normalize_title, normalised, Str.lower.
  set (z := Str.strip s).
  assert (Hz : length z <= length z) by lia.
  destruct (squeeze_no_adj Chr.is_space 1 " "%char ltac:(lia) _ [] z Hz)
    as [Hna Hhd].
  pose proof (squeeze_last Chr.is_space 1 " "%char ltac:(lia) _ [] z Hz)
    as Hlast.
  pose proof (squeeze_only_sp Chr.is_space 1 " "%char ltac:(lia) _ eq_refl
                [] z Hz) as Honly.
  change (sub_go (Rep Chr.is_space 1 None true) (fun _ => [" "%char]) 0 [] z)
    with (sub re_spaces " " z) in *.
  set (w := sub re_spaces " " z) in *.
  split; [|split; [|split; [|split]]].
  - apply Forall_map, Forall_forall. intros c _. apply lower_not_upper.
  - rewrite (hd_in_map _ _ lower_space).
    destruct (hd_in Chr.is_space w) eqn:E; [|reflexivity].
    rewrite <- (Hhd eq_refl). apply strip_hd.
  - rewrite (last_in_map _ _ lower_space).
    destruct (last_in Chr.is_space w) eqn:E; [|reflexivity].
    rewrite <- (Hlast eq_refl). apply strip_last.
  - now apply no_adj_map; [apply lower_space|].
  - apply Forall_map. revert Honly. apply Forall_impl. intros c Hc Hsp.
    rewrite lower_space in Hsp. now rewrite (Hc Hsp).
Qed.

Lemma normalize_entity_title (entity_value : str) (ty : etype)
    (country : option str) :
  exists s, normalize_entity entity_value ty country = normalize_title s.
Proof.
  unfold normalize_entity.
  repeat match goal with
  | |- context [if ?b then _ else _] => destruct b
  | |- context [match ?x with _ => _ end] => destruct x
  end; eexists; reflexivity.
Qed.

(** C7: for the type country and a value that is USA once uppercased the
    result is the normalised form of "united states"; for the type city, a
    context country that is USA once uppercased and a value that is a
    two-letter state code once uppercased, the result is the normalised
    name of the state, so that TX becomes texas; in every other case the
    result is the value trimmed, with each run of whitespace collapsed to
    one space, and lowercased; and in every case the result has no capital
    letter, no whitespace at either end and only single spaces inside. *)
Theorem normalize_entity_cases (entity_value : str) (ty : etype)
    (country : option str) :
  (ty = Country -> Str.upper entity_value = "USA" ->
     normalize_entity entity_value ty country = normalize_title "united states"
     /\ normalize_entity entity_value ty country = "united states")
  /\ (forall c name,
        ty = City -> country = Some c -> Str.upper c = "USA" ->
        dict_get US_STATE_CODES (Str.upper entity_value) = Some name ->
        normalize_entity entity_value ty country = normalize_title name)
  /\ (~ (ty = Country /\ Str.upper entity_value = "USA") ->
      ~ (ty = City /\ exists c name,
           country = Some c /\ Str.upper c = "USA" /\
           dict_get US_STATE_CODES (Str.upper (Str.strip entity_value))
             = Some name) ->
      normalize_entity entity_value ty country
      = Str.lower (sub re_spaces " " (Str.strip entity_value)))
  /\ normalised (normalize_entity entity_value ty country)
  /\ normalize_entity "TX" City (Some ("USA" : str)) = "texas".
Proof.
  split; [|split; [|split; [|split]]].
  - intros -> Hv. unfold normalize_entity. cbn [etype_eqb andb].
    rewrite Hv. split; vm_compute; reflexivity.
  - intros c name -> -> Hc Hcode. unfold normalize_entity.
    cbn [etype_eqb andb].
    destruct c as [|x c]; [discriminate|].
    rewrite Hc, (state_code_strip _ _ Hcode), Hcode. reflexivity.
  - intros Hcountry Hcity. unfold normalize_entity.
    destruct (etype_eqb ty Country && Str.eqb (Str.upper entity_value) "USA")
      eqn:E.
    { exfalso. apply Hcountry. apply andb_prop in E as [E1 E2].
      apply etype_eqb_eq in E1. apply str_eqb_eq in E2. now split. }
    destruct ty; try reflexivity.
    destruct country as [[|x c]|]; try reflexivity.
    destruct (Str.eqb (Str.upper (x :: c)) "USA") eqn:Ec; [|reflexivity].
    destruct (dict_get US_STATE_CODES (Str.upper (Str.strip entity_value)))
      as [name|] eqn:En; [|reflexivity].
    exfalso. apply Hcity. split; [reflexivity|].
    exists (x :: c), name. apply str_eqb_eq in Ec. now repeat split.
  - destruct (normalize_entity_title entity_value ty country) as [s ->].
    apply normalize_title_normalised.
  - vm_compute. reflexivity.
Qed.

(** the city case at the value tx, in lower case, and the context Usa *)
Lemma normalize_entity_cases_witness :
  normalize_entity "tx" City (Some ("Usa" : str)) = normalize_title "Texas".
Proof.
  apply (proj1 (proj2 (normalize_entity_cases "tx" City (Some ("Usa" : str))))
           "Usa" "Texas");
    vm_compute; reflexivity.
Defined.

(** ** The cleaner on plain text *)













(** Why the amended class leaves out the hyphen and the comma: a hyphen
    between spaces is replaced by a space after the blanks were collapsed,
    and of three commas in a row only a part is removed at a time. *)
Lemma clean_not_idempotent_on_punctuation :
  clean_wikitext "a - b" = "a  b"
  /\ clean_wikitext (clean_wikitext "a - b") = "a b"
  /\ clean_wikitext ", , ,a" = ",a"
  /\ clean_wikitext (clean_wikitext ", , ,a") = "a".
Proof. repeat split; vm_compute; reflexivity. Qed.

(** * Further properties *)

(** ** Venue, city and country *)

Lemma split_free (p : str) :
  free_of (chr ",") p -> Str.split "," p = [p].
Proof.
  induction p as [|c p IH]; intros H; [reflexivity|].
  inversion H as [|? ? Hc Hp]; subst. unfold chr in Hc.
  cbn [Str.split]. rewrite Ascii.eqb_sym, Hc. now rewrite IH.
Qed.

Lemma split_app (p rest : str) :
  free_of (chr ",") p ->
  Str.split "," (p ++ "," ++ rest) = p :: Str.split "," rest.
Proof.
  induction p as [|c p IH]; intros H; [reflexivity|].
  inversion H as [|? ? Hc Hp]; subst. unfold chr in Hc.
  cbn [app Str.split]. rewrite Ascii.eqb_sym, Hc. now rewrite IH.
Qed.

(** splitting at the commas undoes joining with commas *)
Lemma split_join (parts : list str) :
  parts <> [] -> Forall (free_of (chr ",")) parts ->
  Str.split "," (Str.join "," parts) = parts.
Proof.
  induction parts as [|p parts IH]; intros Hne H; [congruence|].
  inversion H as [|? ? Hp Hparts]; subst.
  destruct parts as [|q parts]; [now apply split_free|].
  change (Str.join "," (p :: q :: parts))
    with (p ++ "," ++ Str.join "," (q :: parts)).
  rewrite split_app by assumption. f_equal. now apply IH.
Qed.

Lemma join_nil (parts : list str) :
  Str.join "," parts = [] -> parts = [] \/ parts = [[]].
Proof.
  destruct parts as [|p [|q parts]]; simpl; intros H; [now left| |].
  - right. now subst.
  - apply app_eq_nil in H as [_ H]. discriminate.
Qed.

Lemma nth_last {A} (l : list A) (d : A) : nth (length l - 1) l d = List.last l d.
Proof.
  induction l as [|x l IH]; [reflexivity|].
  destruct l as [|y l]; [reflexivity|].
  change (List.last (x :: y :: l) d) with (List.last (y :: l) d).
  rewrite <- IH. cbn [length].
  replace (S (S (length l)) - 1) with (S (length l)) by lia.
  now replace (S (length l) - 1) with (length l) by lia.
Qed.

(** X1: of a text that is the comma-joined list of comma-free parts,
    [split_venue_city_country] returns the first part, the part before
    the last and the last part, each trimmed, when there are three parts
    or more, so that parts in between are dropped; the two parts trimmed
    and no country when there are two; and the text as it is, untrimmed,
    when there is one; [None] and the empty text give three [None]. *)
Theorem split_venue_city_country_parts (parts : list str) :
  Forall (free_of (chr ",")) parts ->
  Str.join "," parts <> [] ->
  split_venue_city_country (Some (Str.join "," parts))
  = match parts with
    | [] => (None, None, None)
    | [a] => (Some a, None, None)
    | [a; b] => (Some (Str.strip a), Some (Str.strip b), None)
    | a :: _ =>
        (Some (Str.strip a),
         Some (Str.strip (nth (length parts - 2) parts [])),
         Some (Str.strip (List.last parts [])))
    end.
Proof.
  intros Hfree Hne.
  assert (Hparts : parts <> []) by (intros ->; now apply Hne).
  unfold split_venue_city_country.
  destruct (Str.join "," parts) as [|c s] eqn:Ejoin; [congruence|].
  rewrite <- Ejoin, split_join by assumption.
  rewrite length_map.
  destruct parts as [|a [|b [|d parts]]]; try congruence; try reflexivity.
  set (l := a :: b :: d :: parts).
  replace (3 <=? length l) with true
    by (symmetry; apply Nat.leb_le; simpl; lia).
  change (@nil ascii) with (Str.strip []) at 1 2 3.
  rewrite !map_nth. now rewrite nth_last.
Qed.

(** three parts with a part in between that is dropped *)
Lemma split_venue_city_country_parts_witness :
  split_venue_city_country (Some ("The Forum , Inglewood, CA, USA" : str))
  = (Some ("The Forum" : str), Some ("CA" : str), Some ("USA" : str)).
Proof.
  apply (split_venue_city_country_parts
           ["The Forum " : str; " Inglewood" : str; " CA" : str; " USA" : str]).
  - repeat constructor.
  - vm_compute. discriminate.
Defined.

(** ** Normalised titles *)

Lemma strip_id (p : ascii -> bool) (s : str) :
  hd_in p s = false -> last_in p s = false -> Str.strip_by p s = s.
Proof.
  intros Hhd Hlast. unfold Str.strip_by, Str.rstrip_by.
  rewrite (lstrip_id p s Hhd). rewrite last_in_rev in Hlast.
  rewrite (lstrip_id p (rev s) Hlast). apply rev_involutive.
Qed.

Lemma lower_id (s : str) :
  Forall (fun c => Chr.is_upper c = false) s -> Str.lower s = s.
Proof.
  unfold Str.lower. induction 1 as [|c s Hc _ IH]; [reflexivity|].
  simpl. unfold Chr.lower at 1. rewrite Hc. now rewrite IH.
Qed.

Lemma no_adj_tail (cls : ascii -> bool) (c : ascii) (t : str) :
  no_adj cls (c :: t) -> no_adj cls t.
Proof. intros H. apply (no_adj_factor cls [c] t []). now rewrite app_nil_r. Qed.

(** single spaces are replaced by themselves *)
Lemma sub_spaces_id (s : str) :
  no_adj Chr.is_space s ->
  Forall (fun c => Chr.is_space c = true -> c = " "%char) s ->
  sub re_spaces " " s = s.
Proof.
  unfold sub, sub_fn. generalize (@nil ascii) as pre.
  induction s as [|c t IH]; intros pre Hna Honly.
  - apply (squeeze_nil Chr.is_space 1 " "%char). lia.
  - inversion Honly as [|? ? Hc Ht]; subst.
    change (sub_go re_spaces (fun _ => " " : str) 0 pre (c :: t))
      with (sub_go (Rep Chr.is_space 1 None true) (fun _ => [" "%char]) 0 pre
              (c :: t)).
    rewrite squeeze_cons by lia. cbn [run_len].
    destruct (Chr.is_space c) eqn:Hsp.
    + assert (Hz : run_len Chr.is_space t = 0).
      { apply run_len_zero. specialize (Hna [] c).
        destruct t as [|d t']; [reflexivity|].
        specialize (Hna d t' eq_refl). rewrite Hsp in Hna. exact Hna. }
      rewrite Hz. cbn [Nat.leb firstn skipn rev app].
      rewrite <- (Hc eq_refl) at 1. f_equal.
      apply IH; [now apply no_adj_tail with c | assumption].
    + cbn [Nat.leb]. f_equal.
      apply IH; [now apply no_adj_tail with c | assumption].
Qed.

Lemma normalize_title_fixed (s : str) : normalised s -> normalize_title s = s.
Proof.
  intros (Hup & Hhd & Hlast & Hna & Honly). unfold normalize_title.
  change (Str.strip s) with (Str.strip_by Chr.is_space s).
  rewrite (strip_id _ s Hhd Hlast), (sub_spaces_id s Hna Honly).
  now apply lower_id.
Qed.

(** X2: [normalize_title] is idempotent, and the texts it leaves as they
    are are exactly the normalised ones: no capital letter, no whitespace
    at either end, and no whitespace inside but single spaces. *)
Theorem normalize_title_idempotent (s : str) :
  normalize_title (normalize_title s) = normalize_title s
  /\ (normalize_title s = s <-> normalised s).
Proof.
  split; [apply normalize_title_fixed, normalize_title_normalised|].
  split; [|apply normalize_title_fixed].
  intros E. rewrite <- E. apply normalize_title_normalised.
Qed.

Lemma normalize_title_idempotent_witness : normalised "new york".
Proof.
  apply (proj1 (proj2 (normalize_title_idempotent "new york"))).
  vm_compute. reflexivity.
Defined.

(** ** The two normalisers of the join *)

(** the state names are left alone by the whitespace pass of
    [normalize_title] *)
Lemma state_names_lower :
  forallb (fun kv => Str.eqb (normalize_title (snd kv)) (Str.lower (snd kv)))
    US_STATE_CODES = true.
Proof. vm_compute. reflexivity. Qed.

Lemma state_name_title (code name : str) :
  dict_get US_STATE_CODES code = Some name ->
  normalize_title name = Str.lower name.
Proof.
  intros H. apply dict_get_In in H.
  pose proof state_names_lower as Hall. rewrite forallb_forall in Hall.
  specialize (Hall _ H). now apply str_eqb_eq in Hall.
Qed.

(** X3: on a value without outer whitespace and without a run of
    whitespace to collapse, the key that the join stage computes with
    [normalize_for_wiki] is the key under which [normalize_entity] files
    the mention: for a country without further condition, and for a city,
    with a context country without outer whitespace, unless the value is
    USA once uppercased. *)
Theorem normalize_for_wiki_agrees (v : str) (c : option str) :
  v <> [] -> Str.strip v = v -> sub re_spaces " " v = v ->
  normalize_for_wiki (Some v) None = Some (normalize_entity v Country None)
  /\ (Str.upper v <> "USA" ->
      (forall c', c = Some c' -> Str.strip c' = c') ->
      normalize_for_wiki (Some v) c = Some (normalize_entity v City c)).
Proof.
  intros Hne Hstrip Hsub.
  assert (Htitle : normalize_title v = Str.lower v)
    by (unfold normalize_title; now rewrite Hstrip, Hsub).
  destruct v as [|x v']; [congruence|]. set (v := x :: v') in *.
  split.
  - unfold normalize_for_wiki, normalize_entity. fold v. rewrite Hstrip.
    cbn [etype_eqb andb].
    destruct (Str.eqb (Str.upper v) "USA"); [reflexivity|].
    now rewrite Htitle.
  - intros Husa Hc. apply str_eqb_neq in Husa.
    unfold normalize_for_wiki, normalize_entity. fold v.
    rewrite Hstrip, Husa, Htitle. cbn [etype_eqb andb].
    destruct c as [[|y c']|]; try reflexivity.
    rewrite (Hc _ eq_refl).
    destruct (Str.eqb (Str.upper (y :: c')) "USA"); [|reflexivity].
    destruct (dict_get US_STATE_CODES (Str.upper v)) as [name|] eqn:E;
      [|reflexivity].
    now rewrite (state_name_title _ _ E).
Qed.

(** the state code tx with the context USA *)
Lemma normalize_for_wiki_agrees_witness :
  normalize_for_wiki (Some ("tx" : str)) (Some ("USA" : str))
  = Some (normalize_entity "tx" City (Some ("USA" : str))).
Proof.
  apply (proj2 (normalize_for_wiki_agrees "tx" (Some ("USA" : str))
                  ltac:(discriminate) eq_refl eq_refl)).
  - vm_compute. discriminate.
  - intros c' [= <-]. reflexivity.
Defined.

(** ** What the scans keep *)

Lemma startswith_nil (s : str) : Str.startswith s [] = true.
Proof. destruct s; reflexivity. Qed.

Lemma contains_chr_false (c : ascii) (s : str) :
  Str.contains s [c] = false -> free_of (chr c) s.
Proof.
  unfold Str.contains, Str.find. generalize 0 as i.
  induction s as [|x s IH]; intros i H; [constructor|].
  cbn [Str.find_from Str.startswith] in H. rewrite startswith_nil in H.
  destruct (Ascii.eqb c x) eqn:E; cbn [andb] in H; [discriminate|].
  constructor; [exact E | now apply (IH (S i))].
Qed.

(** X4: a text in which no opening brace occurs is returned as it is by
    the table removal, by the list-template inlining and by the template
    removal. *)
Theorem scans_keep_text_without_brace (text : str) :
  Str.contains text "{" = false ->
  remove_tables text = text
  /\ extract_list_content text = text
  /\ remove_templates text = text.
Proof.
  intros H. apply (contains_chr_false "{") in H.
  split; [now apply remove_tables_no_brace|].
  split; [now apply extract_list_content_no_brace|].
  now apply remove_templates_no_brace.
Qed.

Lemma scans_keep_text_without_brace_witness :
  remove_tables "a|} b}} c" = "a|} b}} c"
  /\ extract_list_content "a|} b}} c" = "a|} b}} c"
  /\ remove_templates "a|} b}} c" = "a|} b}} c".
Proof. apply scans_keep_text_without_brace. reflexivity. Defined.

(** the text up to [b] is the text up to [a] and the slice from [a] to [b] *)
Lemma take_slice (s : str) (a b : nat) :
  a <= b -> firstn b s = firstn a s ++ Str.slice s a b.
Proof.
  intros Hab. unfold Str.slice.
  rewrite <- (firstn_skipn a s) at 1.
  rewrite firstn_app, firstn_firstn.
  replace (Init.Nat.min b a) with a by lia.
  destruct (Nat.le_gt_cases (length s) a) as [Hlen|Hlen].
  - rewrite !skipn_all2 by assumption. now rewrite !firstn_nil.
  - rewrite length_firstn. now replace (Init.Nat.min a (length s)) with a by lia.
Qed.

Lemma take_sublist (s : str) (a b : nat) :
  a <= b -> firstn a s `sublist_of` firstn b s.
Proof.
  intros Hab. rewrite (take_slice s a b Hab). now apply sublist_inserts_r.
Qed.

(** a loop whose turns keep the result inside the text read so far
    returns a part of the text *)
Lemma scan_sublist (text : str) (body : nat * str -> option (nat * str)) :
  (forall i result,
     i < length text -> result `sublist_of` firstn i text ->
     exists i' result',
       body (i, result) = Some (i', result') /\ i < i'
       /\ result' `sublist_of` firstn i' text) ->
  joined (while (S (length text)) (tables_cond text) body (0, []))
    `sublist_of` text.
Proof.
  intros Hbody.
  destruct (while_total (fun s => snd s `sublist_of` firstn (fst s) text)
              (fun s => length text - fst s) (tables_cond text) body)
    with (fuel := S (length text)) (s := (0, @nil ascii))
    as ([i result] & -> & Hinv & _).
  - intros [i result] Hinv Hc. simpl in *. apply Nat.ltb_lt in Hc.
    destruct (Hbody i result Hc Hinv) as (i' & result' & -> & Hlt & Hsub).
    exists (i', result'). simpl. repeat split; [assumption | lia].
  - simpl. constructor.
  - simpl. lia.
  - simpl in *. etransitivity; [exact Hinv|]. apply sublist_take.
Qed.

Lemma copy_step_sublist (text result : str) (i : nat) :
  i < length text -> result `sublist_of` firstn i text ->
  result ++ [Str.at_ text i] `sublist_of` firstn (i + 1) text.
Proof.
  intros Hi Hsub. replace (i + 1) with (S i) by lia.
  rewrite <- firstn_snoc by assumption. now apply sublist_app.
Qed.

Lemma skip_step_sublist (text result : str) (i i' : nat) :
  i <= i' -> result `sublist_of` firstn i text ->
  result `sublist_of` firstn i' text.
Proof.
  intros Hi Hsub. etransitivity; [exact Hsub|]. now apply take_sublist.
Qed.

(** X5: [remove_tables] and [remove_templates] only delete: the result
    is the text with some of its characters left out, in their order. *)
Theorem removals_only_delete (text : str) :
  remove_tables text `sublist_of` text
  /\ remove_templates text `sublist_of` text.
Proof.
  split.
  - apply scan_sublist. intros i result Hi Hsub. unfold tables_body.
    destruct ((i + 1 <? length text) && tok_at text i "{|").
    + destruct (tables_inner_total text (i + 2)) as (i' & d & -> & Hi').
      exists i', result. repeat split; [lia|].
      apply skip_step_sublist with i; [lia | assumption].
    + exists (i + 1), (result ++ [Str.at_ text i]).
      repeat split; [lia | now apply copy_step_sublist].
  - apply scan_sublist. intros i result Hi Hsub. unfold templates_body.
    destruct ((i + 1 <? length text) && tok_at text i "{{").
    + destruct (templates_inner_total text (i + 2)) as (i' & d & -> & Hi').
      destruct (0 <? d)%Z; eexists _, result; (repeat split; [lia|]);
        (apply skip_step_sublist with i; [lia | assumption]).
    + exists (i + 1), (result ++ [Str.at_ text i]).
      repeat split; [lia | now apply copy_step_sublist].
Qed.

Lemma slice_sublist (s : str) (a b b' : nat) :
  b <= b' -> Str.slice s a b `sublist_of` Str.slice s a b'.
Proof. intros H. unfold Str.slice. apply take_sublist. lia. Qed.

Lemma append_slice_sublist (text result : str) (i a b : nat) :
  i <= a -> a <= b -> result `sublist_of` firstn i text ->
  result ++ Str.slice text a b `sublist_of` firstn b text.
Proof.
  intros Hia Hab Hsub. rewrite (take_slice text a b Hab).
  apply sublist_app; [|reflexivity]. now apply skip_step_sublist with i.
Qed.

(** the content loop leaves the result alone or adds a slice that starts
    where the content starts *)
Lemma content_sublist (text : str) (start : nat) (result : str) :
  exists i d r b,
    while (S (length text)) (content_cond text) (content_body text start)
          (start, 1%Z, result, false)
    = Some (i, d, r, b)
    /\ start <= i
    /\ r `sublist_of` result ++ Str.slice text start i.
Proof.
  destruct (while_total
              (fun s => let '(i, _, r, b) := s in
                 start <= i
                 /\ (if b : bool
                     then exists j, j <= i /\ r = result ++ Str.slice text start j
                     else r = result))
              (fun s => length text - fst (fst (fst s)))
              (content_cond text) (content_body text start))
    with (fuel := S (length text)) (s := (start, 1%Z, result, false))
    as ([[[i d] r] b] & H & (Hi & Hr) & _).
  - intros [[[i d] r] b] (Hi & Hr) Hc. simpl in Hc.
    apply andb_prop in Hc as [Hc _]. apply andb_prop in Hc as [Hb Hc].
    apply Nat.ltb_lt in Hc. destruct b; [discriminate|]. subst r.
    unfold content_body.
    split_ifs; eexists; (split; [reflexivity|]); simpl;
      (split; [split; [lia|] | lia]); try reflexivity.
    exists i. split; [lia | reflexivity].
  - split; [lia | reflexivity].
  - simpl. lia.
  - exists i, d, r, b. split; [exact H|]. split; [exact Hi|].
    destruct b.
    + destruct Hr as (j & Hj & ->). apply sublist_app; [reflexivity|].
      now apply slice_sublist.
    + subst r. now apply sublist_inserts_r.
Qed.

(** X6: [extract_list_content] only deletes as well: on every text the
    result is the text with some characters left out; no character is
    added and none changes its place. *)
Theorem extract_list_content_only_deletes (text : str) :
  extract_list_content text `sublist_of` text.
Proof.
  apply scan_sublist. intros i result Hi Hsub. unfold list_body.
  destruct ((i + 1 <? length text) && tok_at text i "{{").
  - destruct (name_end_total text (i + 2)) as (e & -> & He).
    destruct (existsb _ list_templates).
    + destruct ((e <? length text) && Ascii.eqb (Str.at_ text e) "|").
      * destruct (content_sublist text (e + 1) result)
          as (i' & d & r & b & -> & Hi' & Hr).
        exists i', r. repeat split; [lia|].
        etransitivity; [exact Hr|].
        apply append_slice_sublist with i; [lia | lia | assumption].
      * eexists _, _. repeat split; [lia|].
        apply append_slice_sublist with i; [lia | lia | assumption].
    + eexists _, _. repeat split; [lia|].
      apply append_slice_sublist with i; [lia | lia | assumption].
  - exists (i + 1), (result ++ [Str.at_ text i]).
    repeat split; [lia | now apply copy_step_sublist].
Qed.

(** ** What the template removal leaves *)

Lemma last_in_snoc (cls : ascii -> bool) (l : str) (a : ascii) :
  last_in cls (l ++ [a]) = cls a.
Proof. rewrite last_in_rev, rev_app_distr. reflexivity. Qed.

Lemma no_adj_snoc (cls : ascii -> bool) (r : str) (c : ascii) :
  no_adj cls r -> last_in cls r && cls c = false -> no_adj cls (r ++ [c]).
Proof.
  intros Hr Hc l1 a b l2 E.
  induction l2 as [|z l2 _] using rev_ind.
  - change (l1 ++ [a; b]) with (l1 ++ [a] ++ [b]) in E.
    rewrite app_assoc in E. apply app_inj_tail in E as [E1 E2]. subst r c.
    now rewrite last_in_snoc in Hc.
  - change (l1 ++ a :: b :: l2 ++ [z]) with (l1 ++ (a :: b :: l2) ++ [z]) in E.
    rewrite app_assoc in E. apply app_inj_tail in E as [E1 _]. subst r.
    now apply (Hr l1 a b l2).
Qed.

Lemma tok_at_spec (text : str) (i : nat) (a b : ascii) :
  i + 1 < length text ->
  tok_at text i [a; b]
  = Ascii.eqb (Str.at_ text i) a && Ascii.eqb (Str.at_ text (i + 1)) b.
Proof.
  intros Hi. unfold tok_at, Str.slice. replace (i + 2 - i) with 2 by lia.
  rewrite (skipn_at text i) by lia. rewrite (skipn_at text (S i)) by lia.
  replace (i + 1) with (S i) by lia. cbn [firstn Str.eqb].
  now rewrite andb_true_r.
Qed.

Lemma no_adj_contains (c : ascii) (s : str) :
  no_adj (chr c) s -> Str.contains s [c; c] = false.
Proof.
  unfold Str.contains, Str.find. generalize 0 as i.
  induction s as [|x s IH]; intros i H; [reflexivity|].
  cbn [Str.find_from].
  assert (E : Str.startswith (x :: s) [c; c] = false).
  { cbn [Str.startswith]. destruct s as [|y s]; [apply andb_false_r|].
    cbn [Str.startswith]. rewrite startswith_nil, andb_true_r.
    apply (H [] x y s eq_refl). }
  rewrite E. apply IH. now apply no_adj_tail with x.
Qed.

(** X7: the result of [remove_templates] never holds two opening braces
    side by side, whatever the text: no template opener is left, also
    when templates are nested, unbalanced or not closed. *)
Theorem remove_templates_no_opener (text : str) :
  Str.contains (remove_templates text) "{{" = false.
Proof.
  apply (no_adj_contains "{").
  unfold remove_templates, remove_templates_loop.
  set (B := chr "{").
  destruct (while_total
              (fun s => no_adj B (snd s)
                        /\ (last_in B (snd s) = true ->
                            fst s < length text ->
                            B (Str.at_ text (fst s)) = false))
              (fun s => length text - fst s)
              (tables_cond text) (templates_body text))
    with (fuel := S (length text)) (s := (0, @nil ascii))
    as ([i result] & -> & (Hna & _) & _).
  - intros [i result] (Hna & Hlast) Hc. cbn [fst snd tables_cond] in *.
    apply Nat.ltb_lt in Hc. unfold templates_body.
    destruct ((i + 1 <? length text) && tok_at text i "{{") eqn:Etok.
    + apply andb_prop in Etok as [Hi Etok]. apply Nat.ltb_lt in Hi.
      change ("{{" : str) with ["{"%char; "{"%char] in Etok.
      rewrite tok_at_spec in Etok by assumption.
      apply andb_prop in Etok as [E0 _]. apply Ascii.eqb_eq in E0.
      assert (Hl : last_in B result = false).
      { destruct (last_in B result) eqn:El; [|reflexivity].
        specialize (Hlast eq_refl Hc). unfold B, chr in Hlast.
        now rewrite E0, Ascii.eqb_refl in Hlast. }
      destruct (templates_inner_total text (i + 2)) as (i' & d & -> & Hi').
      destruct (0 <? d)%Z; eexists; (split; [reflexivity|]); simpl;
        (split; [split; [assumption | congruence] | lia]).
    + eexists. split; [reflexivity|]. simpl. split; [split|lia].
      * apply no_adj_snoc; [assumption|].
        destruct (last_in B result) eqn:El; [|reflexivity].
        simpl. now apply Hlast.
      * rewrite last_in_snoc. intros Hb Hi.
        apply andb_false_iff in Etok as [Etok|Etok];
          [apply Nat.ltb_ge in Etok; lia|].
        change ("{{" : str) with ["{"%char; "{"%char] in Etok.
        rewrite tok_at_spec in Etok by lia.
        unfold B, chr in *. apply Ascii.eqb_eq in Hb. rewrite <- Hb in Etok.
        rewrite Ascii.eqb_refl in Etok. cbn [andb] in Etok.
        now rewrite Ascii.eqb_sym.
  - simpl. split; [apply no_adj_nil | discriminate].
  - simpl. lia.
  - exact Hna.
Qed.

(** ** What the cleaner returns *)

(** where every character of [P] starts a match, none of them is kept *)
Lemma sub_go_removes (P : ascii -> bool) (r : re) (repl : match_obj -> str) :
  (forall m, free_of P (repl m)) ->
  (forall pre c t,
     P c = true ->
     exists m, match_here r pre (c :: t) = Some m
               /\ 1 <= m_end m - m_start m) ->
  forall rest skip pre, free_of P (sub_go r repl skip pre rest).
Proof.
  intros Hrepl Hstart. induction rest as [|c t IH]; intros skip pre.
  - destruct skip; simpl; [|constructor].
    destruct (match_here r pre []) as [m|]; [|constructor].
    destruct (m_end m - m_start m); rewrite app_nil_r; apply Hrepl.
  - destruct skip; cbn [sub_go]; [|apply IH].
    destruct (P c) eqn:Hc.
    + destruct (Hstart pre c t Hc) as (m & -> & Hlen).
      destruct (m_end m - m_start m); [lia|].
      apply Forall_app. split; [apply Hrepl | apply IH].
    + destruct (match_here r pre (c :: t)) as [m|].
      * destruct (m_end m - m_start m); apply Forall_app; split;
          try apply Hrepl; simpl; [constructor; [assumption|]|]; apply IH.
      * simpl. constructor; [assumption | apply IH].
Qed.

Lemma pipes_removed (text : str) :
  free_of (chr "|") (sub re_pipes ", " text).
Proof.
  apply sub_go_removes.
  - intros _. repeat constructor.
  - intros pre c t Hc.
    pose proof (match_here_rep (chr "|") 1 pre (c :: t)) as Hm.
    change (Rep (chr "|") 1 None true) with re_pipes in Hm.
    cbn [run_len] in Hm. rewrite Hc in Hm.
    destruct (match_here re_pipes pre (c :: t)) as [m|]; [|lia].
    exists m. split; [reflexivity | lia].
Qed.

Lemma sub_free (P : ascii -> bool) (r : re) (repl text : str) :
  free_of P repl -> free_of P text -> free_of P (sub r repl text).
Proof. intros Hrepl Htext. now apply sub_go_free. Qed.

(** X8: a cleaned text holds no pipe character and has no whitespace at
    either end, whatever the text that is cleaned. *)
Theorem clean_wikitext_shape (text : str) :
  Str.contains (clean_wikitext text) "|" = false
  /\ Str.strip (clean_wikitext text) = clean_wikitext text.
Proof.
  destruct text as [|c text]; [split; reflexivity|].
  unfold clean_wikitext.
  set (t := clean_whitespace (clean_markup (c :: text))).
  unfold clean_leftovers. cbv zeta.
  split; [|apply strip_idempotent].
  change ("|" : str) with ("|"%char :: []).
  apply contains_free, strip_free.
  do 3 (apply sub_free; [repeat constructor|]).
  apply pipes_removed.
Qed.

(** ** The infobox block *)

Lemma startswith_app (a b : str) : Str.startswith (a ++ b) a = true.
Proof.
  induction a as [|x a IH]; [apply startswith_nil|].
  cbn [app Str.startswith]. now rewrite Ascii.eqb_refl, IH.
Qed.

Lemma startswith_prefix (s a b : str) :
  Str.startswith s (a ++ b) = true -> Str.startswith s a = true.
Proof.
  revert s; induction a as [|x a IH]; intros s H; [apply startswith_nil|].
  destruct s as [|y s]; [discriminate|]. cbn [app Str.startswith] in *.
  apply andb_prop in H as [-> H]. now apply IH.
Qed.

Lemma startswith_length (s p : str) :
  Str.startswith s p = true -> length p <= length s.
Proof.
  revert s; induction p as [|x p IH]; intros s H; [simpl; lia|].
  destruct s as [|y s]; [discriminate|]. cbn [Str.startswith] in H.
  apply andb_prop in H as [_ H]. apply IH in H. simpl. lia.
Qed.

Lemma startswith_firstn (s p : str) :
  Str.startswith s p = true -> firstn (length p) s = p.
Proof.
  revert s; induction p as [|x p IH]; intros s H; [reflexivity|].
  destruct s as [|y s]; [discriminate|]. cbn [Str.startswith] in H.
  apply andb_prop in H as [E H]. apply Ascii.eqb_eq in E. subst y.
  cbn [length firstn]. now rewrite IH.
Qed.

(** where [find] finds the pattern, the pattern stands *)
Lemma find_from_spec (s p : str) :
  forall i j,
    Str.find_from s p i = Some j ->
    exists k, j = i + k /\ Str.startswith (skipn k s) p = true.
Proof.
  induction s as [|x s IH]; intros i j H; cbn [Str.find_from] in H.
  - destruct (Str.startswith [] p) eqn:E; [|discriminate].
    injection H as <-. exists 0. split; [lia | exact E].
  - destruct (Str.startswith (x :: s) p) eqn:E.
    + injection H as <-. exists 0. split; [lia | exact E].
    + apply IH in H as (k & -> & Hk). exists (S k). split; [lia | exact Hk].
Qed.

Lemma find_spec (s p : str) (idx : nat) :
  Str.find s p = Some idx -> Str.startswith (skipn idx s) p = true.
Proof.
  intros H. apply find_from_spec in H as (k & -> & H). exact H.
Qed.

Lemma slice_split (s : str) (a m b : nat) :
  a <= m -> m <= b -> Str.slice s a b = Str.slice s a m ++ Str.slice s m b.
Proof.
  intros Ham Hmb. unfold Str.slice.
  rewrite (take_slice (skipn a s) (m - a) (b - a)) by lia.
  unfold Str.slice. rewrite skipn_skipn.
  replace (m - a + a) with m by lia.
  now replace (b - a - (m - a)) with (b - m) by lia.
Qed.

Lemma tok_at_slice (text : str) (i : nat) (tok : str) :
  tok_at text i tok = true -> Str.slice text i (i + 2) = tok.
Proof. apply str_eqb_eq. Qed.

(** X9: [extract_infobox_block] returns [None] where the opener with
    the prefix does not occur; a block it returns is the part of the text
    from the first occurrence of that opener up to some later position,
    and it starts with two opening braces and ends with two closing
    braces. *)
Theorem extract_infobox_block_slice (wikitext template_prefix : str) :
  (Str.find wikitext ("{{" ++ template_prefix) = None ->
   extract_infobox_block wikitext template_prefix = None)
  /\ (forall block,
        extract_infobox_block wikitext template_prefix = Some block ->
        exists idx j,
          Str.find wikitext ("{{" ++ template_prefix) = Some idx
          /\ idx + 4 <= j <= length wikitext
          /\ block = Str.slice wikitext idx j
          /\ Str.startswith block "{{" = true
          /\ Str.endswith block "}}" = true).
Proof.
  unfold extract_infobox_block, extract_infobox_block_loop.
  split; [now intros ->|].
  intros block H.
  destruct (Str.find wikitext _) as [idx|] eqn:Efind; [|discriminate].
  assert (Hopen : tok_at wikitext idx "{{" = true).
  { apply find_spec in Efind.
    apply (startswith_prefix _ ("{{" : str)) in Efind.
    unfold tok_at, Str.slice. replace (idx + 2 - idx) with 2 by lia.
    apply str_eqb_eq. exact (startswith_firstn _ ("{{" : str) Efind). }
  destruct (while_total
              (fun s => let '(i, _, ret) := s in
                 match ret with
                 | Some b => idx + 4 <= i <= length wikitext
                             /\ b = Str.slice wikitext idx i
                             /\ tok_at wikitext (i - 2) "}}" = true
                 | None => i = idx \/ idx + 2 <= i
                 end)
              (fun s => length wikitext - fst (fst s))
              (infobox_cond wikitext) (infobox_body wikitext idx))
    with (fuel := S (length wikitext)) (s := (idx, 0%Z, @None str))
    as ([[i d] ret] & Hw & Hinv & _).
  - intros [[i d] ret] Hinv Hc. cbn [infobox_cond] in Hc.
    apply andb_prop in Hc as [Hc Hret]. apply Nat.ltb_lt in Hc.
    destruct ret; [discriminate|]. unfold infobox_body.
    destruct (tok_at wikitext i "{{") eqn:E1.
    + eexists. split; [reflexivity|]. simpl. split; [lia | lia].
    + assert (Hi : idx + 2 <= i).
      { destruct Hinv as [->|Hi]; [congruence | exact Hi]. }
      destruct (tok_at wikitext i "}}") eqn:E2.
      * destruct (_ =? _)%Z; eexists; (split; [reflexivity|]); simpl;
          (split; [|lia]); [|lia].
        split; [lia|]. split; [reflexivity|].
        now replace (i + 2 - 2) with i by lia.
      * eexists. split; [reflexivity|]. simpl. split; lia.
  - now left.
  - simpl. lia.
  - rewrite Hw in H. subst ret. destruct Hinv as (Hi & -> & Hclose).
    exists idx, i. split; [reflexivity|]. split; [exact Hi|].
    split; [reflexivity|]. split.
    + rewrite (slice_split wikitext idx (idx + 2) i) by lia.
      rewrite (tok_at_slice _ _ _ Hopen). apply startswith_app.
    + rewrite (slice_split wikitext idx (i - 2) i) by lia.
      apply tok_at_slice in Hclose.
      replace (i - 2 + 2) with i in Hclose by lia. rewrite Hclose.
      unfold Str.endswith. rewrite rev_app_distr. apply startswith_app.
Qed.

(** the block of the band infobox inside a longer page *)
Lemma extract_infobox_block_slice_witness :
  exists idx j,
    Str.find ("Intro " ++ band_infobox ++ " more") "{{Infobox" = Some idx
    /\ idx + 4 <= j <= length ("Intro " ++ band_infobox ++ " more")
    /\ band_infobox = Str.slice ("Intro " ++ band_infobox ++ " more") idx j
    /\ Str.startswith band_infobox "{{" = true
    /\ Str.endswith band_infobox "}}" = true.
Proof.
  apply (proj2 (extract_infobox_block_slice
                  ("Intro " ++ band_infobox ++ " more") "Infobox")).
  vm_compute. reflexivity.
Defined.

(** ** The fields dict *)

(** X10: the keys of the mapping that [parse_infobox_fields] returns are
    pairwise different; of the parameters that set a key the last one
    gives the value; and a key that no parameter sets is absent. *)
Theorem parse_infobox_fields_last_wins (infobox_text : str) :
  NoDup (map fst (parse_infobox_fields infobox_text))
  /\ (forall before part after key,
        infobox_params infobox_text = before ++ part :: after ->
        names part key = true ->
        (forall q, In q after -> names q key = false) ->
        dict_get (parse_infobox_fields infobox_text) key
        = Some (snd (field_of part)))
  /\ (forall key,
        (forall q, In q (infobox_params infobox_text) -> names q key = false) ->
        dict_get (parse_infobox_fields infobox_text) key = None).
Proof.
  unfold parse_infobox_fields. split; [|split].
  - apply fold_add_field_NoDup. constructor.
  - intros before part after key -> Hpart Hafter.
    rewrite fold_left_app. cbn [fold_left].
    rewrite fold_add_field_unset by assumption.
    now rewrite add_field_get, Hpart.
  - intros key H. now rewrite fold_add_field_unset.
Qed.

(** a genre that is given twice *)
Lemma parse_infobox_fields_last_wins_witness :
  dict_get (parse_infobox_fields "{{Infobox band|genre=Rock|x|genre= Pop }}")
    "genre"
  = Some ("Pop" : str).
Proof.
  apply (proj1 (proj2 (parse_infobox_fields_last_wins
                         "{{Infobox band|genre=Rock|x|genre= Pop }}"))
           ["genre=Rock" : str; "x" : str] "genre= Pop" [] "genre").
  - vm_compute. reflexivity.
  - vm_compute. reflexivity.
  - intros q [].
Defined.

(** ** The line scan of [parse_partition] *)

Lemma parse_lines_app (sets : mention_sets) (l1 l2 : list str) :
  forall st,
    parse_lines sets st (l1 ++ l2)
    = parse_lines sets st l1
      ++ parse_lines sets (scan_state_after sets st l1) l2.
Proof.
  induction l1 as [|line l1 IH]; intros st; [reflexivity|].
  cbn [app parse_lines scan_state_after fold_left].
  destruct (scan_line sets st line) as [st' [row|]]; cbn [fst];
    rewrite IH; reflexivity.
Qed.

(** a line that opens a page makes the scan forget what came before *)
Lemma page_line_resets (sets : mention_sets) (st : scan_state)
    (line : str) (lines : list str) :
  Str.contains line "<page>" = true ->
  parse_lines sets st (line :: lines)
  = parse_lines sets scan_init (line :: lines).
Proof. intros H. cbn [parse_lines]. unfold scan_line. now rewrite H. Qed.

(** X11: the lines before a line that opens a page have no influence on
    the rows yielded from that line on: cut at such a line, the two parts
    of the input can be parsed apart and the rows put together. *)
Theorem parse_partition_cut_at_page (sets : mention_sets)
    (before : list str) (line : str) (after : list str) :
  Str.contains line "<page>" = true ->
  parse_partition sets (before ++ line :: after)
  = parse_partition sets before ++ parse_partition sets (line :: after).
Proof.
  intros H. unfold parse_partition. rewrite parse_lines_app.
  f_equal. now apply page_line_resets.
Qed.

(** a page that is cut off, followed by the page of the band *)
Lemma parse_partition_cut_at_page_witness :
  let sets := MentionSets ∅ ∅ {[ "sticky fingers" : str ]} ∅ in
  let cut := ["<page>" : str; "<title>Lost</title>" : str] in
  let page :=
    ["<title>Sticky Fingers (band)</title>" : str; "<ns>0</ns>" : str;
     "<text>[[Category:Rock bands]]</text>" : str; "</page>" : str] in
  parse_partition sets (cut ++ ("  <page>" : str) :: page)
  = parse_partition sets cut
    ++ parse_partition sets (("  <page>" : str) :: page).
Proof.
  intros sets cut page. apply parse_partition_cut_at_page. reflexivity.
Defined.

(** what [page_row] has checked of a row it yields *)
Lemma page_row_checked (sets : mention_sets) ttl redirect ns text row :
  page_row sets ttl redirect ns text = Some row ->
  title row <> []
  /\ Str.contains (Str.lower (title row)) "(disambiguation)" = false
  /\ In (entity_type row)
        (requested_types sets (normalize_title_variants (title row)))
  /\ In (title_norm row) (normalize_title_variants (title row)).
Proof.
  intros H. unfold page_row in H.
  destruct ttl as [[|c t]|]; try discriminate.
  destruct ns as [[|n]|]; try discriminate.
  destruct redirect; try discriminate.
  destruct (Str.contains _ _) eqn:Edis; try discriminate.
  destruct (requested_types sets (normalize_title_variants (c :: t)))
    as [|r rs] eqn:Hreq; try discriminate.
  destruct (with_fallback _ _) as [d|]; try discriminate.
  destruct (type_in d (r :: rs)) eqn:Hin; try discriminate.
  injection H as <-. cbn [title entity_type title_norm]. rewrite Hreq.
  split; [discriminate|]. split; [exact Edis|].
  split; [now apply type_in_In|].
  unfold normalize_title_variants.
  destruct (negb (Str.eqb _ (c :: t))); [|now left].
  destruct (negb (Str.eqb _ _)); [right; now left | now left].
Qed.

Lemma scan_line_row (sets : mention_sets) (st st' : scan_state)
    (line : str) (row : Row) :
  scan_line sets st line = (st', Some row) ->
  exists ttl redirect ns text, page_row sets ttl redirect ns text = Some row.
Proof.
  unfold scan_line. intros H.
  destruct (Str.contains line "<page>"); [discriminate|].
  destruct (in_page st); [|discriminate].
  destruct (Str.contains line "</page>"); [|discriminate].
  match type of H with
  | (if ?b then _ else _) = _ => destruct b; [discriminate|]
  end.
  injection H as _ H. eauto.
Qed.

Lemma parse_lines_rows (sets : mention_sets) (lines : list str) :
  forall st row,
    In row (parse_lines sets st lines) ->
    exists ttl redirect ns text, page_row sets ttl redirect ns text = Some row.
Proof.
  induction lines as [|line lines IH]; intros st row H; [destruct H|].
  cbn [parse_lines] in H.
  destruct (scan_line sets st line) as [st' [r|]] eqn:E.
  - destruct H as [<-|H]; [now apply scan_line_row in E | now apply IH in H].
  - now apply IH in H.
Qed.

(** X12: every row that [parse_partition] yields has a title that is not
    empty and does not hold "(disambiguation)" in any case, an entity
    type that is requested for a variant of the title, and as normalised
    title one of the variants of the title. *)
Theorem parse_partition_rows (sets : mention_sets) (lines : list str)
    (row : Row) :
  In row (parse_partition sets lines) ->
  title row <> []
  /\ Str.contains (Str.lower (title row)) "(disambiguation)" = false
  /\ (exists v, In v (normalize_title_variants (title row))
                /\ v ∈ mentions sets (entity_type row))
  /\ In (title_norm row) (normalize_title_variants (title row)).
Proof.
  intros H. apply parse_lines_rows in H as (ttl & redirect & ns & text & H).
  apply page_row_checked in H as (Ht & Hd & Hreq & Hnorm).
  repeat split; try assumption. now apply requested_types_In.
Qed.

Lemma parse_partition_rows_witness :
  let sets := MentionSets ∅ ∅ {[ "sticky fingers" : str ]} ∅ in
  let row := MkRow sticky_title "sticky fingers"
               ("<page>" ++ "<title>Sticky Fingers (band)</title>"
                ++ "<ns>0</ns>" ++ "<text>[[Category:Rock bands]]</text>"
                ++ "</page>") Artist in
  title row <> []
  /\ Str.contains (Str.lower (title row)) "(disambiguation)" = false
  /\ (exists v, In v (normalize_title_variants (title row))
                /\ v ∈ mentions sets (entity_type row))
  /\ In (title_norm row) (normalize_title_variants (title row)).
Proof.
  intros sets row.
  apply (parse_partition_rows sets
           ["<page>" : str; "<title>Sticky Fingers (band)</title>" : str;
            "<ns>0</ns>" : str; "<text>[[Category:Rock bands]]</text>" : str;
            "</page>" : str]).
  vm_compute. left. reflexivity.
Defined.

(** ** The record of a page *)

Lemma lower_space_id (c : ascii) : Chr.is_space c = true -> Chr.lower c = c.
Proof.
  destruct c as [[] [] [] [] [] [] [] []]; vm_compute;
    intros; reflexivity || discriminate.
Qed.

Lemma lstrip_map (p : ascii -> bool) (f : ascii -> ascii) (s : str) :
  (forall c, p (f c) = p c) ->
  Str.lstrip_by p (map f s) = map f (Str.lstrip_by p s).
Proof.
  intros Hf. induction s as [|c t IH]; [reflexivity|].
  cbn [map Str.lstrip_by]. rewrite Hf. now destruct (p c).
Qed.

Lemma strip_lower (s : str) :
  Str.strip (Str.lower s) = Str.lower (Str.strip s).
Proof.
  unfold Str.strip, Str.strip_by, Str.rstrip_by, Str.lower.
  rewrite (lstrip_map _ _ _ lower_space), <- map_rev.
  rewrite (lstrip_map _ _ _ lower_space). now rewrite map_rev.
Qed.

Lemma no_adj_unmap (cls : ascii -> bool) (f : ascii -> ascii) (s : str) :
  (forall c, cls (f c) = cls c) -> no_adj cls (map f s) -> no_adj cls s.
Proof.
  intros Hf H l1 a b l2 ->.
  specialize (H (map f l1) (f a) (f b) (map f l2)).
  rewrite !Hf in H. apply H. now rewrite map_app.
Qed.

(** a title whose lowercased and trimmed form is normalised already *)
Lemma normalize_title_plain (t : str) :
  normalised (Str.strip (Str.lower t)) ->
  normalize_title t = Str.strip (Str.lower t).
Proof.
  rewrite strip_lower. intros (_ & _ & _ & Hna & Honly).
  unfold normalize_title. f_equal. apply sub_spaces_id.
  - exact (no_adj_unmap _ _ _ lower_space Hna).
  - unfold Str.lower in Honly. rewrite Forall_map in Honly.
    eapply Forall_impl; [|exact Honly]. cbn beta. intros c Hc Hs.
    rewrite <- (lower_space_id c Hs). apply Hc. now rewrite lower_space.
Qed.

Lemma variants_normalised (t v : str) :
  In v (normalize_title_variants t) -> normalised v.
Proof.
  unfold normalize_title_variants.
  destruct (negb (Str.eqb _ t)).
  - destruct (negb (Str.eqb _ _)).
    + intros [<-|[<-|[]]]; apply normalize_title_normalised.
    + intros [<-|[]]; apply normalize_title_normalised.
  - intros [<-|[]]; apply normalize_title_normalised.
Qed.

Lemma Str_eqb_sym_false (a b : str) :
  Str.eqb a b = false -> Str.eqb b a = false.
Proof.
  intros H. apply str_eqb_neq. apply str_eqb_neq in H. congruence.
Qed.

Lemma process_title_norm (get : str -> option str) (row : Row)
    (page : wiki_page) :
  process_wiki_page get row = Ok page ->
  wp_title_norm page = Str.strip (Str.lower (title row)).
Proof.
  unfold process_wiki_page.
  destruct (_ || _); [now intros [= <-]|].
  destruct (Str.startswith _ _); [now intros [= <-]|].
  destruct (sections_of _ _ _) as [sections|]; [|discriminate].
  destruct (fields_of _ _ _) as [fields|]; [|discriminate].
  cbn [exc_bind]. now intros [= <-].
Qed.

(** X13: [process_wiki_page] takes the normalised title of the record it
    returns from the title anew and not from the row.  For a row of
    [parse_partition] the two agree exactly when the row has the
    normalised full title, not the variant without the clarifier, and
    lowercasing and trimming alone normalise the title. *)
Theorem process_wiki_page_key (get : str -> option str)
    (sets : mention_sets) (lines : list str) (row : Row)
    (page : wiki_page) :
  In row (parse_partition sets lines) ->
  process_wiki_page get row = Ok page ->
  wp_title_norm page = title_norm row
  <-> title_norm row = normalize_title (title row)
      /\ normalised (Str.strip (Str.lower (title row))).
Proof.
  intros H Hpage.
  apply parse_lines_rows in H as (ttl & redirect & ns & text & H).
  apply page_row_checked in H as (_ & _ & _ & Hnorm).
  apply variants_normalised in Hnorm.
  rewrite (process_title_norm get row page Hpage). split.
  - intros E. rewrite <- E in Hnorm. split; [|exact Hnorm].
    rewrite <- E. symmetry. now apply normalize_title_plain.
  - intros [E Hn]. rewrite E. symmetry. now apply normalize_title_plain.
Qed.

(** the page of the band: the row has "sticky fingers", the record
    "sticky fingers (band)" *)
Lemma process_wiki_page_key_witness :
  let sets := MentionSets ∅ ∅ {[ "sticky fingers" : str ]} ∅ in
  let row := MkRow sticky_title "sticky fingers"
               ("<page>" ++ "<title>Sticky Fingers (band)</title>"
                ++ "<ns>0</ns>" ++ "<text>[[Category:Rock bands]]</text>"
                ++ "</page>") Artist in
  let page := WikiPage sticky_title "sticky fingers (band)" (Some Artist)
                [] [] in
  process_wiki_page (fun _ => Some ("[[Category:Rock bands]]" : str)) row
  = Ok page
  /\ wp_title_norm page <> title_norm row.
Proof.
  intros sets row page. split; [vm_compute; reflexivity|]. intros E.
  apply (process_wiki_page_key
           (fun _ => Some ("[[Category:Rock bands]]" : str)) sets
           ["<page>" : str; "<title>Sticky Fingers (band)</title>" : str;
            "<ns>0</ns>" : str; "<text>[[Category:Rock bands]]</text>" : str;
            "</page>" : str] row page) in E.
  - destruct E as [E _]. vm_compute in E. discriminate E.
  - vm_compute. left. reflexivity.
  - vm_compute. reflexivity.
Defined.

Section PageParses.

Variable get : str -> option str.
Variable page_text wikitext : str.
Hypothesis parses : get page_text = Some wikitext.

Lemma extract_section_clean_ok (name : str) :
  extract_section_clean get page_text name
  = Ok (match find_section_block wikitext name with
        | None => None
        | Some raw => Some (clean_wikitext raw)
        end).
Proof using parses.
  unfold extract_section_clean, wikitext_of. rewrite parses. cbn [exc_bind].
  now destruct (find_section_block wikitext name).
Qed.

Lemma found_texts_ok (names : list str) :
  found_texts (extract_section_clean get page_text) names
  = Ok (omap (cleaned_section wikitext) names).
Proof using parses.
  induction names as [|n names IH]; [reflexivity|].
  cbn [found_texts omap list_omap]. rewrite extract_section_clean_ok, IH.
  cbn [exc_bind]. unfold cleaned_section.
  destruct (find_section_block wikitext n) as [raw|]; [|reflexivity].
  now destruct (clean_wikitext raw).
Qed.

Lemma fields_loop_ok (names : list str) :
  forall fields,
    fields_loop get page_text names fields
    = Ok (fold_left (store_field wikitext) names fields).
Proof using parses.
  induction names as [|n names IH]; intros fields; [reflexivity|].
  cbn [fields_loop fold_left].
  unfold extract_infobox_field_of_page, wikitext_of. rewrite parses.
  cbn [exc_bind]. rewrite IH. unfold store_field, cleaned_field.
  now destruct (extract_infobox_field_clean wikitext n) as [[|c v]|].
Qed.

End PageParses.

Lemma store_field_NoDup (wikitext : str) (names : list str) :
  forall fields,
    NoDup (map fst fields) ->
    NoDup (map fst (fold_left (store_field wikitext) names fields)).
Proof.
  induction names as [|n names IH]; intros fields H; [exact H|].
  cbn [fold_left]. apply IH. unfold store_field.
  destruct (cleaned_field wikitext n); [now apply dict_set_NoDup | exact H].
Qed.

Lemma store_field_get (wikitext : str) (names : list str) (k : str) :
  forall fields,
    dict_get (fold_left (store_field wikitext) names fields) k
    = match (if existsb (Str.eqb k) names then cleaned_field wikitext k
             else None) with
      | Some v => Some v
      | None => dict_get fields k
      end.
Proof.
  induction names as [|n names IH]; intros fields; [reflexivity|].
  cbn [fold_left existsb]. rewrite IH.
  destruct (Str.eqb k n) eqn:E; cbn [orb].
  - apply str_eqb_eq in E. subst n. unfold store_field.
    destruct (existsb (Str.eqb k) names);
      destruct (cleaned_field wikitext k) as [v|]; try reflexivity.
    now rewrite dict_get_set, str_eqb_refl.
  - destruct (existsb (Str.eqb k) names);
      [destruct (cleaned_field wikitext k); [reflexivity|] |];
      unfold store_field; destruct (cleaned_field wikitext n); try reflexivity;
      rewrite dict_get_set;
      (destruct (Str.eqb n k) eqn:E'; [|reflexivity]);
      apply str_eqb_eq in E'; subst n; now rewrite str_eqb_refl in E.
Qed.

Lemma sections_get (t : etype) (bio : str) (disc : option str) :
  let sections :=
    match disc with
    | Some v =>
        dict_set (match bio with
                  | [] => []
                  | _ => dict_set [] (bio_key t) bio
                  end) "discography" v
    | None =>
        match bio with
        | [] => []
        | _ => dict_set [] (bio_key t) bio
        end
    end in
  NoDup (map fst sections)
  /\ forall k,
       dict_get sections k
       = if Str.eqb k (bio_key t) then
           match bio with [] => None | _ => Some bio end
         else if Str.eqb k "discography" then disc
         else None.
Proof.
  cbn zeta.
  assert (Hkey : forall k, Str.eqb k (bio_key t) = true ->
                           Str.eqb k "discography" = false).
  { intros k E. apply str_eqb_eq in E. subst k. now destruct t. }
  assert (Hbio : forall k,
             dict_get (match bio with
                       | [] => []
                       | _ => dict_set [] (bio_key t) bio
                       end) k
             = if Str.eqb k (bio_key t) then
                 match bio with [] => None | _ => Some bio end
               else None).
  { intros k. destruct bio as [|c bio'].
    - cbn [dict_get]. now destruct (Str.eqb k _).
    - rewrite dict_get_set. cbn [dict_get].
      destruct (Str.eqb (bio_key t) k) eqn:E.
      + apply str_eqb_eq in E. subst k. now rewrite str_eqb_refl.
      + now rewrite (Str_eqb_sym_false _ _ E). }
  assert (Hnd : NoDup (map fst (match bio with
                                | [] => []
                                | _ => dict_set [] (bio_key t) bio
                                end))).
  { destruct bio; [constructor | apply dict_set_NoDup; constructor]. }
  destruct disc as [v|].
  - split; [now apply dict_set_NoDup|]. intros k.
    rewrite dict_get_set, Hbio.
    destruct (Str.eqb k (bio_key t)) eqn:E.
    + now rewrite (Str_eqb_sym_false _ _ (Hkey k E)).
    + destruct (Str.eqb k "discography") eqn:E'.
      * apply str_eqb_eq in E'. subst k. now rewrite str_eqb_refl.
      * now rewrite (Str_eqb_sym_false _ _ E').
  - split; [exact Hnd|]. intros k. rewrite Hbio.
    destruct (Str.eqb k (bio_key t)); [reflexivity|].
    now destruct (Str.eqb k "discography").
Qed.

(** X14: what [process_wiki_page] does with a row.  On a page whose text
    holds "may refer to" or "{{disambiguation" or starts with "#redirect",
    in any case, it returns the record of the unknown type without
    sections and fields, and does not read the page.  On every other page
    it raises when [get_wikitext_from_page] raises, and otherwise returns
    a record with the title, the type of the row, sections and fields
    with pairwise different names, where the field stored under a name is
    the cleaned value of that field of the infobox if the name is listed
    for the type and the value is not empty, and the sections are the
    biography, the non-empty cleaned sections of the type joined by an
    empty line, if that is not empty, and for an artist the discography,
    if that is not empty. *)
Theorem process_wiki_page_record (get : str -> option str) (row : Row) :
  let t := entity_type row in
  let text := Str.lower (page_text row) in
  if Str.contains text "may refer to"
     || Str.contains text "{{disambiguation"
     || Str.startswith text "#redirect"
  then process_wiki_page get row = Ok (unknown_page row)
  else
    match get (page_text row) with
    | None => process_wiki_page get row = Raised
    | Some wikitext =>
        exists sections fields,
          process_wiki_page get row
          = Ok (WikiPage (title row) (Str.strip (Str.lower (title row)))
                  (Some t) sections fields)
          /\ NoDup (map fst fields)
          /\ (forall k,
                dict_get fields k
                = if existsb (Str.eqb k) (infobox_field_names t)
                  then cleaned_field wikitext k
                  else None)
          /\ NoDup (map fst sections)
          /\ (forall k,
                dict_get sections k
                = if Str.eqb k (bio_key t) then
                    match Str.join (nl ++ nl)
                            (omap (cleaned_section wikitext) (bio_sections t))
                    with
                    | [] => None
                    | bio => Some bio
                    end
                  else if Str.eqb k "discography" then
                    match t with
                    | Artist => cleaned_section wikitext "Discography"
                    | _ => None
                    end
                  else None)
    end.
Proof.
  cbn zeta. unfold process_wiki_page, unknown_page.
  destruct (Str.contains (Str.lower (page_text row)) "may refer to"
            || Str.contains (Str.lower (page_text row)) "{{disambiguation");
    cbn [orb]; [reflexivity|].
  destruct (Str.startswith (Str.lower (page_text row)) "#redirect");
    [reflexivity|].
  destruct (get (page_text row)) as [wikitext|] eqn:Hget.
  2:{ unfold sections_of.
      destruct (entity_type row); cbn [bio_sections found_texts];
        unfold extract_section_clean, wikitext_of; rewrite Hget; reflexivity. }
  unfold sections_of, fields_of.
  rewrite (found_texts_ok get _ _ Hget), (fields_loop_ok get _ _ Hget).
  cbn [exc_bind].
  set (fields := fold_left (store_field wikitext)
                   (infobox_field_names (entity_type row)) []).
  assert (Hfields : NoDup (map fst fields)
                    /\ forall k,
                         dict_get fields k
                         = if existsb (Str.eqb k)
                                (infobox_field_names (entity_type row))
                           then cleaned_field wikitext k
                           else None).
  { split; [apply store_field_NoDup; constructor|].
    intros k. unfold fields. rewrite store_field_get.
    now destruct (if existsb _ _ then _ else _). }
  destruct Hfields as [Hnd Hget_fields].
  pose proof (sections_get (entity_type row)
                (Str.join (nl ++ nl)
                   (omap (cleaned_section wikitext)
                      (bio_sections (entity_type row))))) as Hsec.
  cbn zeta in Hsec.
  destruct (Str.join (nl ++ nl)
              (omap (cleaned_section wikitext)
                 (bio_sections (entity_type row)))) as [|c bio];
    destruct (entity_type row) eqn:Et;
    try (eexists _, fields; split; [reflexivity|];
         split; [exact Hnd|]; split; [exact Hget_fields|];
         split; [apply (proj1 (Hsec None))
                | intros k; apply (proj2 (Hsec None) k)]);
    rewrite (extract_section_clean_ok get _ _ Hget); cbn [exc_bind];
    unfold cleaned_section in *;
    (destruct (find_section_block wikitext "Discography") as [raw|];
     [destruct (clean_wikitext raw) as [|d disc]|]);
    eexists _, fields; (split; [reflexivity|]);
    (split; [exact Hnd|]); (split; [exact Hget_fields|]);
    first [ split; [apply (proj1 (Hsec (Some (d :: disc))))
                   | intros k; apply (proj2 (Hsec (Some (d :: disc))) k)]
          | split; [apply (proj1 (Hsec None))
                   | intros k; apply (proj2 (Hsec None) k)] ].
Qed.

(** ** Where a match ends *)

Lemma rep_greedy_sound {A} (cls : ascii -> bool) (k : cont A) (g : caps)
    (res : A) :
  forall rest lo hi pre,
    rep_greedy cls lo hi pre rest g k = Some res ->
    exists x s, rest = x ++ s /\ k (rev x ++ pre) s g = Some res.
Proof.
  induction rest as [|c t IH]; intros lo hi pre H; cbn [rep_greedy] in H.
  - destruct lo; [|discriminate]. now exists [], [].
  - destruct (cls c && hi_allows hi).
    + destruct (rep_greedy cls (Nat.pred lo) (hi_pred hi) (c :: pre) t g k)
        as [y|] eqn:E.
      * injection H as ->. apply IH in E as (x & s & -> & E).
        exists (c :: x), s. split; [reflexivity|].
        cbn [rev]. now rewrite <- app_assoc.
      * destruct lo; [|discriminate]. now exists [], (c :: t).
    + destruct lo; [|discriminate]. now exists [], (c :: t).
Qed.

Lemma rep_lazy_sound {A} (cls : ascii -> bool) (k : cont A) (g : caps)
    (res : A) :
  forall rest lo hi pre,
    rep_lazy cls lo hi pre rest g k = Some res ->
    exists x s, rest = x ++ s /\ k (rev x ++ pre) s g = Some res.
Proof.
  assert (Hmore : forall c t lo hi pre,
             (forall lo hi pre,
                rep_lazy cls lo hi pre t g k = Some res ->
                exists x s, t = x ++ s /\ k (rev x ++ pre) s g = Some res) ->
             (if cls c && hi_allows hi
              then rep_lazy cls (Nat.pred lo) (hi_pred hi) (c :: pre) t g k
              else None) = Some res ->
             exists x s, c :: t = x ++ s /\ k (rev x ++ pre) s g = Some res).
  { intros c t lo hi pre IH H.
    destruct (cls c && hi_allows hi); [|discriminate].
    apply IH in H as (x & s & -> & H). exists (c :: x), s.
    split; [reflexivity|]. cbn [rev]. now rewrite <- app_assoc. }
  induction rest as [|c t IH]; intros lo hi pre H.
  - destruct lo; cbn in H; [|discriminate].
    destruct (k pre [] g) eqn:E; [|discriminate].
    injection H as ->. now exists [], [].
  - destruct lo; cbn [rep_lazy] in H.
    + destruct (k pre (c :: t) g) eqn:E.
      * injection H as ->. now exists [], (c :: t).
      * now apply (Hmore c t 0 hi pre IH).
    + now apply (Hmore c t (S lo) hi pre IH).
Qed.

Lemma startswith_split (s v : str) :
  Str.startswith s v = true -> s = v ++ skipn (length v) s.
Proof.
  revert s. induction v as [|x v IH]; intros s H; [reflexivity|].
  destruct s as [|y s]; [discriminate|]. cbn in H.
  apply andb_prop in H as [Hx Hv]. apply Ascii.eqb_eq in Hx. subst y.
  cbn. f_equal. now apply IH.
Qed.

(** a match reads a piece of the text from its start on, and the
    continuation goes on behind this piece *)
Lemma run_sound {A} (r : re) :
  forall pre rest g (k : cont A) res,
    run r pre rest g k = Some res ->
    exists x s g', rest = x ++ s /\ k (rev x ++ pre) s g' = Some res.
Proof.
  induction r as [|cls|cls lo hi greedy|r1 IH1 r2 IH2|r1 IH1 r2 IH2|n r1 IH1
                 |n|ml|ml| |cls];
    intros pre rest g k res H; cbn [run] in H.
  - now exists [], rest, g.
  - destruct rest as [|c t]; [discriminate|].
    destruct (cls c); [|discriminate]. now exists [c], t, g.
  - destruct greedy.
    + apply rep_greedy_sound in H as (x & s & -> & H). now exists x, s, g.
    + apply rep_lazy_sound in H as (x & s & -> & H). now exists x, s, g.
  - apply IH1 in H as (x1 & s1 & g1 & -> & H).
    apply IH2 in H as (x2 & s2 & g2 & -> & H).
    exists (x1 ++ x2), s2, g2. split; [now rewrite app_assoc|].
    now rewrite rev_app_distr, <- app_assoc.
  - destruct (run r1 pre rest g k) as [y|] eqn:E.
    + injection H as ->. now apply IH1 in E.
    + now apply IH2 in H.
  - apply IH1 in H as (x & s & g' & -> & H). eauto.
  - destruct (group n g) as [v|]; [|discriminate].
    destruct (Str.startswith rest v) eqn:E; [|discriminate].
    exists v, (skipn (length v) rest), g.
    split; [now apply startswith_split | exact H].
  - destruct (at_bol ml pre); [|discriminate]. now exists [], rest, g.
  - destruct (at_eol ml rest); [|discriminate]. now exists [], rest, g.
  - destruct (at_wordb pre rest); [|discriminate]. now exists [], rest, g.
  - destruct pre as [|c pre'].
    + now exists [], rest, g.
    + destruct (cls c); [discriminate|]. now exists [], rest, g.
Qed.

Lemma consumed_app (pre x : str) : consumed pre (rev x ++ pre) = x.
Proof.
  unfold consumed. rewrite length_app, Nat.add_sub.
  rewrite firstn_app, Nat.sub_diag, firstn_all. cbn [firstn].
  now rewrite app_nil_r, rev_involutive.
Qed.

(** the text of a match is the piece of the text at its start, as long
    as the match *)
Lemma match_here_text (r : re) (pre rest : str) (m : match_obj) :
  match_here r pre rest = Some m ->
  exists x s, rest = x ++ s /\ m_text m = x
              /\ m_end m - m_start m = length x.
Proof.
  unfold match_here. intros H.
  apply run_sound in H as (x & s & g' & -> & H). injection H as <-.
  exists x, s. cbn [m_text m_end m_start].
  rewrite consumed_app, length_app, length_rev, Nat.add_sub. auto.
Qed.

(** ** Headings on their own line *)

Lemma adds_refl (s : str) : adds_newlines s s.
Proof. induction s; constructor; assumption. Qed.

Lemma adds_app (x s t : str) :
  adds_newlines s t -> adds_newlines (x ++ s) (x ++ t).
Proof. intros H. induction x; [exact H | now constructor]. Qed.

Lemma skipn_length_app (x s : str) : skipn (length x) (x ++ s) = s.
Proof. induction x; [reflexivity | assumption]. Qed.

(** a replacement that puts a line break before each match *)
Lemma sub_go_adds (r : re) (repl : match_obj -> str) :
  (forall pre rest m,
     match_here r pre rest = Some m ->
     exists x s, rest = x ++ s /\ repl m = NL :: x
                 /\ m_end m - m_start m = length x) ->
  forall rest skip pre,
    adds_newlines (skipn skip rest) (sub_go r repl skip pre rest).
Proof.
  intros Hm. induction rest as [|c t IH]; intros skip pre.
  - destruct skip; cbn [sub_go skipn]; [|constructor].
    destruct (match_here r pre []) as [m|] eqn:E; [|constructor].
    apply Hm in E as (x & s & Hxs & Hrepl & Hlen).
    symmetry in Hxs. apply app_eq_nil in Hxs as [-> ->].
    rewrite Hlen, Hrepl. cbn. repeat constructor.
  - destruct skip; cbn [sub_go skipn]; [|apply IH].
    destruct (match_here r pre (c :: t)) as [m|] eqn:E.
    + apply Hm in E as (x & s & Hxs & Hrepl & Hlen).
      rewrite Hlen, Hrepl. destruct x as [|y x]; cbn [length app].
      * constructor. constructor. apply (IH 0).
      * cbn [app] in Hxs. injection Hxs as <- ->.
        constructor. constructor. apply adds_app.
        specialize (IH (length x) (c :: pre)).
        now rewrite skipn_length_app in IH.
    + cbn [app]. constructor. apply (IH 0).
Qed.

Lemma heading_inline_match (pre rest : str) (m : match_obj) :
  match_here re_heading_inline pre rest = Some m ->
  exists x s, rest = x ++ s /\ nl ++ m_group 1 m = NL :: x
              /\ m_end m - m_start m = length x.
Proof.
  intros H.
  destruct (match_here_text _ _ _ _ H) as (x & s & Hxs & Htext & Hlen).
  exists x, s. split; [exact Hxs|]. split; [|exact Hlen].
  cbn [nl app]. f_equal. rewrite <- Htext. clear Hxs Htext Hlen.
  unfold match_here, re_heading_inline in H. cbn [seqs fold_right] in H.
  cbn [run] in H.
  assert (Hin : forall k0 : cont match_obj,
            k0 = (fun p _ g =>
                    Some (MatchObj (length pre) (length p) g (consumed pre p))) ->
            run (Seq re_equals (Seq (plus title_char) (Seq re_equals Eps)))
              pre rest []
              (fun p s g' => k0 p s ((1, consumed pre p) :: g')) = Some m ->
            m_group 1 m = m_text m).
  { intros k0 -> H'. apply run_sound in H' as (y & s' & g' & _ & H').
    injection H' as <-. reflexivity. }
  destruct pre as [|c pre'].
  - now apply (Hin _ eq_refl).
  - destruct (chr NL c); [discriminate|]. now apply (Hin _ eq_refl).
Qed.

(** X15: [normalize_headings] changes a text by putting in line breaks
    only: no character is dropped or changed, and nothing but line breaks
    is added. *)
Theorem normalize_headings_adds_newlines (wikitext : str) :
  adds_newlines wikitext (normalize_headings wikitext).
Proof.
  unfold normalize_headings, sub_fn.
  apply (sub_go_adds re_heading_inline (fun m => nl ++ m_group 1 m)
           heading_inline_match wikitext 0 []).
Qed.

(** ** What the normalisation keeps *)

Lemma nonspace_app (a b : str) : nonspace (a ++ b) = nonspace a ++ nonspace b.
Proof. apply filter_app. Qed.

Lemma nonspace_rev (s : str) : nonspace (rev s) = rev (nonspace s).
Proof.
  induction s as [|c t IH]; [reflexivity|].
  unfold nonspace in *. cbn [rev]. rewrite filter_app, IH. cbn [filter].
  destruct (Chr.is_space c); cbn [negb rev];
    [now rewrite app_nil_r | reflexivity].
Qed.

Lemma nonspace_lstrip (s : str) :
  nonspace (Str.lstrip_by Chr.is_space s) = nonspace s.
Proof.
  induction s as [|c t IH]; [reflexivity|].
  cbn [Str.lstrip_by]. destruct (Chr.is_space c) eqn:E; [|reflexivity].
  rewrite IH. unfold nonspace. cbn [filter]. now rewrite E.
Qed.

Lemma nonspace_strip (s : str) : nonspace (Str.strip s) = nonspace s.
Proof.
  unfold Str.strip, Str.strip_by, Str.rstrip_by.
  rewrite nonspace_rev, nonspace_lstrip, nonspace_rev, rev_involutive.
  apply nonspace_lstrip.
Qed.

Lemma nonspace_skip_run (s : str) :
  nonspace (skipn (run_len Chr.is_space s) s) = nonspace s.
Proof.
  induction s as [|c t IH]; [reflexivity|].
  cbn [run_len]. destruct (Chr.is_space c) eqn:E; [|reflexivity].
  cbn [skipn]. rewrite IH. unfold nonspace. cbn [filter]. now rewrite E.
Qed.

Lemma nonspace_squeeze (n : nat) :
  forall pre rest,
    length rest <= n ->
    nonspace (sub_go re_spaces (fun _ => [" "%char]) 0 pre rest)
    = nonspace rest.
Proof.
  induction n as [|n IH]; intros pre rest Hn.
  - destruct rest; [|cbn in Hn; lia].
    now rewrite (squeeze_nil Chr.is_space 1 " "%char) by lia.
  - destruct rest as [|c t].
    + now rewrite (squeeze_nil Chr.is_space 1 " "%char) by lia.
    + change re_spaces with (Rep Chr.is_space 1 None true).
      rewrite squeeze_cons by lia.
      destruct (1 <=? run_len Chr.is_space (c :: t)) eqn:E.
      * apply Nat.leb_le in E.
        change (nonspace (" "%char :: ?x)) with (nonspace x).
        rewrite <- (nonspace_skip_run (c :: t)). apply IH.
        rewrite length_skipn. cbn [length] in *. lia.
      * apply Nat.leb_gt in E.
        assert (Hc : Chr.is_space c = false).
        { cbn [run_len] in E. destruct (Chr.is_space c); [lia | reflexivity]. }
        unfold nonspace. cbn [filter]. rewrite Hc. cbn [negb]. f_equal.
        apply IH. cbn [length] in Hn. lia.
Qed.

Lemma nonspace_lower (s : str) :
  nonspace (Str.lower s) = Str.lower (nonspace s).
Proof.
  unfold nonspace, Str.lower. induction s as [|c t IH]; [reflexivity|].
  cbn [map filter]. rewrite lower_space.
  destruct (Chr.is_space c); cbn [negb map]; now rewrite IH.
Qed.

(** X16: [normalize_title] touches whitespace and case only: the
    characters of the result that are not whitespace are those of the
    title, in order, lowercased. *)
Theorem normalize_title_nonspace (s : str) :
  nonspace (normalize_title s) = Str.lower (nonspace s).
Proof.
  unfold normalize_title. rewrite nonspace_lower. f_equal.
  unfold sub, sub_fn.
  rewrite (nonspace_squeeze (length (Str.strip s))) by lia.
  apply nonspace_strip.
Qed.

(** ** The title without its clarifier *)

Section Greedy.

Context {A : Type}.
Variable cls : ascii -> bool.
Variable k : cont A.
Variable g : caps.

(** the greedy repetition returns what the continuation returns behind
    the whole run, if this succeeds *)
Lemma rep_greedy_max (res : A) (s : str) :
  hd_in cls s = false ->
  forall x lo pre,
    forallb cls x = true ->
    lo <= length x ->
    k (rev x ++ pre) s g = Some res ->
    rep_greedy cls lo None pre (x ++ s) g k = Some res.
Proof.
  intros Hs. induction x as [|a x IH]; intros lo pre Hx Hlo Hk.
  - cbn [length] in Hlo. assert (lo = 0) as -> by lia. cbn [app rev] in *.
    destruct s as [|c t]; cbn [rep_greedy]; [exact Hk|].
    cbn [hd_in] in Hs. rewrite Hs. exact Hk.
  - cbn [forallb] in Hx. apply andb_prop in Hx as [Ha Hx].
    cbn [app rep_greedy]. rewrite Ha. cbn [andb hi_allows hi_pred].
    rewrite (IH (Nat.pred lo) (a :: pre)); [reflexivity | exact Hx | |].
    + cbn [length] in Hlo. lia.
    + cbn [rev] in Hk. now rewrite <- app_assoc in Hk.
Qed.

(** the greedy repetition fails if the continuation fails behind every
    piece of the run *)
Lemma rep_greedy_fails :
  forall rest lo hi pre,
    (forall x s, rest = x ++ s -> forallb cls x = true ->
                 k (rev x ++ pre) s g = None) ->
    rep_greedy cls lo hi pre rest g k = None.
Proof.
  induction rest as [|c t IH]; intros lo hi pre Hk.
  - cbn [rep_greedy]. destruct lo; [|reflexivity]. now apply (Hk [] []).
  - assert (Hstop : match lo with 0 => k pre (c :: t) g | S _ => None end
                    = None).
    { destruct lo; [|reflexivity]. now apply (Hk [] (c :: t)). }
    cbn [rep_greedy]. destruct (cls c) eqn:Hc; cbn [andb]; [|exact Hstop].
    destruct (hi_allows hi); [|exact Hstop].
    rewrite IH; [exact Hstop|].
    intros x s -> Hx. specialize (Hk (c :: x) s eq_refl).
    cbn [forallb rev] in Hk. rewrite Hc, <- app_assoc in Hk. now apply Hk.
Qed.

End Greedy.

(** one match that takes the whole text *)
Lemma sub_go_whole (r : re) (repl : match_obj -> str) (pre rest : str)
    (m : match_obj) :
  match_here r pre rest = Some m ->
  m_end m - m_start m = length rest ->
  1 <= length rest ->
  match_here r (rev rest ++ pre) [] = None ->
  sub_go r repl 0 pre rest = repl m.
Proof.
  intros Hm Hlen Hne Hnil. destruct rest as [|c t]; [cbn in Hne; lia|].
  cbn [sub_go]. rewrite Hm, Hlen. cbn [length].
  rewrite sub_go_skip by lia. rewrite firstn_all, skipn_all.
  cbn [sub_go]. cbn [rev] in Hnil. rewrite <- app_assoc in Hnil.
  cbn [app] in Hnil. rewrite Hnil. now rewrite app_nil_r.
Qed.

(** behind whitespace inside a text that does not end in whitespace comes
    a character of the text *)
Lemma space_run_inside (u : str) :
  1 <= length u -> last_in Chr.is_space u = false ->
  forall tail x s,
    u ++ tail = x ++ s -> forallb Chr.is_space x = true ->
    exists c s', s = c :: s' /\ In c u.
Proof.
  induction u as [|c u IH]; intros Hne Hlast tail x s E Hx;
    [cbn in Hne; lia|].
  destruct x as [|y x].
  - cbn [app] in E. subst s. exists c, (u ++ tail). split; [reflexivity|].
    now left.
  - cbn [app] in E. injection E as <- E.
    cbn [forallb] in Hx. apply andb_prop in Hx as [Hy Hx].
    destruct u as [|d u]; [cbn in Hlast; congruence|].
    rewrite last_in_cons in Hlast by discriminate.
    destruct (IH ltac:(cbn; lia) Hlast tail x s E Hx) as (c' & s' & -> & Hin).
    exists c', s'. split; [reflexivity | now right].
Qed.

Lemma clarifier_fails (u tail pre : str) :
  1 <= length u -> last_in Chr.is_space u = false ->
  free_of (chr "(") u ->
  match_here re_clarifier pre (u ++ tail) = None.
Proof.
  intros Hne Hlast Hfree. unfold match_here, re_clarifier, star.
  cbn [seqs fold_right run]. apply rep_greedy_fails. intros x s E Hx.
  destruct (space_run_inside u Hne Hlast tail x s E Hx)
    as (c & s' & -> & Hin).
  unfold free_of in Hfree. rewrite Forall_forall in Hfree.
  specialize (Hfree c Hin). unfold lit.
  cbn [map list_ascii_of_string seqs fold_right run]. now rewrite Hfree.
Qed.

Lemma clarifier_nil (pre : str) : match_here re_clarifier pre [] = None.
Proof. reflexivity. Qed.

Lemma clarifier_matches (pre ws q ws2 : str) :
  forallb Chr.is_space ws = true ->
  1 <= length q ->
  forallb (noneof ")") q = true ->
  forallb Chr.is_space ws2 = true ->
  exists m,
    match_here re_clarifier pre (ws ++ "(" ++ q ++ ")" ++ ws2) = Some m
    /\ m_end m - m_start m = length (ws ++ "(" ++ q ++ ")" ++ ws2).
Proof.
  intros Hws Hq Hq' Hws2. eexists. split.
  - unfold match_here, re_clarifier, star, plus, lit.
    cbn [seqs fold_right run map list_ascii_of_string app].
    apply rep_greedy_max; [reflexivity | exact Hws | lia |].
    cbn [Ascii.eqb Bool.eqb chr].
    apply rep_greedy_max; [reflexivity | exact Hq' | exact Hq |].
    cbn [Ascii.eqb Bool.eqb chr].
    match goal with
    | |- rep_greedy ?cls ?lo None ?p ws2 ?g ?k = _ =>
        apply (eq_trans
                 (f_equal (fun z => rep_greedy cls lo None p z g k)
                    (eq_sym (app_nil_r ws2))))
    end.
    apply rep_greedy_max; [reflexivity | exact Hws2 | lia |].
    cbn [at_eol]. reflexivity.
  - cbn [m_end m_start list_ascii_of_string app].
    rewrite !length_app. cbn [length]. rewrite !length_app, !length_rev.
    cbn [length]. rewrite !length_app, !length_rev. cbn [length]. lia.
Qed.

(** the substitution takes the clarifier and the whitespace around it *)
Lemma sub_clarifier (base ws q ws2 : str) :
  free_of (chr "(") base ->
  last_in Chr.is_space base = false ->
  forallb Chr.is_space ws = true ->
  1 <= length q ->
  forallb (noneof ")") q = true ->
  forallb Chr.is_space ws2 = true ->
  sub re_clarifier "" (base ++ ws ++ "(" ++ q ++ ")" ++ ws2) = base.
Proof.
  intros Hfree Hlast Hws Hq Hq' Hws2. unfold sub, sub_fn.
  generalize (@nil ascii) as pre.
  induction base as [|c b IH]; intros pre.
  - cbn [app]. destruct (clarifier_matches pre ws q ws2 Hws Hq Hq' Hws2)
      as (m & Hm & Hlen).
    rewrite (sub_go_whole _ _ _ _ m Hm Hlen); [reflexivity | | apply clarifier_nil].
    rewrite length_app. cbn [list_ascii_of_string app length]. lia.
  - change ((c :: b) ++ ws ++ "(" ++ q ++ ")" ++ ws2)
      with (c :: (b ++ ws ++ "(" ++ q ++ ")" ++ ws2)).
    cbn [sub_go].
    pose proof (clarifier_fails (c :: b) (ws ++ "(" ++ q ++ ")" ++ ws2) pre
                  ltac:(cbn; lia) Hlast Hfree) as Hnone.
    change ((c :: b) ++ ws ++ "(" ++ q ++ ")" ++ ws2)
      with (c :: (b ++ ws ++ "(" ++ q ++ ")" ++ ws2)) in Hnone.
    rewrite Hnone. cbn [app]. f_equal. apply IH.
    + now inversion Hfree.
    + destruct b as [|d b]; [reflexivity|].
      now rewrite last_in_cons in Hlast by discriminate.
Qed.

Lemma lower_paren (c : ascii) : Chr.lower c = "("%char -> c = "("%char.
Proof.
  destruct c as [[] [] [] [] [] [] [] []]; vm_compute;
    intros; reflexivity || discriminate.
Qed.

(** X17: a title made of a base without an opening parenthesis that does
    not end in whitespace, then whitespace (or none), a clarifier in
    parentheses and whitespace (or none) has two variants: the normalised
    title and the normalised base. *)
Theorem normalize_title_variants_clarifier (base ws q ws2 : str) :
  Str.contains base "(" = false ->
  last_in Chr.is_space base = false ->
  forallb Chr.is_space ws = true ->
  1 <= length q ->
  Str.contains q ")" = false ->
  forallb Chr.is_space ws2 = true ->
  let title := base ++ ws ++ "(" ++ q ++ ")" ++ ws2 in
  sub re_clarifier "" title = base
  /\ normalize_title_variants title
     = [normalize_title title; normalize_title base].
Proof.
  intros Hfree Hlast Hws Hq Hq' Hws2 title.
  apply (contains_chr_false "("%char) in Hfree.
  apply (contains_chr_false ")"%char) in Hq'.
  assert (Hnone : forallb (noneof ")") q = true).
  { apply forallb_forall. intros c Hc. unfold free_of in Hq'.
    rewrite Forall_forall in Hq'. specialize (Hq' c Hc).
    unfold noneof, Str.mem. cbn [existsb list_ascii_of_string].
    unfold chr in Hq'.
    rewrite Ascii.eqb_sym, Hq'. reflexivity. }
  assert (Hsub : sub re_clarifier "" title = base)
    by now apply sub_clarifier.
  split; [exact Hsub|].
  unfold normalize_title_variants. rewrite Hsub.
  assert (Hne : Str.eqb base title = false).
  { apply str_eqb_neq. intros E. apply (f_equal (@length ascii)) in E.
    unfold title in E. rewrite !length_app in E. cbn [length] in E. lia. }
  rewrite Hne. cbn [negb].
  assert (Hdiff : Str.eqb (normalize_title base) (normalize_title title)
                  = false).
  { apply str_eqb_neq. intros E. apply (f_equal nonspace) in E.
    assert (Hkeep : forall s,
               nonspace (normalize_title s) = Str.lower (nonspace s)).
    { intros s. unfold normalize_title, sub, sub_fn.
      rewrite nonspace_lower.
      rewrite (nonspace_squeeze (length (Str.strip s))) by lia.
      now rewrite nonspace_strip. }
    rewrite !Hkeep in E.
    assert (Hin : In "("%char (Str.lower (nonspace title))).
    { unfold Str.lower. apply in_map_iff. exists "("%char.
      split; [reflexivity|]. unfold nonspace. apply filter_In.
      split; [|reflexivity]. unfold title.
      apply in_or_app. right. apply in_or_app. right. now left. }
    rewrite <- E in Hin. unfold Str.lower in Hin.
    apply in_map_iff in Hin as (c & Hc & Hin). apply lower_paren in Hc.
    subst c. unfold nonspace in Hin. apply filter_In in Hin as [Hin _].
    unfold free_of in Hfree. rewrite Forall_forall in Hfree.
    specialize (Hfree _ Hin). discriminate Hfree. }
  rewrite Hdiff. reflexivity.
Qed.

Lemma normalize_title_variants_clarifier_witness :
  sub re_clarifier "" ("Sticky Fingers" ++ " " ++ "(" ++ "band" ++ ")" ++ [])
  = "Sticky Fingers"
  /\ normalize_title_variants
       ("Sticky Fingers" ++ " " ++ "(" ++ "band" ++ ")" ++ [])
     = [normalize_title
          ("Sticky Fingers" ++ " " ++ "(" ++ "band" ++ ")" ++ []);
        normalize_title "Sticky Fingers"].
Proof.
  apply (normalize_title_variants_clarifier "Sticky Fingers" " " "band" []);
    try reflexivity.
  simpl. lia.
Defined.

(** ** A section of level two *)

Lemma sub_go_cons_none (r : re) (repl : match_obj -> str) (pre : str)
    (c : ascii) (t : str) :
  match_here r pre (c :: t) = None ->
  sub_go r repl 0 pre (c :: t) = c :: sub_go r repl 0 (c :: pre) t.
Proof. intros H. cbn [sub_go]. now rewrite H. Qed.

(** passing over a piece of text at whose characters no match starts *)
Lemma sub_go_pass (r : re) (repl : match_obj -> str) (P : ascii -> bool) :
  (forall pre c t, P c = false -> match_here r pre (c :: t) = None) ->
  forall u pre tail,
    free_of P u ->
    sub_go r repl 0 pre (u ++ tail) = u ++ sub_go r repl 0 (rev u ++ pre) tail.
Proof.
  intros Hnone. induction u as [|c u IH]; intros pre tail Hu; [reflexivity|].
  inversion Hu as [|? ? Hc Hu']; subst.
  cbn [app]. rewrite sub_go_cons_none by now apply Hnone.
  rewrite IH by assumption. cbn [rev]. now rewrite <- app_assoc.
Qed.

Lemma heading_first (pre : str) (c : ascii) (t : str) :
  chr "=" c = false -> match_here re_heading_inline pre (c :: t) = None.
Proof.
  intros Hc. unfold match_here, re_heading_inline, re_equals.
  cbn [seqs fold_right run].
  destruct pre as [|p pre']; [|destruct (chr NL p); [reflexivity|]];
    cbn [rep_greedy]; now rewrite Hc.
Qed.

Lemma heading_behind_nl (pre rest : str) :
  match_here re_heading_inline (NL :: pre) rest = None.
Proof. reflexivity. Qed.

Lemma heading_one_equals (pre : str) (c : ascii) (t : str) :
  chr "=" c = false ->
  match_here re_heading_inline pre ("="%char :: c :: t) = None.
Proof.
  intros Hc. unfold match_here, re_heading_inline, re_equals.
  cbn [seqs fold_right run].
  destruct pre as [|p pre']; [|destruct (chr NL p); [reflexivity|]];
    cbn [rep_greedy]; rewrite Hc; reflexivity.
Qed.

Lemma heading_no_title (pre t : str) :
  match_here re_heading_inline pre ("="%char :: "="%char :: NL :: t) = None.
Proof.
  unfold match_here, re_heading_inline, re_equals.
  cbn [seqs fold_right run].
  destruct pre as [|p pre']; [|destruct (chr NL p); [reflexivity|]];
    reflexivity.
Qed.

Lemma heading_nil (pre : str) : match_here re_heading_inline pre [] = None.
Proof.
  unfold match_here, re_heading_inline, re_equals.
  cbn [seqs fold_right run].
  destruct pre as [|p pre']; [|destruct (chr NL p)]; reflexivity.
Qed.

Lemma title_char_not_equals (c : ascii) :
  title_char c = true -> chr "=" c = false.
Proof.
  unfold title_char, noneof, Str.mem, chr.
  cbn [list_ascii_of_string app existsb]. rewrite (Ascii.eqb_sym c "=").
  now destruct (Ascii.eqb "=" c).
Qed.

Lemma title_chars_free (name : str) :
  forallb title_char name = true -> free_of (chr "=") name.
Proof.
  intros H. unfold free_of. apply Forall_forall. intros c Hc.
  apply title_char_not_equals.
  rewrite forallb_forall in H. now apply H.
Qed.

(** the heading is on a line of its own already *)
Lemma normalize_headings_one_section (intro name body : str) :
  free_of (chr "=") intro ->
  1 <= length name ->
  forallb title_char name = true ->
  free_of (chr "=") body ->
  normalize_headings (one_section intro name body)
  = one_section intro name body.
Proof.
  intros Hintro Hlen Hname Hbody.
  apply title_chars_free in Hname.
  destruct name as [|n name]; [cbn in Hlen; lia|].
  inversion Hname as [|? ? Hn Hname']; subst.
  unfold normalize_headings, sub_fn, one_section, nl.
  cbn [list_ascii_of_string app].
  set (repl := fun m => [NL] ++ m_group 1 m).
  rewrite (sub_go_pass _ repl (chr "=") heading_first) by assumption.
  f_equal.
  rewrite sub_go_cons_none by now apply heading_first.
  f_equal.
  rewrite sub_go_cons_none by apply heading_behind_nl.
  f_equal.
  rewrite sub_go_cons_none by now apply heading_one_equals.
  f_equal.
  change (n :: name ++ "="%char :: "="%char :: NL :: body)
    with ((n :: name) ++ "="%char :: "="%char :: NL :: body).
  rewrite (sub_go_pass _ repl (chr "=") heading_first) by assumption.
  f_equal.
  rewrite sub_go_cons_none by apply heading_no_title.
  f_equal.
  rewrite sub_go_cons_none by now apply heading_one_equals.
  f_equal.
  rewrite sub_go_cons_none by now apply heading_first.
  f_equal.
  rewrite <- (app_nil_r body) at 1.
  rewrite (sub_go_pass _ repl (chr "=") heading_first) by assumption.
  cbn [sub_go]. rewrite heading_nil. now rewrite !app_nil_r.
Qed.

Section Repetition.

Context {A : Type}.
Variable cls : ascii -> bool.
Variable k : cont A.
Variable g : caps.

Lemma rep_greedy_first (lo : nat) (hi : option nat) (pre : str) (c : ascii)
    (t : str) :
  cls c = false -> rep_greedy cls (S lo) hi pre (c :: t) g k = None.
Proof. intros Hc. cbn [rep_greedy]. now rewrite Hc. Qed.

(** the greedy repetition with an upper bound that the run stays within *)
Lemma rep_greedy_max_hi (res : A) (s : str) :
  hd_in cls s = false ->
  forall x lo h pre,
    forallb cls x = true ->
    lo <= length x <= h ->
    k (rev x ++ pre) s g = Some res ->
    rep_greedy cls lo (Some h) pre (x ++ s) g k = Some res.
Proof.
  intros Hs. induction x as [|a x IH]; intros lo h pre Hx Hlo Hk.
  - cbn [length] in Hlo. assert (lo = 0) as -> by lia. cbn [app rev] in *.
    destruct s as [|c t]; cbn [rep_greedy]; [exact Hk|].
    cbn [hd_in] in Hs. rewrite Hs. exact Hk.
  - cbn [forallb] in Hx. apply andb_prop in Hx as [Ha Hx].
    cbn [length] in Hlo. destruct h as [|h]; [lia|].
    cbn [app rep_greedy]. rewrite Ha. cbn [andb hi_allows hi_pred Nat.pred].
    rewrite (IH (Nat.pred lo) h (a :: pre)); [reflexivity | exact Hx | lia |].
    cbn [rev] in Hk. now rewrite <- app_assoc in Hk.
Qed.

(** the lazy repetition goes on as long as the continuation fails *)
Lemma rep_lazy_min (res : A) (s : str) :
  forall x lo pre,
    forallb cls x = true ->
    lo <= length x ->
    (forall x1 x2, x = x1 ++ x2 -> 1 <= length x2 ->
                   k (rev x1 ++ pre) (x2 ++ s) g = None) ->
    k (rev x ++ pre) s g = Some res ->
    rep_lazy cls lo None pre (x ++ s) g k = Some res.
Proof.
  induction x as [|a x IH]; intros lo pre Hx Hlo Hfail Hk.
  - cbn [length] in Hlo. assert (lo = 0) as -> by lia. cbn [app rev] in *.
    destruct s as [|c t]; cbn [rep_lazy]; now rewrite Hk.
  - cbn [forallb] in Hx. apply andb_prop in Hx as [Ha Hx].
    assert (Hmore : forall lo',
               lo' <= length x ->
               rep_lazy cls lo' None (a :: pre) (x ++ s) g k = Some res).
    { intros lo' Hlo'. apply IH; [exact Hx | exact Hlo' | |].
      - intros x1 x2 E Hx2. specialize (Hfail (a :: x1) x2).
        cbn [rev] in Hfail. rewrite <- app_assoc in Hfail.
        apply Hfail; [now rewrite E | exact Hx2].
      - cbn [rev] in Hk. now rewrite <- app_assoc in Hk. }
    cbn [app rep_lazy]. rewrite Ha. cbn [andb hi_allows hi_pred].
    destruct lo as [|lo].
    + pose proof (Hfail [] (a :: x) eq_refl ltac:(cbn; lia)) as H0.
      cbn [rev app] in H0. rewrite H0. apply Hmore. lia.
    + apply Hmore. cbn [length Nat.pred] in *. lia.
Qed.

End Repetition.

Lemma last_in_app (cls : ascii -> bool) (a b : str) :
  1 <= length b -> last_in cls (a ++ b) = last_in cls b.
Proof.
  intros Hb. induction a as [|c a IH]; [reflexivity|].
  cbn [app]. rewrite last_in_cons; [exact IH|].
  destruct a, b; cbn in *; try discriminate; lia.
Qed.

Lemma finditer_cons_none (r : re) (pre : str) (c : ascii) (t : str) :
  match_here r pre (c :: t) = None ->
  finditer_go r 0 pre (c :: t) = finditer_go r 0 (c :: pre) t.
Proof. intros H. cbn [finditer_go]. now rewrite H. Qed.

Lemma finditer_skip (r : re) (k : nat) :
  forall pre rest,
    k <= length rest ->
    finditer_go r k pre rest
    = finditer_go r 0 (rev (firstn k rest) ++ pre) (skipn k rest).
Proof.
  induction k as [|k IH]; intros pre rest Hk; [reflexivity|].
  destruct rest as [|c t]; cbn [length] in Hk; [lia|].
  cbn [finditer_go firstn skipn rev]. rewrite IH by lia.
  now rewrite <- app_assoc.
Qed.

Lemma section_first (pre : str) (c : ascii) (t : str) :
  chr "=" c = false -> hd_in (chr "=") t = false ->
  match_here SECTION_RE pre (c :: t) = None.
Proof.
  intros Hc Ht. unfold match_here, SECTION_RE, re_equals.
  cbn [seqs fold_right run]. rewrite rep_greedy_first by exact Hc.
  assert (Hnl : (if chr NL c
                 then rep_greedy (chr "=") 2 (Some 6) (c :: pre) t []
                        (fun p s g' =>
                           run (star Chr.is_space) p s
                             ((1, consumed (c :: pre) p) :: g')
                             (fun p0 s0 g'0 =>
                                run (lazy_plus title_char) p0 s0 g'0
                                  (fun p1 s1 g'1 =>
                                     run (star Chr.is_space) p1 s1
                                       ((2, consumed p0 p1) :: g'1)
                                       (fun p2 s2 g'2 =>
                                          run (Bref 1) p2 s2 g'2
                                            (fun p3 _ g'3 =>
                                               Some
                                                 (MatchObj (length pre)
                                                    (length p3) g'3
                                                    (consumed pre p3)))))))
                 else None) = None).
  { destruct (chr NL c); [|reflexivity].
    destruct t as [|d t]; [reflexivity|].
    cbn [hd_in] in Ht. now apply rep_greedy_first. }
  destruct (at_bol true pre); exact Hnl.
Qed.

Lemma section_nil (pre : str) : match_here SECTION_RE pre [] = None.
Proof.
  unfold match_here, SECTION_RE, re_equals. cbn [seqs fold_right run].
  now destruct (at_bol true pre).
Qed.

(** passing over text without an equals sign before text that does not
    start with one *)
Lemma finditer_pass_section (u tail : str) :
  free_of (chr "=") u -> hd_in (chr "=") tail = false ->
  forall pre,
    finditer_go SECTION_RE 0 pre (u ++ tail)
    = finditer_go SECTION_RE 0 (rev u ++ pre) tail.
Proof.
  intros Hu Htail. induction Hu as [|c u Hc Hu IH]; intros pre;
    [reflexivity|].
  cbn [app]. rewrite finditer_cons_none.
  - rewrite IH. cbn [rev]. now rewrite <- app_assoc.
  - apply section_first; [exact Hc|].
    destruct Hu as [|d u Hd Hu]; [exact Htail | exact Hd].
Qed.

Lemma section_match (pre name s : str) :
  1 <= length name ->
  forallb title_char name = true ->
  hd_in Chr.is_space name = false ->
  last_in Chr.is_space name = false ->
  exists m,
    match_here SECTION_RE pre
      (NL :: "="%char :: "="%char :: name ++ "="%char :: "="%char :: s)
    = Some m
    /\ m_start m = length pre
    /\ m_end m = length pre + 5 + length name
    /\ m_group 1 m = ["="%char; "="%char]
    /\ m_group 2 m = name.
Proof.
  intros Hlen Hname Hhd Hlast.
  assert (Hfree : free_of (chr "=") name) by now apply title_chars_free.
  assert (Heq : hd_in (chr "=") (name ++ "="%char :: "="%char :: s) = false).
  { destruct name as [|n name]; [cbn in Hlen; lia|].
    inversion Hfree; subst. assumption. }
  assert (Hsp : hd_in Chr.is_space (name ++ "="%char :: "="%char :: s) = false).
  { destruct name as [|n name]; [cbn in Hlen; lia | exact Hhd]. }
  eexists. split.
  - unfold match_here, SECTION_RE, re_equals, star, lazy_plus.
    cbn [seqs fold_right run]. rewrite rep_greedy_first by reflexivity.
    change (chr NL NL) with true. cbv iota.
    replace (if at_bol true pre then @None match_obj else None)
      with (@None match_obj) by now destruct (at_bol true pre).
    cbv iota.
    apply (rep_greedy_max_hi _ _ _ _ _ Heq ["="%char; "="%char] 2 6);
      [reflexivity | cbn; lia |].
    cbv beta. rewrite consumed_app.
    apply (rep_greedy_max _ _ _ _ _ Hsp [] 0); [reflexivity | cbn; lia |].
    cbv beta.
    apply (rep_lazy_min _ _ _ _ _ name 1); [exact Hname | exact Hlen | |].
    + intros x1 x2 E Hx2. cbv beta.
      assert (Hlast2 : last_in Chr.is_space x2 = false)
        by (rewrite <- (last_in_app _ x1 x2 Hx2), <- E; exact Hlast).
      apply rep_greedy_fails. intros x s' E' Hx.
      destruct (space_run_inside x2 Hx2 Hlast2 _ x s' E' Hx)
        as (c & s'' & -> & Hin).
      assert (Hc : chr "=" c = false).
      { unfold free_of in Hfree. rewrite Forall_forall in Hfree.
        apply Hfree. rewrite E. apply in_or_app. now right. }
      cbn [group Nat.eqb Str.startswith]. unfold chr in Hc. now rewrite Hc.
    + cbv beta. rewrite consumed_app.
      apply (rep_greedy_max _ _ _ _ ("="%char :: "="%char :: s) eq_refl [] 0);
        [reflexivity | cbn; lia |].
      cbv beta. cbn [group Nat.eqb Str.startswith].
      rewrite startswith_nil. reflexivity.
  - cbn [m_start m_end m_group m_groups group Nat.eqb].
    repeat split.
    rewrite !length_app, !length_rev. cbn [length]. lia.
Qed.

Lemma skipn_app_length (x s : str) (k : nat) :
  k = length x -> skipn k (x ++ s) = s.
Proof. intros ->. apply skipn_length_app. Qed.

Lemma hd_in_weaken (P Q : ascii -> bool) (s : str) :
  (forall c, P c = true -> Q c = true) ->
  hd_in Q s = false -> hd_in P s = false.
Proof.
  intros H. destruct s as [|c s]; [reflexivity|]. cbn [hd_in]. intros Hq.
  destruct (P c) eqn:E; [|reflexivity]. apply H in E. congruence.
Qed.

Lemma last_in_weaken (P Q : ascii -> bool) (s : str) :
  (forall c, P c = true -> Q c = true) ->
  last_in Q s = false -> last_in P s = false.
Proof.
  intros H. rewrite !last_in_rev. now apply hd_in_weaken.
Qed.

Lemma finditer_cons_some (r : re) (pre : str) (c : ascii) (t : str)
    (m : match_obj) :
  match_here r pre (c :: t) = Some m ->
  finditer_go r 0 pre (c :: t)
  = m :: finditer_go r (Nat.pred (m_end m - m_start m)) (c :: pre) t.
Proof. intros H. cbn [finditer_go]. now rewrite H. Qed.

(** the matches of [SECTION_RE] in a page with one section *)
Lemma finditer_one_section (intro name body : str) :
  free_of (chr "=") intro ->
  1 <= length name ->
  forallb title_char name = true ->
  hd_in Chr.is_space name = false ->
  last_in Chr.is_space name = false ->
  free_of (chr "=") body ->
  exists m,
    finditer SECTION_RE (one_section intro name body) = [m]
    /\ m_end m = length intro + 5 + length name
    /\ m_group 1 m = ["="%char; "="%char]
    /\ m_group 2 m = name.
Proof.
  intros Hintro Hlen Hname Hhd Hlast Hbody.
  destruct (section_match (rev intro) name (NL :: body) Hlen Hname Hhd Hlast)
    as (m & Hm & Hstart & Hend & Hg1 & Hg2).
  exists m. rewrite length_rev in Hend, Hstart.
  split; [|now repeat split].
  unfold finditer, one_section, nl. cbn [list_ascii_of_string app].
  rewrite finditer_pass_section by (assumption || reflexivity).
  rewrite app_nil_r, (finditer_cons_some _ _ _ _ m Hm). f_equal.
  rewrite Hend, Hstart.
  replace (Nat.pred (length intro + 5 + length name - length intro))
    with (4 + length name) by lia.
  rewrite finditer_skip
    by (cbn [length]; rewrite length_app; cbn [length]; lia).
  assert (E : "="%char :: "="%char :: name ++ "="%char :: "="%char :: NL :: body
              = ("="%char :: "="%char :: name ++ ["="%char; "="%char])
                ++ NL :: body)
    by (cbn [app]; now rewrite <- app_assoc).
  rewrite E at 2.
  rewrite skipn_app_length
    by (cbn [length]; rewrite length_app; cbn [length]; lia).
  rewrite <- (app_nil_r (NL :: body)).
  rewrite finditer_pass_section;
    [| constructor; [reflexivity | exact Hbody] | reflexivity].
  cbn [finditer_go]. now rewrite section_nil.
Qed.

(** X18: in a page with one heading of level two on a line of its own,
    after an introduction and before a body that hold no equals sign,
    [find_section_block] finds the section under its name in any case and
    with whitespace around it, and returns the body, trimmed. *)
Theorem find_section_block_one_section (intro name body section_name : str) :
  Str.contains intro "=" = false ->
  1 <= length name ->
  forallb title_char name = true ->
  hd_in title_edge name = false ->
  last_in title_edge name = false ->
  Str.contains body "=" = false ->
  Str.lower (Str.strip section_name) = Str.lower name ->
  find_section_block (one_section intro name body) section_name
  = Some (Str.strip body).
Proof.
  intros Hintro Hlen Hname Hhd Hlast Hbody Htarget.
  apply (contains_chr_false "="%char) in Hintro, Hbody.
  assert (Hsp : forall c, Chr.is_space c = true -> title_edge c = true)
    by (intros c Hc; unfold title_edge; now rewrite Hc).
  assert (Hq : forall c, Str.mem c (" '" ++ ["034"%char]) = true ->
                         title_edge c = true)
    by (intros c Hc; unfold title_edge; rewrite Hc; apply orb_true_r).
  pose proof (hd_in_weaken _ _ _ Hsp Hhd) as Hhd1.
  pose proof (last_in_weaken _ _ _ Hsp Hlast) as Hlast1.
  pose proof (hd_in_weaken _ _ _ Hq Hhd) as Hhd2.
  pose proof (last_in_weaken _ _ _ Hq Hlast) as Hlast2.
  destruct (finditer_one_section intro name body Hintro Hlen Hname Hhd1
              Hlast1 Hbody) as (m & Hfi & Hend & Hg1 & Hg2).
  unfold find_section_block.
  rewrite normalize_headings_one_section by assumption.
  rewrite Hfi. cbn [find_section_in]. rewrite Hg1, Hg2, Hend, Htarget.
  change (Str.strip name) with (Str.strip_by Chr.is_space name).
  rewrite (strip_id _ name Hhd1 Hlast1). unfold Str.strip_chars.
  rewrite (strip_id _ name Hhd2 Hlast2), str_eqb_refl.
  cbn [section_end]. f_equal.
  assert (E : one_section intro name body
              = (intro ++ NL :: "="%char :: "="%char :: name
                 ++ ["="%char; "="%char]) ++ NL :: body).
  { unfold one_section, nl. cbn [list_ascii_of_string app].
    rewrite <- app_assoc. cbn [app]. now rewrite <- app_assoc. }
  unfold Str.slice. rewrite E at 2.
  rewrite skipn_app_length
    by (rewrite length_app; cbn [length]; rewrite length_app; cbn [length];
        lia).
  rewrite firstn_all2; [reflexivity|].
  rewrite E, length_app, length_app. cbn [length].
  rewrite length_app. cbn [length]. lia.
Qed.

Lemma find_section_block_one_section_witness :
  find_section_block
    (one_section "The band." "Early life" (" Formed in 1990." ++ nl))
    " early LIFE "
  = Some (Str.strip (" Formed in 1990." ++ nl)).
Proof.
  apply find_section_block_one_section; try reflexivity.
  simpl. lia.
Defined.

(** ** The text of a page *)

Lemma page_row_text (sets : mention_sets) ttl redirect ns text row :
  page_row sets ttl redirect ns text = Some row -> page_text row = text.
Proof.
  unfold page_row. intros H.
  destruct ttl as [[|c t]|]; try discriminate.
  destruct ns as [[|n]|]; try discriminate.
  destruct redirect; try discriminate.
  destruct (Str.contains _ _); try discriminate.
  destruct (requested_types _ _); try discriminate.
  destruct (with_fallback _ _); try discriminate.
  destruct (type_in _ _); try discriminate.
  now injection H as <-.
Qed.

(** one turn of the scan: the buffer follows the lines, and a row has the
    lines of the buffer and the closing line as its text *)
Lemma scan_line_buffer (sets : mention_sets) (processed : list str)
    (st : scan_state) (line : str) :
  buffer_of processed st ->
  buffer_of (processed ++ [line]) (fst (scan_line sets st line))
  /\ forall row,
       snd (scan_line sets st line) = Some row ->
       exists before first middle,
         processed = before ++ first :: middle
         /\ Str.contains first "<page>" = true
         /\ Forall (fun l => Str.contains l "<page>" = false
                             /\ Str.contains l "</page>" = false) middle
         /\ Str.contains line "<page>" = false
         /\ Str.contains line "</page>" = true
         /\ page_text row = concat (first :: middle ++ [line]).
Proof.
  intros Hinv. unfold scan_line.
  destruct (Str.contains line "<page>") eqn:Hopen.
  { split; [|discriminate]. intros _. exists processed, line, [].
    cbn [fst buffer]. auto. }
  destruct (in_page st) eqn:Hin.
  2:{ split; [|discriminate]. cbn [fst]. intros H. congruence. }
  destruct (Hinv Hin) as (before & first & middle & -> & Hfirst & Hmid & Hbuf).
  destruct (Str.contains line "</page>") eqn:Hclose.
  - match goal with
    | |- context [if ?b then (ScanState false _ _ _ _, None) else _] =>
        destruct b
    end.
    + split; [|discriminate]. cbn [fst in_page]. intros H. discriminate H.
    + split; [cbn [fst]; intros H; discriminate H|].
      cbn [snd]. intros row Hrow. apply page_row_text in Hrow.
      exists before, first, middle. rewrite Hrow, Hbuf.
      repeat split; auto.
  - split; [|discriminate]. cbn [fst in_page buffer]. intros _.
    exists before, first, (middle ++ [line]).
    rewrite Hbuf, <- app_assoc. repeat split; auto.
    apply Forall_app. split; [exact Hmid|]. now repeat constructor.
Qed.

Lemma parse_lines_page_text (sets : mention_sets) (row : Row) :
  forall lines processed st,
    buffer_of processed st ->
    In row (parse_lines sets st lines) ->
    exists before first middle last after,
      processed ++ lines = before ++ first :: middle ++ last :: after
      /\ Str.contains first "<page>" = true
      /\ Forall (fun l => Str.contains l "<page>" = false
                          /\ Str.contains l "</page>" = false) middle
      /\ Str.contains last "<page>" = false
      /\ Str.contains last "</page>" = true
      /\ page_text row = concat (first :: middle ++ [last]).
Proof.
  induction lines as [|line lines IH]; intros processed st Hinv Hrow;
    [destruct Hrow|].
  destruct (scan_line_buffer sets processed st line Hinv) as [Hinv' Hyield].
  cbn [parse_lines] in Hrow.
  destruct (scan_line sets st line) as [st' [r|]]; cbn [fst snd] in *.
  - destruct Hrow as [<-|Hrow].
    + destruct (Hyield r eq_refl)
        as (before & first & middle & -> & H1 & H2 & H3 & H4 & H5).
      exists before, first, middle, line, lines.
      rewrite <- app_assoc. cbn [app]. auto 10.
    + destruct (IH _ _ Hinv' Hrow)
        as (before & first & middle & last & after & E & H).
      exists before, first, middle, last, after.
      rewrite <- app_assoc in E. now split.
  - destruct (IH _ _ Hinv' Hrow)
      as (before & first & middle & last & after & E & H).
    exists before, first, middle, last, after.
    rewrite <- app_assoc in E. now split.
Qed.

(** X19: the text of a row that [parse_partition] yields is the
    concatenation of the lines of one page: a line that holds "<page>",
    the lines after it, none of which opens or closes a page, and the
    first line that holds "</page>". *)
Theorem parse_partition_page_text (sets : mention_sets) (lines : list str)
    (row : Row) :
  In row (parse_partition sets lines) ->
  exists before first middle last after,
    lines = before ++ first :: middle ++ last :: after
    /\ Str.contains first "<page>" = true
    /\ Forall (fun l => Str.contains l "<page>" = false
                        /\ Str.contains l "</page>" = false) middle
    /\ Str.contains last "<page>" = false
    /\ Str.contains last "</page>" = true
    /\ page_text row = concat (first :: middle ++ [last]).
Proof.
  intros H. apply (parse_lines_page_text sets row lines [] scan_init).
  - intros Hin. discriminate Hin.
  - exact H.
Qed.

Lemma parse_partition_page_text_witness :
  let sets := MentionSets ∅ ∅ {[ "sticky fingers" : str ]} ∅ in
  let lines :=
    ["<page>" : str; "<title>Sticky Fingers (band)</title>" : str;
     "<ns>0</ns>" : str; "<text>[[Category:Rock bands]]</text>" : str;
     "</page>" : str] in
  let row := MkRow sticky_title "sticky fingers" (concat lines) Artist in
  exists before first middle last after,
    lines = before ++ first :: middle ++ last :: after
    /\ Str.contains first "<page>" = true
    /\ Forall (fun l => Str.contains l "<page>" = false
                        /\ Str.contains l "</page>" = false) middle
    /\ Str.contains last "<page>" = false
    /\ Str.contains last "</page>" = true
    /\ page_text row = concat (first :: middle ++ [last]).
Proof.
  intros sets lines row. apply (parse_partition_page_text sets lines row).
  vm_compute. left. reflexivity.
Defined.

(** ** What the section finder returns *)

Lemma find_section_block_no_equals (wikitext section_name : str) :
  free_of (chr "=") wikitext ->
  find_section_block wikitext section_name = None.
Proof.
  intros Hfree. unfold find_section_block.
  assert (Hfi : finditer SECTION_RE (normalize_headings wikitext) = []).
  { unfold normalize_headings, sub_fn.
    rewrite <- (app_nil_r wikitext) at 1.
    rewrite (sub_go_pass _ _ (chr "=") heading_first) by assumption.
    cbn [sub_go]. rewrite heading_nil, !app_nil_r.
    unfold finditer. rewrite <- (app_nil_r wikitext) at 1.
    rewrite finditer_pass_section by (assumption || reflexivity).
    cbn [finditer_go]. now rewrite section_nil. }
  now rewrite Hfi.
Qed.

Lemma find_section_in_slice (wt target : str) (matches : list match_obj)
    (b : str) :
  find_section_in wt target matches = Some b ->
  exists i j, b = Str.strip (Str.slice wt i j).
Proof.
  induction matches as [|m later IH]; [discriminate|].
  cbn [find_section_in]. destruct (Str.eqb _ target); [|exact IH].
  intros [= <-]. eauto.
Qed.

Lemma slice_factor (s : str) (i j : nat) :
  exists l r, s = l ++ Str.slice s i j ++ r.
Proof.
  exists (firstn i s), (skipn (j - i) (skipn i s)). unfold Str.slice.
  now rewrite (firstn_skipn (j - i)), firstn_skipn.
Qed.

(** X20: [find_section_block] finds a section only in a text that holds
    an equals sign, and what it returns has no whitespace at either end
    and is a piece of the text with the headings normalised. *)
Theorem find_section_block_found (wikitext section_name b : str) :
  find_section_block wikitext section_name = Some b ->
  Str.contains wikitext "=" = true
  /\ hd_in Chr.is_space b = false
  /\ last_in Chr.is_space b = false
  /\ exists l r, normalize_headings wikitext = l ++ b ++ r.
Proof.
  intros H. split.
  { destruct (Str.contains wikitext "=") eqn:E; [reflexivity|].
    apply (contains_chr_false "="%char) in E.
    rewrite (find_section_block_no_equals _ section_name E) in H.
    discriminate H. }
  unfold find_section_block in H.
  apply find_section_in_slice in H as (i & j & ->).
  split; [apply strip_hd|]. split; [apply strip_last|].
  destruct (slice_factor (normalize_headings wikitext) i j) as (l & r & E).
  destruct (strip_factor Chr.is_space
              (Str.slice (normalize_headings wikitext) i j))
    as (l' & r' & E').
  exists (l ++ l'), (r' ++ r). rewrite E at 1. rewrite E' at 1.
  unfold Str.strip. now rewrite <- !app_assoc.
Qed.

Lemma find_section_block_found_witness :
  Str.contains ("== A ==" ++ nl ++ " text " ++ nl ++ "== B ==") "=" = true
  /\ hd_in Chr.is_space "text" = false
  /\ last_in Chr.is_space "text" = false
  /\ exists l r,
       normalize_headings ("== A ==" ++ nl ++ " text " ++ nl ++ "== B ==")
       = l ++ "text" ++ r.
Proof.
  apply (find_section_block_found _ "a"). reflexivity.
Defined.

(** ** The setlist page *)

Lemma search_needs_none (P : ascii -> bool) (r : re) (s : str) :
  needs P r = true -> free_of P s -> search r s = None.
Proof.
  intros Hn. unfold search. generalize (@nil ascii) as pre.
  induction s as [|c t IH]; intros pre Hfree; cbn [search_from];
    unfold match_here; rewrite (needs_none P r Hn) by assumption;
    [reflexivity|].
  apply IH. now inversion Hfree.
Qed.

Lemma finditer_needs_nil (P : ascii -> bool) (r : re) (s : str) :
  needs P r = true -> free_of P s -> finditer r s = [].
Proof.
  intros Hn. unfold finditer. generalize (@nil ascii) as pre.
  induction s as [|c t IH]; intros pre Hfree; cbn [finditer_go];
    unfold match_here; rewrite (needs_none P r Hn) by assumption;
    [reflexivity|].
  apply IH. now inversion Hfree.
Qed.

(** replacing a character by a text without it leaves none *)
Lemma replace_chr_free (c : ascii) (new s : str) :
  free_of (chr c) new -> free_of (chr c) (Str.replace [c] new s).
Proof.
  intros Hnew. unfold Str.replace.
  induction s as [|x s IH]; [constructor|].
  cbn [Str.replace_go Str.startswith length Nat.sub].
  rewrite startswith_nil, andb_true_r.
  destruct (Ascii.eqb c x) eqn:E.
  - apply Forall_app. split; assumption.
  - constructor; assumption.
Qed.

(** replacing a character keeps a text free of another class *)
Lemma replace_keeps_free (P : ascii -> bool) (c : ascii) (new s : str) :
  free_of P new -> free_of P s -> free_of P (Str.replace [c] new s).
Proof.
  intros Hnew. unfold Str.replace.
  induction s as [|x s IH]; intros Hs; [constructor|].
  inversion Hs as [|? ? Hx Hs']; subst.
  cbn [Str.replace_go Str.startswith length Nat.sub].
  rewrite startswith_nil, andb_true_r.
  destruct (Ascii.eqb c x).
  - apply Forall_app. split; [assumption | now apply IH].
  - constructor; [assumption | now apply IH].
Qed.

(** X21: on a page in which no "<" occurs [extract_artist_and_venue] finds
    nothing: artist, date, tour, venue, city and country are [None] and
    the list of songs is empty; the url is handed through. *)
Theorem extract_artist_and_venue_no_tag (html_content : str)
    (url : option str) :
  Str.contains html_content "<" = false ->
  extract_artist_and_venue html_content url
  = Setlist url None None None None None None 0 [].
Proof.
  intros H. apply (contains_chr_false "<"%char) in H.
  assert (Hclean : free_of (chr "<") (Str.replace nl " " html_content)).
  { apply replace_keeps_free; [repeat constructor | exact H]. }
  unfold extract_artist_and_venue, unescaped_group.
  rewrite (search_needs_none (chr "<") artist_re) by
    (assumption || (vm_compute; reflexivity)).
  rewrite (search_needs_none (chr "<") venue_re) by
    (assumption || (vm_compute; reflexivity)).
  rewrite (search_needs_none (chr "<") date_re) by
    (assumption || (vm_compute; reflexivity)).
  rewrite (search_needs_none (chr "<") tour_re) by
    (assumption || (vm_compute; reflexivity)).
  rewrite (finditer_needs_nil (chr "<") song_re) by
    (assumption || (vm_compute; reflexivity)).
  reflexivity.
Qed.

Lemma extract_artist_and_venue_no_tag_witness :
  extract_artist_and_venue ("ABBA" ++ nl ++ "Setlist") (Some ("a.html" : str))
  = Setlist (Some ("a.html" : str)) None None None None None None 0 [].
Proof. apply extract_artist_and_venue_no_tag. reflexivity. Defined.

(** X22: [extract_artist_and_venue] reads a line break as a space: a page
    and the page with every line break replaced by a space give the same
    result. *)
Theorem extract_artist_and_venue_newlines (html_content : str)
    (url : option str) :
  extract_artist_and_venue (Str.replace nl " " html_content) url
  = extract_artist_and_venue html_content url.
Proof.
  unfold extract_artist_and_venue.
  assert (E : Str.replace nl " " (Str.replace nl " " html_content)
              = Str.replace nl " " html_content).
  { apply (replace_free NL []). apply replace_chr_free. repeat constructor. }
  now rewrite E.
Qed.
